(** * The synchronisation engine of the notes application

    A shallow embedding of [googleDriveSync.ts] (the sync manager and
    its Drive adapter) and of the metadata projection of
    [NotesContext.tsx], with the properties the specification states
    about them.

    - JavaScript values that the engine only moves around are [json]
      trees; an object is the list of its properties in insertion order.
    - Asynchronous functions are programs of a free monad [Proc]: every
      effect of the source (a field of the manager, the clock, the
      settings storage, a Drive request) is an operation whose answer
      the continuation receives.  [run] executes a program on a [State];
      [Pool] interleaves several programs at their suspension points. *)

From stdpp Require Import gmap strings list fin_maps pretty.
From Stdlib Require Import ZArith Lia Ascii.

Open Scope Z_scope.
Local Set Warnings "-register-all".

(** ** JavaScript values *)

(** [JTime t] is the string [new Date(t).toISOString()]: a timestamp in
    ISO form is represented by the instant (milliseconds since the
    epoch) it denotes.  Every other string is a [JStr]; a Date object
    is represented by its JSON form, a [JTime]. *)
Inductive json : Type :=
| JNull
| JBool (b : bool)
| JNum (n : Z)
| JStr (s : string)
| JTime (t : Z)
| JArr (xs : list json)
| JObj (fs : list (string * json)).

(** Truthiness, as used by [if (x)], [!x] and [x || y]. *)
Definition truthy (v : json) : bool :=
  match v with
  | JNull => false
  | JBool b => b
  | JNum n => negb (n =? 0)
  | JStr s => negb (String.eqb s "")
  | JTime _ => true
  | JArr _ => true
  | JObj _ => true
  end.

(** [x === y] on two values read from properties ([None] is
    [undefined]).  Primitives compare by value; two objects or arrays
    that were parsed or loaded separately are never the same object. *)
Definition strict_eq (x y : option json) : bool :=
  match x, y with
  | None, None => true
  | Some JNull, Some JNull => true
  | Some (JBool a), Some (JBool b) => Bool.eqb a b
  | Some (JNum a), Some (JNum b) => a =? b
  | Some (JStr a), Some (JStr b) => String.eqb a b
  | Some (JTime a), Some (JTime b) => a =? b
  | _, _ => false
  end.

(** A JavaScript number that may be [NaN] ([None]). *)
Definition jsnum : Type := option Z.

(** [a > b]: false as soon as one side is [NaN]. *)
Definition js_gt (a b : jsnum) : bool :=
  match a, b with
  | Some x, Some y => y <? x
  | _, _ => false
  end.

Inductive Error : Type :=
| UNAUTHORIZED
| NetworkError
| SyntaxError
| TypeError.

(** ** The sync envelope *)

(** [interface SyncMetadata].  The fields hold whatever value the
    settings storage or the remote document carried. *)
Record SyncMetadata : Type := {
  lastSyncTime : json;
  deviceId : json;
  version : json
}.

(** [interface SyncableData<T>]. *)
Record SyncableData : Type := {
  data : json;
  metadata : SyncMetadata
}.

Inductive Winner : Type := local | remote.

(** The value [{ winner, data }] returned by the resolver. *)
Record Resolution : Type := {
  winner : Winner;
  winner_data : json
}.


(** A pure computation that may throw. *)
Definition Exc (A : Type) : Type := Error + A.

(** ** Objects and arrays *)

(** [o[k]] on the property list of an object. *)
Fixpoint lookup_prop (k : string) (fs : list (string * json)) : option json :=
  match fs with
  | [] => None
  | (k', v) :: rest => if String.eqb k k' then Some v else lookup_prop k rest
  end.

(** [{ ...o, k: v }]: an existing property keeps its place, a new one
    goes last. *)
Fixpoint assign_prop (k : string) (v : json) (fs : list (string * json))
  : list (string * json) :=
  match fs with
  | [] => [(k, v)]
  | (k', v') :: rest =>
      if String.eqb k k' then (k, v) :: rest else (k', v') :: assign_prop k v rest
  end.

(** The one-character strings of a string. *)
Fixpoint chars (s : string) : list json :=
  match s with
  | EmptyString => []
  | String c rest => JStr (String c EmptyString) :: chars rest
  end.

(** The index properties ["0"], ["1"], … of an array or a string. *)
Definition indexed (xs : list json) : list (string * json) :=
  imap (λ i x, (pretty i, x)) xs.

(** [v.k]: reading a property of [null] throws; a primitive, an array
    or a string has none of the properties the engine reads. *)
Definition prop (v : json) (k : string) : Exc (option json) :=
  match v with
  | JNull => inl TypeError
  | JObj fs => inr (lookup_prop k fs)
  | _ => inr None
  end.

(** ** Google Drive, as the adapter sees it *)

(** A Drive file id: an opaque handle. *)
Definition FileId : Type := nat.

(** [interface DriveFile]. *)
Record DriveFile : Type := {
  fileId : FileId;
  fileName : string;
  modifiedTime : Z
}.

(** What [GET files/<id>?alt=media] serves for a file: text that is
    not JSON, a JSON value that is falsy ([null], [false], [0], the
    empty string), an envelope, or a truthy JSON value without a
    [metadata] (missing or [null]), such as [{"foo": 1}], a number or
    an array. *)
Inductive Content : Type :=
| Garbage
| Falsy
| Envelope (e : SyncableData)
| NoMetadata.

(** A truthy document as [response.json()] hands it to the caller,
    unchecked: one with a [metadata], or one without. *)
Inductive Document : Type :=
| Shaped (e : SyncableData)
| Unshaped.

(** What a read of a content yields once the request is served. *)
Definition parsed (c : Content) : option Document :=
  match c with
  | Envelope e => Some (Shaped e)
  | NoMetadata => Some Unshaped
  | Garbage | Falsy => None
  end.

(** The requests the adapter sends, indexed by what an [ok] response
    carries. *)
Inductive Request : Type → Type :=
| About : Request unit
| ListFiles (name : string) : Request (list DriveFile)
| GetMedia (file : FileId) : Request Content
| CreateFile (name : string) (content : SyncableData) : Request FileId
| UpdateFile (file : FileId) (name : string) (content : SyncableData)
  : Request FileId
| DeleteFile (file : FileId) : Request unit.

(** The outcome of [fetch]: the promise rejects, or resolves to a
    response that is [ok] or that carries an error status. *)
Inductive Reply (X : Type) : Type :=
| NetworkFailure
| ErrorStatus (code : Z)
| Ok (body : X).
Arguments NetworkFailure {X}.
Arguments ErrorStatus {X} code.
Arguments Ok {X} body.

(** A request as it left the device, with its bearer token. *)
Inductive Call : Type :=
| Sent {X : Type} (token : string) (req : Request X).

(** What happens to the next request: it is served, the connection
    fails, or the server answers with an error status. *)
Inductive Weather : Type :=
| Up
| Down
| Refuses (code : Z).

(** The report of a full sync, [{ success, errors }]. *)
Record SyncReport : Type := {
  success : bool;
  errors : list string
}.

(** ** The state the engine runs in *)

Record State : Type := {
  (** fields of [GoogleDriveSyncManager] *)
  accessToken : option string;
  syncInProgress : bool;
  refreshTokenFn : option (option string);
  (** local stores: settings storage and the three databases *)
  settings : gmap string json;
  notesDB : json;
  tasksDB : json;
  foldersDB : json;
  (** the appDataFolder of the account, and the tokens Drive accepts *)
  drive : list (DriveFile * Content);
  nextFileId : FileId;
  validTokens : list string;
  (** the environment: clock, fate and latency of each coming request,
      the suffix [Math.random] yields *)
  clock : Z;
  network : list (Weather * N);
  random : string;
  (** what was observed: requests sent, events dispatched (latest first) *)
  requests : list Call;
  events : list SyncReport
}.

Definition set_accessToken (v : option string) (σ : State) : State :=
  {| accessToken := v; syncInProgress := syncInProgress σ;
     refreshTokenFn := refreshTokenFn σ; settings := settings σ;
     notesDB := notesDB σ; tasksDB := tasksDB σ; foldersDB := foldersDB σ;
     drive := drive σ; nextFileId := nextFileId σ;
     validTokens := validTokens σ; clock := clock σ; network := network σ;
     random := random σ; requests := requests σ; events := events σ |}.

Definition set_syncInProgress (v : bool) (σ : State) : State :=
  {| accessToken := accessToken σ; syncInProgress := v;
     refreshTokenFn := refreshTokenFn σ; settings := settings σ;
     notesDB := notesDB σ; tasksDB := tasksDB σ; foldersDB := foldersDB σ;
     drive := drive σ; nextFileId := nextFileId σ;
     validTokens := validTokens σ; clock := clock σ; network := network σ;
     random := random σ; requests := requests σ; events := events σ |}.

Definition set_settings (v : gmap string json) (σ : State) : State :=
  {| accessToken := accessToken σ; syncInProgress := syncInProgress σ;
     refreshTokenFn := refreshTokenFn σ; settings := v;
     notesDB := notesDB σ; tasksDB := tasksDB σ; foldersDB := foldersDB σ;
     drive := drive σ; nextFileId := nextFileId σ;
     validTokens := validTokens σ; clock := clock σ; network := network σ;
     random := random σ; requests := requests σ; events := events σ |}.

Definition set_notesDB (v : json) (σ : State) : State :=
  {| accessToken := accessToken σ; syncInProgress := syncInProgress σ;
     refreshTokenFn := refreshTokenFn σ; settings := settings σ;
     notesDB := v; tasksDB := tasksDB σ; foldersDB := foldersDB σ;
     drive := drive σ; nextFileId := nextFileId σ;
     validTokens := validTokens σ; clock := clock σ; network := network σ;
     random := random σ; requests := requests σ; events := events σ |}.

Definition set_tasksDB (v : json) (σ : State) : State :=
  {| accessToken := accessToken σ; syncInProgress := syncInProgress σ;
     refreshTokenFn := refreshTokenFn σ; settings := settings σ;
     notesDB := notesDB σ; tasksDB := v; foldersDB := foldersDB σ;
     drive := drive σ; nextFileId := nextFileId σ;
     validTokens := validTokens σ; clock := clock σ; network := network σ;
     random := random σ; requests := requests σ; events := events σ |}.

Definition set_foldersDB (v : json) (σ : State) : State :=
  {| accessToken := accessToken σ; syncInProgress := syncInProgress σ;
     refreshTokenFn := refreshTokenFn σ; settings := settings σ;
     notesDB := notesDB σ; tasksDB := tasksDB σ; foldersDB := v;
     drive := drive σ; nextFileId := nextFileId σ;
     validTokens := validTokens σ; clock := clock σ; network := network σ;
     random := random σ; requests := requests σ; events := events σ |}.

(** The Drive side: files and the next free id change together. *)
Definition set_drive (v : list (DriveFile * Content)) (n : FileId) (σ : State)
  : State :=
  {| accessToken := accessToken σ; syncInProgress := syncInProgress σ;
     refreshTokenFn := refreshTokenFn σ; settings := settings σ;
     notesDB := notesDB σ; tasksDB := tasksDB σ; foldersDB := foldersDB σ;
     drive := v; nextFileId := n;
     validTokens := validTokens σ; clock := clock σ; network := network σ;
     random := random σ; requests := requests σ; events := events σ |}.

(** A request leaves: it is recorded, its fate is taken off the
    forecast and its latency elapses. *)
Definition depart (c : Call) (dt : N) (rest : list (Weather * N)) (σ : State)
  : State :=
  {| accessToken := accessToken σ; syncInProgress := syncInProgress σ;
     refreshTokenFn := refreshTokenFn σ; settings := settings σ;
     notesDB := notesDB σ; tasksDB := tasksDB σ; foldersDB := foldersDB σ;
     drive := drive σ; nextFileId := nextFileId σ;
     validTokens := validTokens σ; clock := clock σ + Z.of_N dt;
     network := rest;
     random := random σ; requests := c :: requests σ; events := events σ |}.

Definition add_event (r : SyncReport) (σ : State) : State :=
  {| accessToken := accessToken σ; syncInProgress := syncInProgress σ;
     refreshTokenFn := refreshTokenFn σ; settings := settings σ;
     notesDB := notesDB σ; tasksDB := tasksDB σ; foldersDB := foldersDB σ;
     drive := drive σ; nextFileId := nextFileId σ;
     validTokens := validTokens σ; clock := clock σ; network := network σ;
     random := random σ; requests := requests σ; events := r :: events σ |}.

(** ** Drive and the network *)

Definition has_id (i : FileId) (f : DriveFile * Content) : bool :=
  Nat.eqb (fileId (fst f)) i.

Definition stored (i : FileId) (σ : State) : option (DriveFile * Content) :=
  List.find (has_id i) (drive σ).

(** What Drive does with a request it accepted. *)
Definition serve {X : Type} (req : Request X) (σ : State) : Reply X * State :=
  match req in Request X return Reply X * State with
  | About => (Ok tt, σ)
  | ListFiles name =>
      (Ok (List.filter (λ f, String.eqb (fileName f) name) (fst <$> drive σ)), σ)
  | GetMedia i =>
      match stored i σ with
      | Some (_, c) => (Ok c, σ)
      | None => (ErrorStatus 404, σ)
      end
  | CreateFile name content =>
      let f := {| fileId := nextFileId σ; fileName := name;
                  modifiedTime := clock σ |} in
      (Ok (nextFileId σ),
       set_drive (drive σ ++ [(f, Envelope content)]) (S (nextFileId σ)) σ)
  | UpdateFile i name content =>
      match stored i σ with
      | Some _ =>
          let f := {| fileId := i; fileName := name; modifiedTime := clock σ |} in
          (Ok i,
           set_drive ((λ g, if has_id i g then (f, Envelope content) else g)
                        <$> drive σ) (nextFileId σ) σ)
      | None => (ErrorStatus 404, σ)
      end
  | DeleteFile i =>
      match stored i σ with
      | Some _ =>
          (Ok tt,
           set_drive (List.filter (λ g, negb (has_id i g)) (drive σ))
                     (nextFileId σ) σ)
      | None => (ErrorStatus 404, σ)
      end
  end.

(** [fetch] with a bearer token.  Past the end of the forecast the
    device is offline. *)
Definition fetch {X : Type} (token : string) (req : Request X) (σ : State)
  : Reply X * State :=
  match network σ with
  | [] => (NetworkFailure, depart (Sent token req) 0 [] σ)
  | (w, dt) :: rest =>
      let σ' := depart (Sent token req) dt rest σ in
      match w with
      | Down => (NetworkFailure, σ')
      | Refuses code => (ErrorStatus code, σ')
      | Up =>
          if bool_decide (token ∈ validTokens σ) then serve req σ'
          else (ErrorStatus 401, σ')
      end
  end.

(** ** Programs *)

Section Free.
Context {Op : Type → Type}.

(** A program returns, throws, or performs an operation and goes on
    with its answer. *)
Inductive Proc (A : Type) : Type :=
| Ret (a : A)
| Throw (e : Error)
| Vis {X : Type} (op : Op X) (k : X → Proc A).
Arguments Ret {A} a.
Arguments Throw {A} e.
Arguments Vis {A X} op k.

Fixpoint bind {A B : Type} (m : Proc A) (f : A → Proc B) : Proc B :=
  match m with
  | Ret a => f a
  | Throw e => Throw e
  | Vis op k => Vis op (λ x, bind (k x) f)
  end.

(** [try { p } catch (e) { h e }]. *)
Fixpoint try_catch {A : Type} (p : Proc A) (h : Error → Proc A) : Proc A :=
  match p with
  | Ret a => Ret a
  | Throw e => h e
  | Vis op k => Vis op (λ x, try_catch (k x) h)
  end.

(** [try { p } finally { f }], for an [f] that does not throw. *)
Definition try_finally {A : Type} (p : Proc A) (f : Proc unit) : Proc A :=
  bind (try_catch (bind p (λ a, Ret (inr a))) (λ e, Ret (inl e)))
       (λ r, bind f (λ _, match r with inl e => Throw e | inr a => Ret a end)).

(** A pure computation inside a program. *)
Definition exc {A : Type} (x : Exc A) : Proc A :=
  match x with
  | inl e => Throw e
  | inr a => Ret a
  end.

Definition call {X : Type} (op : Op X) : Proc X := Vis op Ret.
End Free.
Arguments Proc : clear implicits.
Arguments Ret {Op A} a.
Arguments Throw {Op A} e.
Arguments Vis {Op A X} op k.

#[export] Instance proc_ret {Op} : MRet (Proc Op) := λ A a, Ret a.
#[export] Instance proc_bind {Op} : MBind (Proc Op) := λ A B f m, bind m f.

(** The effects of the sync units. *)
Inductive UOp : Type → Type :=
(** synchronous: fields of the manager, built-ins *)
| ThisAccessToken : UOp (option string)
| SetThisAccessToken (t : option string) : UOp unit
| ThisRefreshTokenFn : UOp bool
| NewDate : UOp Z
| MathRandom : UOp string
(** awaited: the refresh callback *)
| CallRefreshTokenFn : UOp (option string)
(** awaited: local stores *)
| GetSetting (key : string) : UOp (option json)
| SetSetting (key : string) (v : json) : UOp unit
| GetAllSettings : UOp (gmap string json)
| LoadNotesFromDB : UOp json
| SaveNotesToDB (v : json) : UOp unit
| LoadTasksFromDB : UOp json
| SaveTasksToDB (v : json) : UOp unit
| LoadFolders : UOp json
| SaveFolders (v : json) : UOp unit
| GetActivities : UOp json
(** awaited: the network *)
| Fetch {X : Type} (token : string) (req : Request X) : UOp (Reply X).

(** The operations at which an [async] function is suspended: those
    it awaits from outside. *)
Definition awaited {X : Type} (op : UOp X) : bool :=
  match op with
  | ThisAccessToken | SetThisAccessToken _ | ThisRefreshTokenFn
  | NewDate | MathRandom => false
  | _ => true
  end.

(** How a settled promise shows in [Promise.allSettled]. *)
Inductive Settled : Type :=
| Fulfilled (value : bool)
| Rejected (reason : Error).

(** The effects of the orchestrating methods: those of the units, the
    lock flag, the fan-out, the completion event. *)
Inductive JOp : Type → Type :=
| Unit {X : Type} (op : UOp X) : JOp X
| ThisSyncInProgress : JOp bool
| SetThisSyncInProgress (b : bool) : JOp unit
| AllSettled (ps : list (Proc UOp bool)) : JOp (list Settled)
| DispatchEvent (detail : SyncReport) : JOp unit.

(** A unit program seen as part of an orchestrating method. *)
Fixpoint lift {A : Type} (p : Proc UOp A) : Proc JOp A :=
  match p with
  | Ret a => Ret a
  | Throw e => Throw e
  | Vis op k => Vis (Unit op) (λ x, lift (k x))
  end.

(** ** Executing programs *)

(** Modelled from the spec: the modules [settingsStorage],
    [noteStorage], [taskStorage], [folderStorage] and [activityLogger]
    are not part of the sources at hand.  Following the interface
    [load() -> T; save(T) -> void] they are stores that return what was
    saved last; the activity log is the setting ['userActivityLog'], as
    the source's own comment says where it saves the merged log. *)
Definition perform {X : Type} (op : UOp X) (σ : State) : X * State :=
  match op in UOp X return X * State with
  | ThisAccessToken => (accessToken σ, σ)
  | SetThisAccessToken t => (tt, set_accessToken t σ)
  | ThisRefreshTokenFn => (bool_decide (is_Some (refreshTokenFn σ)), σ)
  | NewDate => (clock σ, σ)
  | MathRandom => (random σ, σ)
  | CallRefreshTokenFn => (default None (refreshTokenFn σ), σ)
  | GetSetting key => (settings σ !! key, σ)
  | SetSetting key v => (tt, set_settings (<[key := v]> (settings σ)) σ)
  | GetAllSettings => (settings σ, σ)
  | LoadNotesFromDB => (notesDB σ, σ)
  | SaveNotesToDB v => (tt, set_notesDB v σ)
  | LoadTasksFromDB => (tasksDB σ, σ)
  | SaveTasksToDB v => (tt, set_tasksDB v σ)
  | LoadFolders => (foldersDB σ, σ)
  | SaveFolders v => (tt, set_foldersDB v σ)
  | GetActivities => (default (JArr []) (settings σ !! "userActivityLog"), σ)
  | Fetch token req => fetch token req σ
  end.

(** How a call ended. *)
Inductive Result (A : Type) : Type :=
| Returned (a : A)
| Threw (e : Error).
Arguments Returned {A} a.
Arguments Threw {A} e.

Definition settle (r : Result bool) : Settled :=
  match r with
  | Returned b => Fulfilled b
  | Threw e => Rejected e
  end.

Section Interp.
Context {Op : Type → Type}.
Variable handler : ∀ X, Op X → State → X * State.

Fixpoint interp {A : Type} (p : Proc Op A) (σ : State) : Result A * State :=
  match p with
  | Ret a => (Returned a, σ)
  | Throw e => (Threw e, σ)
  | Vis op k => let '(x, σ') := handler _ op σ in interp (k x) σ'
  end.
End Interp.

(** Running a unit from its call to its end, nothing else in between. *)
Definition run {A : Type} (p : Proc UOp A) (σ : State) : Result A * State :=
  interp (@perform) p σ.

(** The promises of a fan-out, each run to its end in turn: one of the
    schedules of the event loop. *)
Fixpoint run_all (ps : list (Proc UOp bool)) (σ : State)
  : list Settled * State :=
  match ps with
  | [] => ([], σ)
  | p :: rest =>
      let '(r, σ1) := run p σ in
      let '(rs, σ2) := run_all rest σ1 in
      (settle r :: rs, σ2)
  end.

Definition perform_job {X : Type} (op : JOp X) (σ : State) : X * State :=
  match op in JOp X return X * State with
  | Unit op => perform op σ
  | ThisSyncInProgress => (syncInProgress σ, σ)
  | SetThisSyncInProgress b => (tt, set_syncInProgress b σ)
  | AllSettled ps => run_all ps σ
  | DispatchEvent detail => (tt, add_event detail σ)
  end.

Definition run_job {A : Type} (p : Proc JOp A) (σ : State)
  : Result A * State :=
  interp (@perform_job) p σ.

(** ** Pure computations that may throw *)

Definition bindE {A B : Type} (x : Exc A) (f : A → Exc B) : Exc B :=
  match x with
  | inl e => inl e
  | inr a => f a
  end.

(** [xs.map(f)] for an [f] that may throw. *)
Fixpoint mapE {A B : Type} (f : A → Exc B) (xs : list A) : Exc (list B) :=
  match xs with
  | [] => inr []
  | x :: rest => bindE (f x) (λ y, bindE (mapE f rest) (λ ys, inr (y :: ys)))
  end.

(** [xs.reduce(f, acc)] for an [f] that may throw. *)
Fixpoint reduceE {A B : Type} (f : B → A → Exc B) (xs : list A) (acc : B)
  : Exc B :=
  match xs with
  | [] => inr acc
  | x :: rest => bindE (f acc x) (reduceE f rest)
  end.

(** A token that passes [if (token)]. *)
Definition nonempty (t : option string) : option string :=
  match t with
  | Some EmptyString => None
  | _ => t
  end.

(** File names in the appDataFolder. *)
Module SYNC_FILES.
Definition notes : string := "nota_notes.json".
Definition tasks : string := "nota_tasks.json".
Definition folders : string := "nota_folders.json".
Definition sections : string := "nota_sections.json".
Definition settings : string := "nota_settings.json".
Definition activity : string := "nota_activity.json".
Definition media : string := "nota_media_index.json".
(** [Object.values(SYNC_FILES)]. *)
Definition values : list string :=
  [notes; tasks; folders; sections; settings; activity; media].
End SYNC_FILES.

(** The argument of [instantSync] ([settings_] is ['settings']). *)
Inductive DataType : Type :=
| notes | tasks | folders | sections | settings_ | activity | media.

(** The [types] array of [syncAll]. *)
Definition types : list string :=
  ["notes"; "tasks"; "folders"; "sections"; "settings"; "activity"; "media"].

Definition type_name (d : DataType) : string :=
  match d with
  | notes => "notes"
  | tasks => "tasks"
  | folders => "folders"
  | sections => "sections"
  | settings_ => "settings"
  | activity => "activity"
  | media => "media"
  end.

(** ** The adapter *)

(** Modelled from the spec: [getSetting(key, defaultValue)] of the
    settings storage yields the stored value, or the default when the
    key is absent. *)
Definition getSetting (key : string) (defaultValue : json) : Proc UOp json :=
  v ← call (GetSetting key);
  mret (default defaultValue v).

Definition setSetting (key : string) (v : json) : Proc UOp unit :=
  call (SetSetting key v).

(** Generate unique device ID. *)
Definition getDeviceId : Proc UOp json :=
  deviceId ← getSetting "device_id" (JStr "");
  if truthy deviceId then mret deviceId
  else
    now ← call NewDate;
    rnd ← call MathRandom;
    let deviceId := JStr ("device_" +:+ pretty now +:+ "_" +:+ rnd) in
    setSetting "device_id" deviceId;;
    mret deviceId.

(** Make authenticated request to Google Drive API. *)
Definition driveRequest {X : Type} (accessToken : string) (req : Request X)
  : Proc UOp (Reply X) :=
  response ← call (Fetch accessToken req);
  match response with
  | NetworkFailure => Throw NetworkError
  | ErrorStatus code =>
      if code =? 401 then Throw UNAUTHORIZED else mret response
  | Ok _ => mret response
  end.

(** Find a file in appDataFolder by name: [data.files?.[0] || null]. *)
Definition findFile (accessToken : string) (name : string)
  : Proc UOp (option DriveFile) :=
  try_catch
    (response ← driveRequest accessToken (ListFiles name);
     match response with
     | Ok files => mret (head files)
     | _ => mret None
     end)
    (λ _, mret None).

(** Read file content from Google Drive.  The result is only ever
    tested with [if (remoteData)], so a falsy document is [None] like
    [null]; [response.json()] rejects on text that is not JSON, and
    every other document is returned as it is. *)
Definition readFile (accessToken : string) (file : FileId)
  : Proc UOp (option Document) :=
  try_catch
    (response ← driveRequest accessToken (GetMedia file);
     match response with
     | Ok Garbage => Throw SyntaxError
     | Ok Falsy => mret None
     | Ok (Envelope e) => mret (Some (Shaped e))
     | Ok NoMetadata => mret (Some Unshaped)
     | _ => mret None
     end)
    (λ _, mret None).

(** Create or update a file in appDataFolder: [PATCH] on the existing
    id when there is one, [POST] otherwise. *)
Definition writeFile (accessToken : string) (name : string)
  (content : SyncableData) (existingFileId : option FileId)
  : Proc UOp (option FileId) :=
  try_catch
    (response ← driveRequest accessToken
                  (match existingFileId with
                   | Some i => UpdateFile i name content
                   | None => CreateFile name content
                   end);
     match response with
     | Ok i => mret (Some i)
     | _ => mret None
     end)
    (λ _, mret None).

(** Delete a file from Google Drive. *)
Definition deleteFile (accessToken : string) (file : FileId) : Proc UOp bool :=
  try_catch
    (response ← driveRequest accessToken (DeleteFile file);
     match response with
     | Ok _ => mret true
     | ErrorStatus code => mret (code =? 204)
     | NetworkFailure => mret false
     end)
    (λ _, mret false).

(** Get local data with metadata. *)
Definition getLocalDataWithMetadata (key : string) (getData : Proc UOp json)
  : Proc UOp SyncableData :=
  d ← getData;
  lastSyncTime ← getSetting ("sync_" +:+ key +:+ "_time") (JTime 0);
  deviceId ← getDeviceId;
  mret {| data := d;
          metadata := {| lastSyncTime := lastSyncTime; deviceId := deviceId;
                         version := JNum 1 |} |}.

(** The envelope every upload builds:
    [{ data, metadata: { lastSyncTime: new Date().toISOString(),
       deviceId: await getDeviceId(), version: 1 } }]. *)
Definition syncData (d : json) : Proc UOp SyncableData :=
  now ← call NewDate;
  deviceId ← getDeviceId;
  mret {| data := d;
          metadata := {| lastSyncTime := JTime now; deviceId := deviceId;
                         version := JNum 1 |} |}.

(** [private async ensureValidToken()]. *)
Definition ensureValidToken : Proc UOp (option string) :=
  accessToken ← call ThisAccessToken;
  match nonempty accessToken with
  | None => mret None
  | Some bearer =>
      try_catch
        (response ← call (Fetch bearer About);
         match response with
         | NetworkFailure => Throw NetworkError
         | Ok _ => call ThisAccessToken
         | ErrorStatus code =>
             refreshTokenFn ← call ThisRefreshTokenFn;
             if (code =? 401) && refreshTokenFn then
               newToken ← call CallRefreshTokenFn;
               match nonempty newToken with
               | Some t => call (SetThisAccessToken (Some t));; mret (Some t)
               | None => mret None
               end
             else mret None
         end)
        (λ _, mret None)
  end.

(** The settings that are synced: [!key.startsWith('sync_') &&
    !key.startsWith('device_') && !key.startsWith('google_')]. *)
Definition syncable (key : string) : bool :=
  negb (String.prefix "sync_" key) && negb (String.prefix "device_" key)
  && negb (String.prefix "google_" key).

(** [Object.fromEntries(Object.entries(allSettings).filter(…))]. *)
Definition syncableSettings (allSettings : gmap string json) : json :=
  JObj (List.filter (λ kv, syncable (fst kv)) (map_to_list allSettings)).

(** [acc.find(e => e.id === entry.id)]. *)
Fixpoint acc_find (acc : list json) (entry : json) : Exc (option json) :=
  match acc with
  | [] => inr None
  | e :: rest =>
      bindE (prop e "id") (λ a,
      bindE (prop entry "id") (λ b,
      if strict_eq a b then inr (Some e) else acc_find rest entry))
  end.

(** The reducer of the activity merge: push the entry unless an entry
    with its id was found. *)
Definition merge_step (acc : list json) (entry : json) : Exc (list json) :=
  bindE (acc_find acc entry) (λ found,
  if negb (from_option truthy false found) then inr (acc ++ [entry])
  else inr acc).

(** [all.reduce(…, [])]. *)
Definition mergedLog (all : list json) : Exc (list json) :=
  reduceE merge_step all [].

(** ** The metadata projection of the notes store *)

Module NotesContext.

(** The fields of [Note] that the projection reads.  A Date is its
    instant; an optional field is an [option]. *)
Module Note.
Record t : Type := {
  id : string;
  type : string;
  title : string;
  color : option string;
  folderId : option string;
  isPinned : option bool;
  isFavorite : option bool;
  pinnedOrder : option Z;
  isArchived : option bool;
  archivedAt : option Z;
  isDeleted : option bool;
  deletedAt : option Z;
  isHidden : option bool;
  isProtected : option bool;
  metaDescription : option string;
  reminderEnabled : option bool;
  reminderTime : option Z;
  createdAt : Z;
  updatedAt : Z;
  content : string
}.
End Note.

(** [interface NoteMeta]: lightweight note metadata. *)
Module NoteMeta.
Record t : Type := {
  id : string;
  type : string;
  title : string;
  color : option string;
  folderId : option string;
  isPinned : option bool;
  isFavorite : option bool;
  pinnedOrder : option Z;
  isArchived : option bool;
  archivedAt : option Z;
  isDeleted : option bool;
  deletedAt : option Z;
  isHidden : option bool;
  isProtected : option bool;
  metaDescription : option string;
  reminderEnabled : option bool;
  reminderTime : option Z;
  createdAt : Z;
  updatedAt : Z;
  contentPreview : string;
  hasFullContent : bool
}.
End NoteMeta.

(** Modelled from the spec: the scan behind [getTextPreviewFromHtml]
    (see below).  It yields the text outside tags, up to [budget]
    characters, and stops as soon as the budget is used up. *)
Fixpoint scan (html : string) (inTag : bool) (budget : nat) : string :=
  match html with
  | EmptyString => EmptyString
  | String c rest =>
      match budget with
      | O => EmptyString
      | S b =>
          if inTag then scan rest (negb (Ascii.eqb c ">"%char)) budget
          else if Ascii.eqb c "<"%char then scan rest true budget
          else String c (scan rest false b)
      end
  end.

(** Modelled from the spec: [getTextPreviewFromHtml] of
    [utils/contentPreview] is not part of the sources at hand.  The
    spec calls its result a bounded-length content preview, and the
    caller's comment an early-exit extractor of the first characters:
    the text of the markup, cut at [maxLength]. *)
Definition getTextPreviewFromHtml (html : string) (maxLength : nat) : string :=
  scan html false maxLength.

(** Extract metadata from full note. *)
Definition extractNoteMeta (note : Note.t) : NoteMeta.t :=
  {| NoteMeta.id := Note.id note;
     NoteMeta.type := Note.type note;
     NoteMeta.title := Note.title note;
     NoteMeta.color := Note.color note;
     NoteMeta.folderId := Note.folderId note;
     NoteMeta.isPinned := Note.isPinned note;
     NoteMeta.isFavorite := Note.isFavorite note;
     NoteMeta.pinnedOrder := Note.pinnedOrder note;
     NoteMeta.isArchived := Note.isArchived note;
     NoteMeta.archivedAt := Note.archivedAt note;
     NoteMeta.isDeleted := Note.isDeleted note;
     NoteMeta.deletedAt := Note.deletedAt note;
     NoteMeta.isHidden := Note.isHidden note;
     NoteMeta.isProtected := Note.isProtected note;
     NoteMeta.metaDescription := Note.metaDescription note;
     NoteMeta.reminderEnabled := Note.reminderEnabled note;
     NoteMeta.reminderTime := Note.reminderTime note;
     NoteMeta.createdAt := Note.createdAt note;
     NoteMeta.updatedAt := Note.updatedAt note;
     NoteMeta.contentPreview := getTextPreviewFromHtml (Note.content note) 200;
     NoteMeta.hasFullContent := true |}.

(** [notes.map(extractNoteMeta)], the value the memo computes. *)
Definition notesMeta (notes : list Note.t) : list NoteMeta.t :=
  extractNoteMeta <$> notes.

(** The scalar and flag fields of a projection equal those of the
    note it was computed from. *)
Definition same_fields (note : Note.t) (meta : NoteMeta.t) : Prop :=
  NoteMeta.id meta = Note.id note
  ∧ NoteMeta.type meta = Note.type note
  ∧ NoteMeta.title meta = Note.title note
  ∧ NoteMeta.color meta = Note.color note
  ∧ NoteMeta.folderId meta = Note.folderId note
  ∧ NoteMeta.isPinned meta = Note.isPinned note
  ∧ NoteMeta.isFavorite meta = Note.isFavorite note
  ∧ NoteMeta.pinnedOrder meta = Note.pinnedOrder note
  ∧ NoteMeta.isArchived meta = Note.isArchived note
  ∧ NoteMeta.archivedAt meta = Note.archivedAt note
  ∧ NoteMeta.isDeleted meta = Note.isDeleted note
  ∧ NoteMeta.deletedAt meta = Note.deletedAt note
  ∧ NoteMeta.isHidden meta = Note.isHidden note
  ∧ NoteMeta.isProtected meta = Note.isProtected note
  ∧ NoteMeta.metaDescription meta = Note.metaDescription note
  ∧ NoteMeta.reminderEnabled meta = Note.reminderEnabled note
  ∧ NoteMeta.reminderTime meta = Note.reminderTime note
  ∧ NoteMeta.createdAt meta = Note.createdAt note
  ∧ NoteMeta.updatedAt meta = Note.updatedAt note.

End NotesContext.


(** ** The notes provider: the updaters of the [notes] state

    [saveNote], [deleteNote], [updateNote] and [bulkUpdateNotes] each
    pass an updater [prev => ...] to [setNotes]; [getNoteById] reads
    the state.  These are the functions below, on the fields of [Note]
    of [NotesContext.Note.t].  The writes to the notes database that
    [saveNote] and [deleteNote] start afterwards are not part of
    them. *)
Module NotesProvider.
Import NotesContext.

(** [xs.findIndex(p)]: the index of the first element that passes, or
    -1. *)
Fixpoint findIndex_from {A : Type} (p : A → bool) (xs : list A) (i : Z) : Z :=
  match xs with
  | [] => -1
  | x :: rest => if p x then i else findIndex_from p rest (i + 1)
  end.

Definition findIndex {A : Type} (p : A → bool) (xs : list A) : Z :=
  findIndex_from p xs 0.

(** The updater of [saveNote]. *)
Definition saveNote (note : Note.t) (prev : list Note.t) : list Note.t :=
  let existing := findIndex (λ n, String.eqb (Note.id n) (Note.id note)) prev in
  if 0 <=? existing
  then <[Z.to_nat existing := note]> prev
  else note :: prev.

(** The updater of [deleteNote]. *)
Definition deleteNote (noteId : string) (prev : list Note.t) : list Note.t :=
  List.filter (λ n, negb (String.eqb (Note.id n) noteId)) prev.

(** Get full note by ID. *)
Definition getNoteById (noteId : string) (notes : list Note.t)
  : option Note.t :=
  List.find (λ n, String.eqb (Note.id n) noteId) notes.

(** [Partial<Note>]: each field may be missing.  A field that is
    optional in [Note] may also be present with the value
    [undefined]. *)
Module Updates.
Record t : Type := {
  id : option string;
  type : option string;
  title : option string;
  color : option (option string);
  folderId : option (option string);
  isPinned : option (option bool);
  isFavorite : option (option bool);
  pinnedOrder : option (option Z);
  isArchived : option (option bool);
  archivedAt : option (option Z);
  isDeleted : option (option bool);
  deletedAt : option (option Z);
  isHidden : option (option bool);
  isProtected : option (option bool);
  metaDescription : option (option string);
  reminderEnabled : option (option bool);
  reminderTime : option (option Z);
  createdAt : option Z;
  updatedAt : option Z;
  content : option string
}.
End Updates.

(** [{ ...n, ...updates, updatedAt: now }]. *)
Definition spread (n : Note.t) (updates : Updates.t) (now : Z) : Note.t :=
  {| Note.id := default (Note.id n) (Updates.id updates);
     Note.type := default (Note.type n) (Updates.type updates);
     Note.title := default (Note.title n) (Updates.title updates);
     Note.color := default (Note.color n) (Updates.color updates);
     Note.folderId := default (Note.folderId n) (Updates.folderId updates);
     Note.isPinned := default (Note.isPinned n) (Updates.isPinned updates);
     Note.isFavorite := default (Note.isFavorite n) (Updates.isFavorite updates);
     Note.pinnedOrder :=
       default (Note.pinnedOrder n) (Updates.pinnedOrder updates);
     Note.isArchived := default (Note.isArchived n) (Updates.isArchived updates);
     Note.archivedAt := default (Note.archivedAt n) (Updates.archivedAt updates);
     Note.isDeleted := default (Note.isDeleted n) (Updates.isDeleted updates);
     Note.deletedAt := default (Note.deletedAt n) (Updates.deletedAt updates);
     Note.isHidden := default (Note.isHidden n) (Updates.isHidden updates);
     Note.isProtected :=
       default (Note.isProtected n) (Updates.isProtected updates);
     Note.metaDescription :=
       default (Note.metaDescription n) (Updates.metaDescription updates);
     Note.reminderEnabled :=
       default (Note.reminderEnabled n) (Updates.reminderEnabled updates);
     Note.reminderTime :=
       default (Note.reminderTime n) (Updates.reminderTime updates);
     Note.createdAt := default (Note.createdAt n) (Updates.createdAt updates);
     Note.updatedAt := now;
     Note.content := default (Note.content n) (Updates.content updates) |}.

(** [prev.map(n => hit(n) ? { ...n, ...updates, updatedAt: new Date() }
    : n)], with [clock i] the reading of [new Date()] when the element
    at index [i] is mapped. *)
Fixpoint update_from (hit : Note.t → bool) (updates : Updates.t)
  (clock : nat → Z) (i : nat) (prev : list Note.t) : list Note.t :=
  match prev with
  | [] => []
  | n :: rest =>
      (if hit n then spread n updates (clock i) else n)
      :: update_from hit updates clock (S i) rest
  end.

(** The updater of [updateNote]. *)
Definition updateNote (noteId : string) (updates : Updates.t)
  (clock : nat → Z) (prev : list Note.t) : list Note.t :=
  update_from (λ n, String.eqb (Note.id n) noteId) updates clock 0 prev.

(** The updater of [bulkUpdateNotes]; [noteIds.includes(n.id)]. *)
Definition bulkUpdateNotes (noteIds : list string) (updates : Updates.t)
  (clock : nat → Z) (prev : list Note.t) : list Note.t :=
  update_from (λ n, existsb (String.eqb (Note.id n)) noteIds) updates clock 0
              prev.

(** The ids of the notes, in order. *)
Definition ids (notes : list Note.t) : list string := Note.id <$> notes.

End NotesProvider.
(** ** The sync manager *)

Section Engine.

(** JavaScript built-ins whose results the engine passes on without
    looking at them.  [Date_parse v] is [new Date(v).getTime()] for a
    value that is not an ISO timestamp of the model ([None] is [NaN]);
    [toISOString t] is the text of the timestamp [JTime t]. *)
Variable Date_parse : json → jsnum.
Variable toISOString : Z → string.
Variable JSON_stringify : json → string.
Variable JSON_parse : json → Exc json.

(** [new Date(v).getTime()]. *)
Definition Date_getTime (v : json) : jsnum :=
  match v with
  | JTime t => Some t
  | _ => Date_parse v
  end.

(** [new Date(v)] for a property [v] ([None] is [undefined]).  A Date
    is represented by its JSON form: the ISO timestamp, or [null] when
    the date is invalid. *)
Definition Date_new (v : option json) : json :=
  match v with
  | None => JNull
  | Some x =>
      match Date_getTime x with
      | Some t => JTime t
      | None => JNull
      end
  end.

(** The own properties [{ ...v }] copies. *)
Definition spread (v : json) : list (string * json) :=
  match v with
  | JObj fs => fs
  | JArr xs => indexed xs
  | JStr s => indexed (chars s)
  | JTime t => indexed (chars (toISOString t))
  | _ => []
  end.

(** [Object.entries(v)]. *)
Definition entries (v : json) : Exc (list (string * json)) :=
  match v with
  | JNull => inl TypeError
  | _ => inr (spread v)
  end.

(** The elements [[...v]] copies: arrays and strings are iterable. *)
Definition iterate (v : json) : Exc (list json) :=
  match v with
  | JArr xs => inr xs
  | JStr s => inr (chars s)
  | JTime t => inr (chars (toISOString t))
  | _ => inl TypeError
  end.

(** Conflict resolution: newer timestamp wins. *)
Definition resolveConflict (l r : SyncableData) : Resolution :=
  let localTime := Date_getTime (lastSyncTime (metadata l)) in
  let remoteTime := Date_getTime (lastSyncTime (metadata r)) in
  if js_gt localTime remoteTime
  then {| winner := local; winner_data := data l |}
  else {| winner := remote; winner_data := data r |}.

(** [resolveConflict(localData, remoteData)] on what [readFile]
    yielded: reading [remote.metadata.lastSyncTime] throws when the
    document has no [metadata]. *)
Definition resolveRemote (l : SyncableData) (r : Document) : Exc Resolution :=
  match r with
  | Shaped e => inr (resolveConflict l e)
  | Unshaped => inl TypeError
  end.

(** [r => ({ ...r, timestamp: new Date(r.timestamp) })]. *)
Definition restoreRecording (r : json) : Exc json :=
  bindE (prop r "timestamp") (λ timestamp,
  inr (JObj (assign_prop "timestamp" (Date_new timestamp) (spread r)))).

(** [note => ({ ...note, createdAt: …, updatedAt: …,
     voiceRecordings: note.voiceRecordings?.map(…) || [] })]. *)
Definition restoreNote (note : json) : Exc json :=
  bindE (prop note "createdAt") (λ createdAt,
  bindE (prop note "updatedAt") (λ updatedAt,
  bindE (prop note "voiceRecordings") (λ voiceRecordings,
  bindE (match voiceRecordings with
         | None | Some JNull => inr (JArr [])
         | Some (JArr rs) => bindE (mapE restoreRecording rs) (λ l, inr (JArr l))
         | Some _ => inl TypeError
         end) (λ recordings,
  inr (JObj (assign_prop "voiceRecordings" recordings
            (assign_prop "updatedAt" (Date_new updatedAt)
            (assign_prop "createdAt" (Date_new createdAt) (spread note))))))))).

(** [data.map(note => …)]. *)
Definition restoredNotes (d : json) : Exc json :=
  match d with
  | JArr ns => bindE (mapE restoreNote ns) (λ l, inr (JArr l))
  | _ => inl TypeError
  end.

(** Sync notes. *)
Definition syncNotes : Proc UOp bool :=
  token ← ensureValidToken;
  match nonempty token with
  | None => mret false
  | Some token =>
      try_catch
        (localNotes ← call LoadNotesFromDB;
         localData ← getLocalDataWithMetadata "notes" (mret localNotes);
         remoteFile ← findFile token SYNC_FILES.notes;
         match remoteFile with
         | Some remoteFile =>
             remoteData ← readFile token (fileId remoteFile);
             match remoteData with
             | Some remoteData =>
                 r ← exc (resolveRemote localData remoteData);
                 match winner r with
                 | remote =>
                     restored ← exc (restoredNotes (winner_data r));
                     call (SaveNotesToDB restored)
                 | local =>
                     syncData ← syncData localNotes;
                     writeFile token SYNC_FILES.notes syncData
                       (Some (fileId remoteFile));;
                     mret tt
                 end
             | None => mret tt
             end
         | None =>
             syncData ← syncData localNotes;
             writeFile token SYNC_FILES.notes syncData None;;
             mret tt
         end;;
         now ← call NewDate;
         setSetting "sync_notes_time" (JTime now);;
         mret true)
        (λ _, mret false)
  end.

(** Sync tasks. *)
Definition syncTasks : Proc UOp bool :=
  token ← ensureValidToken;
  match nonempty token with
  | None => mret false
  | Some token =>
      try_catch
        (localTasks ← call LoadTasksFromDB;
         localData ← getLocalDataWithMetadata "tasks" (mret localTasks);
         remoteFile ← findFile token SYNC_FILES.tasks;
         match remoteFile with
         | Some remoteFile =>
             remoteData ← readFile token (fileId remoteFile);
             match remoteData with
             | Some remoteData =>
                 r ← exc (resolveRemote localData remoteData);
                 match winner r with
                 | remote => call (SaveTasksToDB (winner_data r))
                 | local =>
                     syncData ← syncData localTasks;
                     writeFile token SYNC_FILES.tasks syncData
                       (Some (fileId remoteFile));;
                     mret tt
                 end
             | None => mret tt
             end
         | None =>
             syncData ← syncData localTasks;
             writeFile token SYNC_FILES.tasks syncData None;;
             mret tt
         end;;
         now ← call NewDate;
         setSetting "sync_tasks_time" (JTime now);;
         mret true)
        (λ _, mret false)
  end.

(** Sync folders. *)
Definition syncFolders : Proc UOp bool :=
  token ← ensureValidToken;
  match nonempty token with
  | None => mret false
  | Some token =>
      try_catch
        (localFolders ← call LoadFolders;
         localData ← getLocalDataWithMetadata "folders" (mret localFolders);
         remoteFile ← findFile token SYNC_FILES.folders;
         match remoteFile with
         | Some remoteFile =>
             remoteData ← readFile token (fileId remoteFile);
             match remoteData with
             | Some remoteData =>
                 r ← exc (resolveRemote localData remoteData);
                 match winner r with
                 | remote => call (SaveFolders (winner_data r))
                 | local =>
                     syncData ← syncData localFolders;
                     writeFile token SYNC_FILES.folders syncData
                       (Some (fileId remoteFile));;
                     mret tt
                 end
             | None => mret tt
             end
         | None =>
             syncData ← syncData localFolders;
             writeFile token SYNC_FILES.folders syncData None;;
             mret tt
         end;;
         now ← call NewDate;
         setSetting "sync_folders_time" (JTime now);;
         mret true)
        (λ _, mret false)
  end.

(** Sync sections (task sections). *)
Definition syncSections : Proc UOp bool :=
  token ← ensureValidToken;
  match nonempty token with
  | None => mret false
  | Some token =>
      try_catch
        (sections ← getSetting "todo_sections" (JArr []);
         localData ← getLocalDataWithMetadata "sections" (mret sections);
         remoteFile ← findFile token SYNC_FILES.sections;
         match remoteFile with
         | Some remoteFile =>
             remoteData ← readFile token (fileId remoteFile);
             match remoteData with
             | Some remoteData =>
                 r ← exc (resolveRemote localData remoteData);
                 match winner r with
                 | remote => setSetting "todo_sections" (winner_data r)
                 | local =>
                     syncData ← syncData sections;
                     writeFile token SYNC_FILES.sections syncData
                       (Some (fileId remoteFile));;
                     mret tt
                 end
             | None => mret tt
             end
         | None =>
             syncData ← syncData sections;
             writeFile token SYNC_FILES.sections syncData None;;
             mret tt
         end;;
         now ← call NewDate;
         setSetting "sync_sections_time" (JTime now);;
         mret true)
        (λ _, mret false)
  end.

(** [for (const [key, value] of es) await setSetting(key, value)]. *)
Fixpoint restoreEach (es : list (string * json)) : Proc UOp unit :=
  match es with
  | [] => mret tt
  | (key, value) :: rest => setSetting key value;; restoreEach rest
  end.

(** Sync settings. *)
Definition syncSettings : Proc UOp bool :=
  token ← ensureValidToken;
  match nonempty token with
  | None => mret false
  | Some token =>
      try_catch
        (allSettings ← call GetAllSettings;
         let syncableSettings := syncableSettings allSettings in
         localData ← getLocalDataWithMetadata "settings" (mret syncableSettings);
         remoteFile ← findFile token SYNC_FILES.settings;
         match remoteFile with
         | Some remoteFile =>
             remoteData ← readFile token (fileId remoteFile);
             match remoteData with
             | Some remoteData =>
                 r ← exc (resolveRemote localData remoteData);
                 match winner r with
                 | remote =>
                     es ← exc (entries (winner_data r));
                     restoreEach es
                 | local =>
                     syncData ← syncData syncableSettings;
                     writeFile token SYNC_FILES.settings syncData
                       (Some (fileId remoteFile));;
                     mret tt
                 end
             | None => mret tt
             end
         | None =>
             syncData ← syncData syncableSettings;
             writeFile token SYNC_FILES.settings syncData None;;
             mret tt
         end;;
         now ← call NewDate;
         setSetting "sync_settings_time" (JTime now);;
         mret true)
        (λ _, mret false)
  end.

(** [[...data, ...activityLog].reduce(…, [])]. *)
Definition mergeActivity (d activityLog : json) : Exc json :=
  bindE (iterate d) (λ remoteEntries,
  bindE (iterate activityLog) (λ localEntries,
  bindE (mergedLog (remoteEntries ++ localEntries)) (λ l, inr (JArr l)))).

(** Sync activity log. *)
Definition syncActivity : Proc UOp bool :=
  token ← ensureValidToken;
  match nonempty token with
  | None => mret false
  | Some token =>
      try_catch
        (activityLog ← call GetActivities;
         localData ← getLocalDataWithMetadata "activity" (mret activityLog);
         remoteFile ← findFile token SYNC_FILES.activity;
         match remoteFile with
         | Some remoteFile =>
             remoteData ← readFile token (fileId remoteFile);
             match remoteData with
             | Some remoteData =>
                 r ← exc (resolveRemote localData remoteData);
                 match winner r with
                 | remote =>
                     merged ← exc (mergeActivity (winner_data r) activityLog);
                     setSetting "userActivityLog" merged
                 | local =>
                     syncData ← syncData activityLog;
                     writeFile token SYNC_FILES.activity syncData
                       (Some (fileId remoteFile));;
                     mret tt
                 end
             | None => mret tt
             end
         | None =>
             syncData ← syncData activityLog;
             writeFile token SYNC_FILES.activity syncData None;;
             mret tt
         end;;
         now ← call NewDate;
         setSetting "sync_activity_time" (JTime now);;
         mret true)
        (λ _, mret false)
  end.

(** Get local media index from storage. *)
Definition getLocalMediaIndex : Proc UOp json :=
  let empty := JObj [("images", JArr []); ("audio", JArr [])] in
  try_catch
    (indexStr ← getSetting "media_index" (JStr "");
     if truthy indexStr then exc (JSON_parse indexStr) else mret empty)
    (λ _, mret empty).

(** Sync media (images, audio) - stores index and references. *)
Definition syncMedia : Proc UOp bool :=
  token ← ensureValidToken;
  match nonempty token with
  | None => mret false
  | Some token =>
      try_catch
        (mediaIndex ← getLocalMediaIndex;
         localData ← getLocalDataWithMetadata "media" (mret mediaIndex);
         remoteFile ← findFile token SYNC_FILES.media;
         match remoteFile with
         | Some remoteFile =>
             remoteData ← readFile token (fileId remoteFile);
             match remoteData with
             | Some remoteData =>
                 r ← exc (resolveRemote localData remoteData);
                 match winner r with
                 | remote =>
                     setSetting "media_index"
                       (JStr (JSON_stringify (winner_data r)))
                 | local =>
                     syncData ← syncData mediaIndex;
                     writeFile token SYNC_FILES.media syncData
                       (Some (fileId remoteFile));;
                     mret tt
                 end
             | None => mret tt
             end
         | None =>
             syncData ← syncData mediaIndex;
             writeFile token SYNC_FILES.media syncData None;;
             mret tt
         end;;
         now ← call NewDate;
         setSetting "sync_media_time" (JTime now);;
         mret true)
        (λ _, mret false)
  end.

(** The seven units in the order [syncAll] launches them. *)
Definition units : list (Proc UOp bool) :=
  [syncNotes; syncTasks; syncFolders; syncSections; syncSettings;
   syncActivity; syncMedia].

(** [result.status === 'rejected' ||
     (result.status === 'fulfilled' && !result.value)]. *)
Definition failed (result : Settled) : bool :=
  match result with
  | Rejected _ => true
  | Fulfilled value => negb value
  end.

(** The [errors] array after [results.forEach(…)]. *)
Definition collectErrors (results : list Settled) : list string :=
  concat (imap (λ index result,
                  if failed result
                  then ["Failed to sync " +:+ default "undefined" (types !! index)]
                  else []) results).

Definition report (errs : list string) : SyncReport :=
  {| success := bool_decide (length errs = 0%nat); errors := errs |}.

(** Full sync of all data. *)
Definition syncAll : Proc JOp SyncReport :=
  syncInProgress ← call ThisSyncInProgress;
  if (syncInProgress : bool)
  then mret {| success := false; errors := ["Sync already in progress"] |}
  else
    call (SetThisSyncInProgress true);;
    try_finally
      (results ← call (AllSettled units);
       let errors := collectErrors results in
       now ← call (Unit NewDate);
       call (Unit (SetSetting "last_full_sync" (JTime now)));;
       call (DispatchEvent (report errors));;
       mret (report errors))
      (call (SetThisSyncInProgress false)).

Definition unit_of (dataType : DataType) : Proc UOp bool :=
  match dataType with
  | notes => syncNotes
  | tasks => syncTasks
  | folders => syncFolders
  | sections => syncSections
  | settings_ => syncSettings
  | activity => syncActivity
  | media => syncMedia
  end.

(** Instant sync - no debounce, syncs immediately. *)
Definition instantSync (dataType : DataType) : Proc JOp bool :=
  accessToken ← call (Unit ThisAccessToken);
  match nonempty accessToken with
  | None => mret false
  | Some _ => lift (unit_of dataType)
  end.

(** Get last sync time: a Date, or [None] for [null]. *)
Definition getLastSyncTime : Proc UOp (option json) :=
  lastSync ← getSetting "last_full_sync" (JStr "");
  mret (if truthy lastSync then Some (Date_new (Some lastSync)) else None).

(** [for (const fileName of names) { … deleteFile … }]. *)
Fixpoint clearEach (token : string) (names : list string) : Proc UOp unit :=
  match names with
  | [] => mret tt
  | name :: rest =>
      file ← findFile token name;
      match file with
      | Some file => deleteFile token (fileId file);; mret tt
      | None => mret tt
      end;;
      clearEach token rest
  end.

(** Clear all synced data from cloud. *)
Definition clearCloudData : Proc UOp bool :=
  token ← ensureValidToken;
  match nonempty token with
  | None => mret false
  | Some token =>
      try_catch (clearEach token SYNC_FILES.values;; mret true)
                (λ _, mret false)
  end.

(** ** Interleaved execution

    The event loop runs one piece of code at a time and switches only
    where a caller is suspended on an awaited operation.  A call first
    runs up to its first suspension ([advance]); each later step gives
    one suspended program the answer it waits for and runs it up to its
    next suspension. *)

(** A unit run until it is suspended or has ended. *)
Fixpoint advance_unit {A : Type} (p : Proc UOp A) (σ : State)
  : Proc UOp A * State :=
  match p with
  | Vis op k =>
      if awaited op then (p, σ)
      else let '(x, σ') := perform op σ in advance_unit (k x) σ'
  | _ => (p, σ)
  end.

(** The units of a fan-out are called one after the other; each runs
    up to its first suspension. *)
Fixpoint start_all (ps : list (Proc UOp bool)) (σ : State)
  : list (Proc UOp bool) * State :=
  match ps with
  | [] => ([], σ)
  | p :: rest =>
      let '(p', σ1) := advance_unit p σ in
      let '(rest', σ2) := start_all rest σ1 in
      (p' :: rest', σ2)
  end.

(** An orchestrating call in flight: at an awaited operation (or
    ended), or waiting in [Promise.allSettled] for its units. *)
Inductive Thread (A : Type) : Type :=
| Running (p : Proc JOp A)
| Joining (children : list (Proc UOp bool)) (k : list Settled → Proc JOp A).
#[global] Arguments Running {A} p.
#[global] Arguments Joining {A} children k.

(** The operations that complete without suspending the caller. *)
Definition immediate {X : Type} (op : JOp X) (σ : State) : option (X * State) :=
  match op in JOp X return option (X * State) with
  | Unit u => if awaited u then None else Some (perform u σ)
  | ThisSyncInProgress => Some (syncInProgress σ, σ)
  | SetThisSyncInProgress b => Some (tt, set_syncInProgress b σ)
  | DispatchEvent detail => Some (tt, add_event detail σ)
  | AllSettled _ => None
  end.

(** Entering a suspension: a fan-out starts its units. *)
Definition suspend {A X : Type} (op : JOp X) (k : X → Proc JOp A) (σ : State)
  : Thread A * State :=
  match op in JOp X return (X → Proc JOp A) → Thread A * State with
  | AllSettled ps =>
      λ k, let '(children, σ') := start_all ps σ in (Joining children k, σ')
  | op => λ k, (Running (Vis op k), σ)
  end k.

Fixpoint advance {A : Type} (p : Proc JOp A) (σ : State) : Thread A * State :=
  match p with
  | Vis op k =>
      match immediate op σ with
      | Some (x, σ') => advance (k x) σ'
      | None => suspend op k σ
      end
  | _ => (Running p, σ)
  end.

(** A suspended unit receives its answer. *)
Definition resume_unit {A : Type} (p : Proc UOp A) (σ : State)
  : option (Proc UOp A * State) :=
  match p with
  | Vis op k => let '(x, σ') := perform op σ in Some (advance_unit (k x) σ')
  | _ => None
  end.

Definition resume {A : Type} (p : Proc JOp A) (σ : State)
  : option (Thread A * State) :=
  match p with
  | Vis op k =>
      match op in JOp X return (X → Proc JOp A) → option (Thread A * State) with
      | Unit u => λ k, let '(x, σ') := perform u σ in Some (advance (k x) σ')
      | _ => λ _, None
      end k
  | _ => None
  end.

(** How an ended unit shows in the fan-out. *)
Definition settled {A : Type} (p : Proc UOp A) : option (Result A) :=
  match p with
  | Ret a => Some (Returned a)
  | Throw e => Some (Threw e)
  | Vis _ _ => None
  end.

(** What a thread can do next: go on itself, let its [j]-th unit go
    on, or leave the fan-out once every unit has settled. *)
Inductive Move : Type :=
| Own
| Child (j : nat)
| Join.

Definition thread_step {A : Type} (m : Move) (t : Thread A) (σ : State)
  : option (Thread A * State) :=
  match m, t with
  | Own, Running p => resume p σ
  | Child j, Joining children k =>
      c ← children !! j;
      '(c', σ') ← resume_unit c σ;
      Some (Joining (<[j := c']> children) k, σ')
  | Join, Joining children k =>
      rs ← mapM settled children;
      Some (advance (k (settle <$> rs)) σ)
  | _, _ => None
  end.

Definition finished {A : Type} (t : Thread A) : bool :=
  match t with
  | Running (Ret _) | Running (Throw _) => true
  | _ => false
  end.

(** The calls in flight on one manager, and the state they share. *)
Record Pool : Type := {
  state : State;
  fulls : list (Thread SyncReport);
  instants : list (Thread bool)
}.

(** What happens next on the event loop. *)
Inductive Event : Type :=
| CallSyncAll
| CallInstantSync (dataType : DataType)
| StepFull (i : nat) (m : Move)
| StepInstant (i : nat) (m : Move).

Definition step (e : Event) (P : Pool) : option Pool :=
  match e with
  | CallSyncAll =>
      let '(t, σ) := advance syncAll (state P) in
      Some {| state := σ; fulls := fulls P ++ [t]; instants := instants P |}
  | CallInstantSync d =>
      let '(t, σ) := advance (instantSync d) (state P) in
      Some {| state := σ; fulls := fulls P; instants := instants P ++ [t] |}
  | StepFull i m =>
      t ← fulls P !! i;
      '(t', σ) ← thread_step m t (state P);
      Some {| state := σ; fulls := <[i := t']> (fulls P);
              instants := instants P |}
  | StepInstant i m =>
      t ← instants P !! i;
      '(t', σ) ← thread_step m t (state P);
      Some {| state := σ; fulls := fulls P;
              instants := <[i := t']> (instants P) |}
  end.

Fixpoint exec (es : list Event) (P : Pool) : option Pool :=
  match es with
  | [] => Some P
  | e :: rest => P' ← step e P; exec rest P'
  end.

(** The blob a suspended unit is about to write. *)
Definition pending_write {A : Type} (p : Proc UOp A) : option string :=
  match p with
  | Vis op _ =>
      match op with
      | Fetch _ (CreateFile name _) => Some name
      | Fetch _ (UpdateFile _ name _) => Some name
      | _ => None
      end
  | _ => None
  end.

(** The same for a unit started through [instantSync]. *)
Definition pending_write_job {A : Type} (t : Thread A) : option string :=
  match t with
  | Running (Vis op _) =>
      match op with
      | Unit (Fetch _ (CreateFile name _)) => Some name
      | Unit (Fetch _ (UpdateFile _ name _)) => Some name
      | _ => None
      end
  | _ => None
  end.

(** The units of a full sync that are suspended on a write of [name]. *)
Definition full_writes (name : string) (t : Thread SyncReport) : bool :=
  match t with
  | Joining children _ =>
      existsb (λ c, bool_decide (pending_write c = Some name)) children
  | Running _ => false
  end.

(** A full sync and an instant sync both have a write of the blob
    [name] in flight. *)
Definition concurrent_writes (name : string) (P : Pool) : bool :=
  existsb (full_writes name) (fulls P)
  && existsb (λ t, bool_decide (pending_write_job t = Some name)) (instants P).

(** ** Notions the properties are stated with *)

(** [a] carries a strictly greater [lastSyncTime] than [b]. *)
Definition newer (a b : SyncableData) : Prop :=
  js_gt (Date_getTime (lastSyncTime (metadata a)))
        (Date_getTime (lastSyncTime (metadata b))) = true.

(** The domains in the order of the [types] array, and those among
    them whose unit failed. *)
Definition domains : list DataType :=
  [notes; tasks; folders; sections; settings_; activity; media].

Definition failures (results : list Settled) : list DataType :=
  fst <$> List.filter (λ dr, failed (snd dr)) (zip domains results).

(** The error list read as the names of the failed domains. *)
Definition errors_name_failed_domains (σ : State) : Prop :=
  ∀ rep σ',
    run_job syncAll σ = (Returned rep, σ') →
    errors rep
    = type_name <$> failures (fst (run_all units (set_syncInProgress true σ))).

(** The answer of [syncAll] when a full sync is in flight. *)
Definition busy_report : SyncReport :=
  {| success := false; errors := ["Sync already in progress"] |}.

(** A call of [instantSync] in flight: a unit, inside the manager. *)
Definition lifted (t : Thread bool) : Prop :=
  ∃ p : Proc UOp bool, t = Running (lift p).

(** A full sync past its fan-out: whatever answer it receives next, it
    ends and has released the lock. *)
Definition releasing (p : Proc JOp SyncReport) : Prop :=
  ∀ σ t' σ',
    resume p σ = Some (t', σ') → finished t' = true ∧ syncInProgress σ' = false.

(** A full sync that holds the lock: it has not ended, and it keeps the
    flag set until the step that ends it. *)
Definition holds_lock (t : Thread SyncReport) : Prop :=
  match t with
  | Running p => finished (Running p) = false ∧ releasing p
  | Joining _ k =>
      ∀ rs σ, ∃ p σ',
        advance (k rs) σ = (Running p, σ')
        ∧ syncInProgress σ' = syncInProgress σ
        ∧ finished (Running p) = false ∧ releasing p
  end.

(** While the first full sync of a pool has not ended, it holds the
    lock, the flag is set, and every later [syncAll] was refused. *)
Definition one_full_sync (P : Pool) : Prop :=
  Forall lifted (instants P)
  ∧ ∃ first rest,
      fulls P = first :: rest
      ∧ (finished first = true
         ∨ (holds_lock first
            ∧ syncInProgress (state P) = true
            ∧ Forall (λ t, t = Running (Ret busy_report)) rest)).

(** Every request a program may ever send satisfies [P], whatever
    answers it receives. *)
Fixpoint sends_only {A : Type} (P : Call → Prop) (p : Proc UOp A) : Prop :=
  match p with
  | Vis op k =>
      match op with
      | Fetch token req => P (Sent token req)
      | _ => True
      end
      ∧ ∀ x, sends_only P (k x)
  | _ => True
  end.

(** Every value a program may return satisfies [Q]. *)
Fixpoint returns {A : Type} (Q : A → Prop) (p : Proc UOp A) : Prop :=
  match p with
  | Ret a => Q a
  | Throw _ => True
  | Vis _ k => ∀ x, returns Q (k x)
  end.

(** The blob name and the envelope an upload carries. *)
Definition uploaded (c : Call) : option (string * SyncableData) :=
  match c with
  | Sent _ (CreateFile name e) => Some (name, e)
  | Sent _ (UpdateFile _ name e) => Some (name, e)
  | Sent _ _ => None
  end.

(** An upload of the settings unit: it goes to the settings blob and
    its payload is an object none of whose keys starts with ['sync_'],
    ['device_'] or ['google_']. *)
Definition settings_upload (c : Call) : Prop :=
  ∀ name e,
    uploaded c = Some (name, e) →
    name = SYNC_FILES.settings
    ∧ ∃ fs,
        data e = JObj fs
        ∧ ∀ key v,
            (key, v) ∈ fs →
            String.prefix "sync_" key = false
            ∧ String.prefix "device_" key = false
            ∧ String.prefix "google_" key = false.

(** A request that uploads nothing. *)
Definition quiet (c : Call) : Prop := uploaded c = None.

(** The device id the unit finds or generates, and the settings after. *)
Definition found_deviceId (σ : State) : json :=
  let stored := default (JStr "") (settings σ !! "device_id") in
  if truthy stored then stored
  else JStr ("device_" +:+ pretty (clock σ) +:+ "_" +:+ random σ).

Definition with_deviceId (σ : State) : State :=
  set_settings
    (if truthy (default (JStr "") (settings σ !! "device_id")) then settings σ
     else <["device_id" := found_deviceId σ]> (settings σ)) σ.

(** The shape the seven units share: where the local payload comes
    from, the domain key, the blob name, and what a remote win does
    with the remote payload and the local one. *)
Definition domain_unit (load : Proc UOp json) (key name : string)
  (restore : json → json → Proc UOp unit) : Proc UOp bool :=
  token ← ensureValidToken;
  match nonempty token with
  | None => mret false
  | Some token =>
      try_catch
        (localPayload ← load;
         localData ← getLocalDataWithMetadata key (mret localPayload);
         remoteFile ← findFile token name;
         match remoteFile with
         | Some remoteFile =>
             remoteData ← readFile token (fileId remoteFile);
             match remoteData with
             | Some remoteData =>
                 r ← exc (resolveRemote localData remoteData);
                 match winner r with
                 | remote => restore (winner_data r) localPayload
                 | local =>
                     syncData ← syncData localPayload;
                     writeFile token name syncData (Some (fileId remoteFile));;
                     mret tt
                 end
             | None => mret tt
             end
         | None =>
             syncData ← syncData localPayload;
             writeFile token name syncData None;;
             mret tt
         end;;
         now ← call NewDate;
         setSetting ("sync_" +:+ key +:+ "_time") (JTime now);;
         mret true)
        (λ _, mret false)
  end.

(** The envelope a unit reads its local side from, and the one it
    uploads, in a given state. *)
Definition local_envelope (key : string) (d : json) (σ : State) : SyncableData :=
  {| data := d;
     metadata :=
       {| lastSyncTime :=
            default (JTime 0) (settings σ !! ("sync_" +:+ key +:+ "_time"));
          deviceId := found_deviceId σ; version := JNum 1 |} |}.

Definition fresh_envelope (d : json) (σ : State) : SyncableData :=
  {| data := d;
     metadata := {| lastSyncTime := JTime (clock σ);
                    deviceId := found_deviceId σ; version := JNum 1 |} |}.

(** The files of a given name, as [findFile] sees them. *)
Definition named (name : string) (σ : State) : list DriveFile :=
  List.filter (λ f, String.eqb (fileName f) name) (fst <$> drive σ).

(** The end of every successful unit: the time is stored under the
    domain's key. *)
Definition stamp (key : string) (σ : State) : State :=
  set_settings (<["sync_" +:+ key +:+ "_time" := JTime (clock σ)]> (settings σ)) σ.


(** The state in which a unit decides, after its token probe, its
    reading of the local side and its look-up of the blob. *)
Definition looked (tok name : string) (d1 d2 : N) (rest : list (Weather * N))
  (σ : State) : State :=
  depart (Sent tok (ListFiles name)) d2 rest
    (with_deviceId (depart (Sent tok About) d1 ((Up, d2) :: rest) σ)).


(** The id of an activity entry ([None] when it has none). *)
Definition entry_id (e : json) : option json :=
  match e with
  | JObj fs => lookup_prop "id" fs
  | _ => None
  end.

(** An id that [===] compares by value. *)
Definition primitive (i : option json) : Prop :=
  match i with
  | Some (JArr _) | Some (JObj _) => False
  | _ => True
  end.

(** An activity entry as the log holds them: an object whose id, if
    any, is a primitive. *)
Definition keyed (e : json) : Prop :=
  (∃ fs, e = JObj fs) ∧ primitive (entry_id e).

(** An entry with a numeric id and nothing else. *)
Definition entry (n : Z) : json := JObj [("id", JNum n)].

(** An entry with the id of [x] is already in [acc]. *)
Definition seen (acc : list json) (x : json) : bool :=
  existsb (λ e, strict_eq (entry_id e) (entry_id x)) acc.


(** ** Notions for the fan-out of a full sync *)

(** The state once the programs [ps] have run to their ends, one after
    the other. *)
Definition after_each (ps : list (Proc UOp bool)) (σ : State) : State :=
  foldl (λ s p, snd (run p s)) σ ps.

(** The state once the programs [ps] have been called, one after the
    other, each up to its first suspension. *)
Definition after_starting (ps : list (Proc UOp bool)) (σ : State) : State :=
  foldl (λ s p, snd (advance_unit p s)) σ ps.

(** Moves of one thread, one after the other. *)
Fixpoint thread_steps {A : Type} (ms : list Move) (t : Thread A) (σ : State)
  : option (Thread A * State) :=
  match ms with
  | [] => Some (t, σ)
  | m :: rest => '(t', σ') ← thread_step m t σ; thread_steps rest t' σ'
  end.

(** The units of a fan-out as they stand right after the call: the
    [i]-th is the unit of the [i]-th domain, run up to its first
    suspension from the state the earlier units left at theirs. *)
Definition launched (children : list (Proc UOp bool)) (σ : State) : Prop :=
  length children = length domains
  ∧ ∀ i d,
      domains !! i = Some d →
      children !! i
      = Some (fst (advance_unit (unit_of d)
                     (after_starting (unit_of <$> take i domains) σ))).

(** The results of a fan-out whose units ran in turn: the [i]-th is the
    outcome of the unit of the [i]-th domain, run to its end from the
    state the earlier units left, whatever their outcomes. *)
Definition settled_in_turn (rs : list Settled) (σ : State) : Prop :=
  length rs = length domains
  ∧ ∀ i d,
      domains !! i = Some d →
      rs !! i
      = Some (settle (fst (run (unit_of d)
                             (after_each (unit_of <$> take i domains) σ)))).

(** ** Notions for the adapter and the units *)

(** A program that never ends by throwing, whatever answers it
    receives. *)
Fixpoint never_throws {A : Type} (p : Proc UOp A) : Prop :=
  match p with
  | Ret _ => True
  | Throw _ => False
  | Vis _ k => ∀ x, never_throws (k x)
  end.

(** A program that sends at most [n] requests, whatever answers it
    receives. *)
Fixpoint sends_at_most {A : Type} (n : nat) (p : Proc UOp A) : Prop :=
  match p with
  | Vis op k =>
      match op with
      | Fetch _ _ =>
          match n with
          | O => False
          | S m => ∀ x, sends_at_most m (k x)
          end
      | _ => ∀ x, sends_at_most n (k x)
      end
  | _ => True
  end.

(** A program that sends nothing. *)
Definition silent {A : Type} (p : Proc UOp A) : Prop :=
  sends_only (λ _, False) p.

(** [SYNC_FILES[dataType]]: the blob of a domain. *)
Definition file_of (d : DataType) : string :=
  match d with
  | notes => SYNC_FILES.notes
  | tasks => SYNC_FILES.tasks
  | folders => SYNC_FILES.folders
  | sections => SYNC_FILES.sections
  | settings_ => SYNC_FILES.settings
  | activity => SYNC_FILES.activity
  | media => SYNC_FILES.media
  end.

(** The setting under which a domain keeps the time of its last sync. *)
Definition time_key (d : DataType) : string :=
  "sync_" +:+ type_name d +:+ "_time".

(** The requests the unit of a domain may send: the token probe, the
    look-up of its own blob, the read of a file, an upload to its own
    blob; never a deletion. *)
Definition own_traffic (d : DataType) (c : Call) : Prop :=
  match c with
  | Sent _ req =>
      match req with
      | About => True
      | GetMedia _ => True
      | ListFiles name => name = file_of d
      | CreateFile name _ => name = file_of d
      | UpdateFile _ name _ => name = file_of d
      | DeleteFile _ => False
      end
  end.

(** Where the unit of a domain reads its local payload. *)
Definition load_of (d : DataType) : Proc UOp json :=
  match d with
  | notes => call LoadNotesFromDB
  | tasks => call LoadTasksFromDB
  | folders => call LoadFolders
  | sections => getSetting "todo_sections" (JArr [])
  | settings_ =>
      allSettings ← call GetAllSettings;
      mret (syncableSettings allSettings)
  | activity => call GetActivities
  | media => getLocalMediaIndex
  end.

(** What the unit of a domain does with the remote payload [d'] when
    the remote side wins ([localPayload] is what it had read). *)
Definition restore_of (d : DataType) (d' localPayload : json) : Proc UOp unit :=
  match d with
  | notes => restored ← exc (restoredNotes d'); call (SaveNotesToDB restored)
  | tasks => call (SaveTasksToDB d')
  | folders => call (SaveFolders d')
  | sections => setSetting "todo_sections" d'
  | settings_ => es ← exc (entries d'); restoreEach es
  | activity =>
      merged ← exc (mergeActivity d' localPayload);
      setSetting "userActivityLog" merged
  | media => setSetting "media_index" (JStr (JSON_stringify d'))
  end.

(** The media index a state holds, as [getLocalMediaIndex] reads it. *)
Definition media_index (σ : State) : json :=
  let empty := JObj [("images", JArr []); ("audio", JArr [])] in
  let indexStr := default (JStr "") (settings σ !! "media_index") in
  if truthy indexStr
  then match JSON_parse indexStr with
       | inr v => v
       | inl _ => empty
       end
  else empty.

(** The local payload of a domain in a given state. *)
Definition local_payload (d : DataType) (σ : State) : json :=
  match d with
  | notes => notesDB σ
  | tasks => tasksDB σ
  | folders => foldersDB σ
  | sections => default (JArr []) (settings σ !! "todo_sections")
  | settings_ => syncableSettings (settings σ)
  | activity => default (JArr []) (settings σ !! "userActivityLog")
  | media => media_index σ
  end.

(** The local side carries a strictly greater time than the envelope
    [e] of the blob. *)
Definition local_newer (d : DataType) (σ : State) (e : SyncableData) : bool :=
  js_gt (Date_getTime (default (JTime 0) (settings σ !! time_key d)))
        (Date_getTime (lastSyncTime (metadata e))).


(** ** What the settings unit lets out *)

(** A program that writes no setting, whatever answers it receives. *)
Fixpoint keeps_settings {A : Type} (p : Proc UOp A) : Prop :=
  match p with
  | Vis op k =>
      match op with
      | SetSetting _ _ => False
      | _ => True
      end
      ∧ ∀ x, keeps_settings (k x)
  | _ => True
  end.

(** Every upload of a run of [p] from [σ] carries the payload [D] and,
    as its device id, the id that is stored when the run has ended:
    the id that was stored before, when that was a truthy one. *)
Definition uploads_carry {A : Type} (D : json) (p : Proc UOp A) (σ : State)
  : Prop :=
  ∃ new,
    requests (snd (run p σ)) = new ++ requests σ
    ∧ ∀ c name e,
        c ∈ new → uploaded c = Some (name, e) →
        data e = D
        ∧ settings (snd (run p σ)) !! "device_id" = Some (deviceId (metadata e))
        ∧ ∀ id, settings σ !! "device_id" = Some id → truthy id = true →
                deviceId (metadata e) = id.

(** The requests a run adds to the log (latest first). *)
Definition sent_by {A : Type} (p : Proc UOp A) (σ : State) : list Call :=
  take (length (requests (snd (run p σ))) - length (requests σ))
       (requests (snd (run p σ))).

(** The settings under which the engine stores the time of a sync. *)
Definition sync_timestamps : list string :=
  "last_full_sync" :: (time_key <$> domains).

(** The keys of the payload of an envelope. *)
Definition payload_keys (e : SyncableData) : list string :=
  match data e with
  | JObj fs => fst <$> fs
  | _ => []
  end.

(** The claim as worded: sync timestamps and the device identity never
    leave the device via the settings domain.  No upload a run of the
    settings unit sends has, among the keys of its payload, one under
    which the engine stores the time of a sync, and none carries the
    stored device id. *)
Definition internal_state_stays (σ : State) : Prop :=
  ∀ c name e,
    c ∈ sent_by syncSettings σ → uploaded c = Some (name, e) →
    (∀ key, key ∈ sync_timestamps → key ∉ payload_keys e)
    ∧ ∀ id, settings σ !! "device_id" = Some id → deviceId (metadata e) ≠ id.

(** Drive answers the request that carries [tok] with status 401. *)
Definition rejects (tok : string) (w : Weather) (σ : State) : Prop :=
  w = Refuses 401 ∨ (w = Up ∧ tok ∉ validTokens σ).

(** The request fails for another reason than the token. *)
Definition fails_otherwise (w : Weather) : Prop :=
  w = Down ∨ ∃ code, w = Refuses code ∧ code ≠ 401.

(** Every request to come is served. *)
Definition all_up (net : list (Weather * N)) : Prop :=
  Forall (λ w, fst w = Up) net.

(** No two files of the folder share an id. *)
Definition distinct_ids (σ : State) : Prop :=
  NoDup (fileId <$> (fst <$> drive σ)).

(** The files of a name among the files of a folder, in folder order. *)
Definition named_in (name : string) (files : list (DriveFile * Content))
  : list DriveFile :=
  List.filter (λ f, String.eqb (fileName f) name) (fst <$> files).

(** A folder after the first file of a name, if there is one, was
    deleted by its id. *)
Definition without_first (name : string) (files : list (DriveFile * Content))
  : list (DriveFile * Content) :=
  match head (named_in name files) with
  | Some f => List.filter (λ g, negb (has_id (fileId f) g)) files
  | None => files
  end.

(** No request to come is served. *)
Definition all_unserved (net : list (Weather * N)) : Prop :=
  Forall (λ w, fst w ≠ Up) net.

(** ** Programs over other states

    [interp] for the callers of the engine, whose programs run on a
    state of their own beside that of the engine. *)
Section Handle.
Context {Op : Type → Type} {St : Type}.
Variable handler : ∀ X, Op X → St → X * St.

Fixpoint handle {A : Type} (p : Proc Op A) (s : St) : Result A * St :=
  match p with
  | Ret a => (Returned a, s)
  | Throw e => (Threw e, s)
  | Vis op k => let '(x, s') := handler _ op s in handle (k x) s'
  end.
End Handle.

(** ** The sync coordinator ([SmartSyncProvider])

    The provider wraps the manager: [performSync] runs a full sync,
    [syncNow] one domain or all, both behind the provider's own lock
    ([syncLock], a ref).  What the component closes over ([isSignedIn],
    the user's access token, the refresh function of the auth context)
    is an argument; its React state is part of the state it runs in. *)

(** The lock ref and the React state of the provider, and the number
    of bare ['syncComplete'] events it has dispatched. *)
Record Provider : Type := {
  syncLock : bool;
  isSyncing : bool;
  hasError : bool;
  lastSync : option Z;
  completions : nat
}.

Definition set_syncLock (v : bool) (π : Provider) : Provider :=
  {| syncLock := v; isSyncing := isSyncing π; hasError := hasError π;
     lastSync := lastSync π; completions := completions π |}.

Definition set_isSyncing (v : bool) (π : Provider) : Provider :=
  {| syncLock := syncLock π; isSyncing := v; hasError := hasError π;
     lastSync := lastSync π; completions := completions π |}.

Definition set_hasError (v : bool) (π : Provider) : Provider :=
  {| syncLock := syncLock π; isSyncing := isSyncing π; hasError := v;
     lastSync := lastSync π; completions := completions π |}.

Definition set_lastSync (v : option Z) (π : Provider) : Provider :=
  {| syncLock := syncLock π; isSyncing := isSyncing π; hasError := hasError π;
     lastSync := v; completions := completions π |}.

Definition add_completion (π : Provider) : Provider :=
  {| syncLock := syncLock π; isSyncing := isSyncing π; hasError := hasError π;
     lastSync := lastSync π; completions := S (completions π) |}.

(** [setRefreshTokenFn(fn)] of the manager; a function is represented
    by what it yields. *)
Definition set_refreshTokenFn (v : option (option string)) (σ : State) : State :=
  {| accessToken := accessToken σ; syncInProgress := syncInProgress σ;
     refreshTokenFn := v; settings := settings σ;
     notesDB := notesDB σ; tasksDB := tasksDB σ; foldersDB := foldersDB σ;
     drive := drive σ; nextFileId := nextFileId σ;
     validTokens := validTokens σ; clock := clock σ; network := network σ;
     random := random σ; requests := requests σ; events := events σ |}.

(** The effects of the provider: those of the manager's methods, the
    manager's [setRefreshTokenFn], the lock ref, the state setters, the
    event. *)
Inductive POp : Type → Type :=
| Manager {X : Type} (op : JOp X) : POp X
| ManagerSetRefreshTokenFn (fn : option string) : POp unit
| SyncLockCurrent : POp bool
| SetSyncLockCurrent (b : bool) : POp unit
| SetIsSyncing (b : bool) : POp unit
| SetHasError (b : bool) : POp unit
| SetLastSync (t : Z) : POp unit
| DispatchSyncComplete : POp unit.

(** A method of the manager called from the provider. *)
Fixpoint lift_job {A : Type} (p : Proc JOp A) : Proc POp A :=
  match p with
  | Ret a => Ret a
  | Throw e => Throw e
  | Vis op k => Vis (Manager op) (λ x, lift_job (k x))
  end.

Definition perform_provider {X : Type} (op : POp X) (s : Provider * State)
  : X * (Provider * State) :=
  match op in POp X return X * (Provider * State) with
  | Manager op => let '(x, σ') := perform_job op (snd s) in (x, (fst s, σ'))
  | ManagerSetRefreshTokenFn fn =>
      (tt, (fst s, set_refreshTokenFn (Some fn) (snd s)))
  | SyncLockCurrent => (syncLock (fst s), s)
  | SetSyncLockCurrent b => (tt, (set_syncLock b (fst s), snd s))
  | SetIsSyncing b => (tt, (set_isSyncing b (fst s), snd s))
  | SetHasError b => (tt, (set_hasError b (fst s), snd s))
  | SetLastSync t => (tt, (set_lastSync (Some t) (fst s), snd s))
  | DispatchSyncComplete => (tt, (add_completion (fst s), snd s))
  end.

(** Running a call of the provider from its start to its end. *)
Definition run_provider {A : Type} (p : Proc POp A) (s : Provider * State)
  : Result A * (Provider * State) :=
  handle (@perform_provider) p s.

(** The guard both calls start with:
    [!isSignedIn || !user?.authentication?.accessToken]. *)
Definition signed_in_token (isSignedIn : bool) (userToken : option string)
  : option string :=
  if isSignedIn then nonempty userToken else None.

(** Perform sync immediately with no delays. *)
Definition performSync (isSignedIn : bool) (userToken : option string)
  (refreshToken : option string) (reason : string) : Proc POp bool :=
  match signed_in_token isSignedIn userToken with
  | None => mret false
  | Some token =>
      lock ← call SyncLockCurrent;
      if (lock : bool) then mret false
      else
        call (SetSyncLockCurrent true);;
        try_finally
          (try_catch
             (call (SetIsSyncing true);;
              call (SetHasError false);;
              call (Manager (Unit (SetThisAccessToken (Some token))));;
              call (ManagerSetRefreshTokenFn refreshToken);;
              result ← lift_job syncAll;
              if success result then
                now ← call (Manager (Unit NewDate));
                call (SetLastSync now);;
                call DispatchSyncComplete;;
                mret true
              else
                call (SetHasError true);;
                mret false)
             (λ _, call (SetHasError true);; mret false))
          (call (SetIsSyncing false);; call (SetSyncLockCurrent false))
  end.

(** The argument of [syncNow]: a domain, or ['all'] (the default). *)
Inductive SyncTarget : Type :=
| Domain (d : DataType)
| AllDomains.

(** Sync specific data type immediately. *)
Definition syncNow (isSignedIn : bool) (userToken : option string)
  (refreshToken : option string) (dataType : SyncTarget) : Proc POp bool :=
  match signed_in_token isSignedIn userToken with
  | None => mret false
  | Some token =>
      lock ← call SyncLockCurrent;
      if (lock : bool) then mret false
      else
        call (SetSyncLockCurrent true);;
        try_finally
          (try_catch
             (call (SetIsSyncing true);;
              call (Manager (Unit (SetThisAccessToken (Some token))));;
              call (ManagerSetRefreshTokenFn refreshToken);;
              success ← match dataType with
                        | Domain d => lift_job (lift (unit_of d))
                        | AllDomains =>
                            result ← lift_job syncAll;
                            mret (success result)
                        end;
              (if (success : bool) then
                 now ← call (Manager (Unit NewDate));
                 call (SetLastSync now);;
                 call DispatchSyncComplete
               else mret tt);;
              mret success)
             (λ _, call (SetHasError true);; mret false))
          (call (SetIsSyncing false);; call (SetSyncLockCurrent false))
  end.

(** The manager once the provider has handed it the user's token and
    the refresh function of the auth context. *)
Definition manager_primed (token : string) (refreshToken : option string)
  (σ : State) : State :=
  set_refreshTokenFn (Some refreshToken) (set_accessToken (Some token) σ).

(** The provider once a call has ended: lock released, not syncing. *)
Definition settled_provider (error : bool) (done : bool) (now : Z)
  (π : Provider) : Provider :=
  {| syncLock := false; isSyncing := false; hasError := error;
     lastSync := if done then Some now else lastSync π;
     completions := if done then S (completions π) else completions π |}.

(** ** Which note types are shown ([noteTypeVisibility.ts])

    The list of visible note types is the setting
    ['visible_note_types'], one of the settings the settings unit
    uploads and restores.  What the storage yields is whatever was
    stored, so the functions are modelled on any value. *)

(** All available note types. *)
Definition ALL_NOTE_TYPES : list string :=
  ["regular"; "lined"; "sticky"; "code"; "sketch"; "voice"].

(** Default: all note types are visible. *)
Definition DEFAULT_VISIBLE_TYPES : json := JArr (JStr <$> ALL_NOTE_TYPES).

Definition STORAGE_KEY : string := "visible_note_types".

(** [v.length] of a value that is not [null] ([None] is [undefined]):
    arrays and strings have a length, an object may have a property of
    that name. *)
Definition length_of (v : json) : option json :=
  match v with
  | JArr xs => Some (JNum (Z.of_nat (length xs)))
  | JStr s => Some (JNum (Z.of_nat (String.length s)))
  | JTime t => Some (JNum (Z.of_nat (String.length (toISOString t))))
  | JObj fs => lookup_prop "length" fs
  | _ => None
  end.

(** [hay.includes(needle)] on two strings. *)
Fixpoint string_includes (needle hay : string) : bool :=
  String.prefix needle hay
  || match hay with
     | EmptyString => false
     | String _ rest => string_includes needle rest
     end.

(** [t === type] for a string [type]. *)
Definition is_type (type : string) (t : json) : bool :=
  strict_eq (Some t) (Some (JStr type)).

(** [v.includes(type)]: an array has the element, a string has the
    substring; no other value has the method. *)
Definition includes (v : json) (type : string) : Exc bool :=
  match v with
  | JArr xs => inr (existsb (is_type type) xs)
  | JStr s => inr (string_includes type s)
  | JTime t => inr (string_includes type (toISOString t))
  | _ => inl TypeError
  end.

(** [v.filter(t => t !== type)]: only an array has the method. *)
Definition filter_out (v : json) (type : string) : Exc (list json) :=
  match v with
  | JArr xs => inr (List.filter (λ t, negb (is_type type t)) xs)
  | _ => inl TypeError
  end.

(** Get the list of visible note types. *)
Definition getVisibleNoteTypes : Proc UOp json :=
  saved ← getSetting STORAGE_KEY DEFAULT_VISIBLE_TYPES;
  if negb (truthy saved) || strict_eq (length_of saved) (Some (JNum 0))
  then mret DEFAULT_VISIBLE_TYPES
  else mret saved.

(** Check if a note type is visible. *)
Definition isNoteTypeVisible (type : string) : Proc UOp bool :=
  visible ← getVisibleNoteTypes;
  exc (includes visible type).

(** The effects of the functions that write: the settings storage and
    the event ['noteTypesVisibilityChanged'] with its [detail.types]. *)
Inductive VOp : Type → Type :=
| Storage {X : Type} (op : UOp X) : VOp X
| DispatchVisibilityChanged (types : list json) : VOp unit.

Fixpoint lift_storage {A : Type} (p : Proc UOp A) : Proc VOp A :=
  match p with
  | Ret a => Ret a
  | Throw e => Throw e
  | Vis op k => Vis (Storage op) (λ x, lift_storage (k x))
  end.

(** The events dispatched so far (latest first) beside the state of
    the engine. *)
Definition perform_visibility {X : Type} (op : VOp X)
  (s : list (list json) * State) : X * (list (list json) * State) :=
  match op in VOp X return X * (list (list json) * State) with
  | Storage op => let '(x, σ') := perform op (snd s) in (x, (fst s, σ'))
  | DispatchVisibilityChanged types => (tt, (types :: fst s, snd s))
  end.

Definition run_visibility {A : Type} (p : Proc VOp A)
  (s : list (list json) * State) : Result A * (list (list json) * State) :=
  handle (@perform_visibility) p s.

(** Set the list of visible note types (must have at least 1). *)
Definition setVisibleNoteTypes (types : list json) : Proc VOp bool :=
  if Z.of_nat (length types) =? 0 then mret false
  else
    lift_storage (setSetting STORAGE_KEY (JArr types));;
    call (DispatchVisibilityChanged types);;
    mret true.

(** The result [{ success, visible }] of a toggle. *)
Record Toggled : Type := {
  toggled : bool;
  visible : json
}.

(** Toggle a single note type visibility. *)
Definition toggleNoteTypeVisibility (type : string) : Proc VOp Toggled :=
  currentVisible ← lift_storage getVisibleNoteTypes;
  shown ← exc (includes currentVisible type);
  if (shown : bool) then
    if strict_eq (length_of currentVisible) (Some (JNum 1))
    then mret {| toggled := false; visible := currentVisible |}
    else
      newVisible ← exc (filter_out currentVisible type);
      setVisibleNoteTypes newVisible;;
      mret {| toggled := true; visible := JArr newVisible |}
  else
    rest ← exc (iterate currentVisible);
    let newVisible := rest ++ [JStr type] in
    setVisibleNoteTypes newVisible;;
    mret {| toggled := true; visible := JArr newVisible |}.

(** ** File types ([fileOpener.ts]) *)

Section FileOpener.

(** [String.prototype.toLowerCase], which the functions only apply to
    the extension. *)
Variable toLowerCase : string → string.

(** [s.split('.')]: the pieces between the dots, at least one. *)
Fixpoint split_dots (s : string) : list string :=
  match s with
  | EmptyString => [EmptyString]
  | String c rest =>
      if Ascii.eqb c "."%char then EmptyString :: split_dots rest
      else match split_dots rest with
           | piece :: pieces => String c piece :: pieces
           | [] => [String c EmptyString]
           end
  end.

(** The table [mimeTypes] of [getMimeType]. *)
Definition mimeTypes : list (string * string) :=
  [ ("jpg", "image/jpeg"); ("jpeg", "image/jpeg"); ("png", "image/png");
    ("gif", "image/gif"); ("webp", "image/webp"); ("svg", "image/svg+xml");
    ("bmp", "image/bmp"); ("ico", "image/x-icon");
    ("mp3", "audio/mpeg"); ("wav", "audio/wav"); ("ogg", "audio/ogg");
    ("aac", "audio/aac"); ("m4a", "audio/mp4"); ("flac", "audio/flac");
    ("wma", "audio/x-ms-wma");
    ("mp4", "video/mp4"); ("webm", "video/webm"); ("avi", "video/x-msvideo");
    ("mov", "video/quicktime"); ("mkv", "video/x-matroska");
    ("wmv", "video/x-ms-wmv"); ("3gp", "video/3gpp"); ("flv", "video/x-flv");
    ("pdf", "application/pdf"); ("doc", "application/msword");
    ("docx", "application/vnd.openxmlformats-officedocument.wordprocessingml.document");
    ("xls", "application/vnd.ms-excel");
    ("xlsx", "application/vnd.openxmlformats-officedocument.spreadsheetml.sheet");
    ("ppt", "application/vnd.ms-powerpoint");
    ("pptx", "application/vnd.openxmlformats-officedocument.presentationml.presentation");
    ("odt", "application/vnd.oasis.opendocument.text");
    ("ods", "application/vnd.oasis.opendocument.spreadsheet");
    ("odp", "application/vnd.oasis.opendocument.presentation");
    ("rtf", "application/rtf");
    ("txt", "text/plain"); ("csv", "text/csv"); ("xml", "text/xml");
    ("html", "text/html"); ("htm", "text/html"); ("json", "application/json");
    ("md", "text/markdown");
    ("zip", "application/zip"); ("rar", "application/vnd.rar");
    ("7z", "application/x-7z-compressed"); ("tar", "application/x-tar");
    ("gz", "application/gzip");
    ("apk", "application/vnd.android.package-archive");
    ("exe", "application/x-msdownload");
    ("dmg", "application/x-apple-diskimage") ].

(** The members an object literal inherits from [Object.prototype]:
    functions, and the prototype itself under ['__proto__'].  All are
    truthy and none is a string. *)
Definition Object_prototype : list string :=
  [ "constructor"; "hasOwnProperty"; "isPrototypeOf"; "propertyIsEnumerable";
    "toLocaleString"; "toString"; "valueOf"; "__defineGetter__";
    "__defineSetter__"; "__lookupGetter__"; "__lookupSetter__"; "__proto__" ].

(** The own property [k] of a table. *)
Fixpoint own (k : string) (table : list (string * string)) : option string :=
  match table with
  | [] => None
  | (k', v) :: rest => if String.eqb k k' then Some v else own k rest
  end.

(** What [getMimeType] yields: a string, or the inherited member it
    found under the extension. *)
Inductive MimeType : Type :=
| Mime (s : string)
| Member (name : string).

(** [filename.split('.').pop()?.toLowerCase() || '']. *)
Definition extension (filename : string) : string :=
  let ext := toLowerCase (default EmptyString (last (split_dots filename))) in
  if String.eqb ext "" then "" else ext.

(** MIME type detection based on file extension:
    [mimeTypes[ext] || 'application/octet-stream']. *)
Definition getMimeType (filename : string) : MimeType :=
  let ext := extension filename in
  match own ext mimeTypes with
  | Some mime => if String.eqb mime "" then Mime "application/octet-stream"
                 else Mime mime
  | None =>
      if bool_decide (ext ∈ Object_prototype) then Member ext
      else Mime "application/octet-stream"
  end.

Inductive FileCategory : Type :=
| image | audio | video | document | archive | other.

(** Get file category for display.  [startsWith] of a value that is
    not a string is not a function. *)
Definition getFileCategory (filename : string) : Exc FileCategory :=
  match getMimeType filename with
  | Member _ => inl TypeError
  | Mime mimeType =>
      if String.prefix "image/" mimeType then inr image
      else if String.prefix "audio/" mimeType then inr audio
      else if String.prefix "video/" mimeType then inr video
      else if string_includes "pdf" mimeType
              || string_includes "document" mimeType
              || string_includes "word" mimeType
              || string_includes "excel" mimeType
              || string_includes "spreadsheet" mimeType
              || string_includes "powerpoint" mimeType
              || string_includes "presentation" mimeType
              || String.prefix "text/" mimeType
      then inr document
      else if string_includes "zip" mimeType
              || string_includes "rar" mimeType
              || string_includes "7z" mimeType
              || string_includes "tar" mimeType
              || string_includes "gzip" mimeType
      then inr archive
      else inr other
  end.

Definition same_category (a b : FileCategory) : bool :=
  match a, b with
  | image, image | audio, audio | video, video | document, document
  | archive, archive | other, other => true
  | _, _ => false
  end.

(** Check if file can be previewed in-app. *)
Definition canPreviewInApp (filename : string) : Exc bool :=
  bindE (getFileCategory filename) (λ category,
  inr (same_category category image || same_category category audio)).

(** The extensions of each category. *)
Definition image_extensions : list string :=
  ["jpg"; "jpeg"; "png"; "gif"; "webp"; "svg"; "bmp"; "ico"].

Definition audio_extensions : list string :=
  ["mp3"; "wav"; "ogg"; "aac"; "m4a"; "flac"; "wma"].

Definition video_extensions : list string :=
  ["mp4"; "webm"; "avi"; "mov"; "mkv"; "wmv"; "3gp"; "flv"].

Definition document_extensions : list string :=
  ["pdf"; "doc"; "docx"; "xls"; "xlsx"; "ppt"; "pptx"; "odt"; "ods"; "odp";
   "txt"; "csv"; "xml"; "html"; "htm"; "md"].

Definition archive_extensions : list string :=
  ["zip"; "rar"; "7z"; "tar"; "gz"].

(** The category of an extension, read off the lists. *)
Definition category_of (ext : string) : FileCategory :=
  if bool_decide (ext ∈ image_extensions) then image
  else if bool_decide (ext ∈ audio_extensions) then audio
  else if bool_decide (ext ∈ video_extensions) then video
  else if bool_decide (ext ∈ document_extensions) then document
  else if bool_decide (ext ∈ archive_extensions) then archive
  else other.

(** No dot in a string. *)
Fixpoint dotless (s : string) : bool :=
  match s with
  | EmptyString => true
  | String c rest => negb (Ascii.eqb c "."%char) && dotless rest
  end.

End FileOpener.
(** ** Concrete inputs *)

(** Built-ins for evaluating the engine on concrete inputs: nothing
    but an ISO timestamp of the model is a date, no text is JSON. *)
Definition no_Date_parse : json → jsnum := λ _, None.
Definition no_toISOString : Z → string := λ _, "".
Definition no_JSON_stringify : json → string := λ _, "".
Definition no_JSON_parse : json → Exc json := λ _, inl SyntaxError.

Definition envelope (d : json) (t : Z) : SyncableData :=
  {| data := d;
     metadata := {| lastSyncTime := JTime t; deviceId := JStr "device_1_a";
                    version := JNum 1 |} |}.

(** A signed-in device: token ["tok"] is accepted by Drive, the clock
    reads 1000, no call is in flight. *)
Definition device (net : list (Weather * N)) (files : list (DriveFile * Content))
  (stored : gmap string json) (local_notes : json) : State :=
  {| accessToken := Some "tok"; syncInProgress := false;
     refreshTokenFn := None;
     settings := stored; notesDB := local_notes;
     tasksDB := JArr []; foldersDB := JArr [];
     drive := files; nextFileId := length files;
     validTokens := ["tok"];
     clock := 1000; network := net; random := "k3x9";
     requests := []; events := [] |}.

Definition a_note : json :=
  JObj [("id", JStr "n1"); ("title", JStr "groceries");
        ("createdAt", JTime 500); ("updatedAt", JTime 600)].

(** First sync with a healthy network. *)
Definition fresh_device : State :=
  device (replicate 40 (Up, 3%N)) [] ∅ (JArr [a_note]).

(** The fourth request, the token probe of the tasks unit when the
    units run in turn, finds the network down. *)
Definition tasks_offline : State :=
  device (replicate 3 (Up, 3%N) ++ [(Down, 3%N)] ++ replicate 30 (Up, 3%N))
         [] ∅ (JArr [a_note]).

(** The same device signed out: the manager holds no token. *)
Definition signed_out : State := set_accessToken None fresh_device.

(** The same device while a full sync is in flight. *)
Definition busy_device : State := set_syncInProgress true fresh_device.

(** A full sync is called; a note changes and [instantSync('notes')] is
    called; the first unit of the full sync goes on; [syncAll] is
    called again; the instant sync goes on. *)
Definition second_call : list Event :=
  [CallInstantSync notes; StepFull 0 (Child 0); CallSyncAll;
   StepInstant 0 Own].

(** A full sync is called, then [instantSync('notes')]; the notes unit
    of the full sync runs up to its upload, and so does the instant
    sync. *)
Definition both_at_upload : list Event :=
  [CallSyncAll; CallInstantSync notes]
  ++ replicate 7 (StepFull 0 (Child 0)) ++ replicate 6 (StepInstant 0 Own).

(** Then both uploads are served. *)
Definition both_uploaded : list Event :=
  both_at_upload ++ [StepFull 0 (Child 0); StepInstant 0 Own].

Definition idle_pool (σ : State) : Pool :=
  {| state := σ; fulls := []; instants := [] |}.

(** The files of a given name in the appDataFolder. *)
Definition files_named (name : string) (σ : State) : list FileId :=
  fileId <$> List.filter (λ f, String.eqb (fileName f) name) (fst <$> drive σ).

(** A note whose content is markup. *)
Definition shopping : NotesContext.Note.t :=
  {| NotesContext.Note.id := "n1";
     NotesContext.Note.type := "regular";
     NotesContext.Note.title := "groceries";
     NotesContext.Note.color := None;
     NotesContext.Note.folderId := Some "home";
     NotesContext.Note.isPinned := Some true;
     NotesContext.Note.isFavorite := None;
     NotesContext.Note.pinnedOrder := Some 1;
     NotesContext.Note.isArchived := Some false;
     NotesContext.Note.archivedAt := None;
     NotesContext.Note.isDeleted := None;
     NotesContext.Note.deletedAt := None;
     NotesContext.Note.isHidden := None;
     NotesContext.Note.isProtected := None;
     NotesContext.Note.metaDescription := None;
     NotesContext.Note.reminderEnabled := Some false;
     NotesContext.Note.reminderTime := None;
     NotesContext.Note.createdAt := 500;
     NotesContext.Note.updatedAt := 600;
     NotesContext.Note.content := "<p>milk, <b>eggs</b></p>" |}.


(** The activity blob holds the entries 2 and 3, written at instant
    900; the local log holds 1 and 2 and has never been synced. *)
Definition activity_device : State :=
  device (replicate 3 (Up, 3%N))
         [({| fileId := 0%nat; fileName := SYNC_FILES.activity;
              modifiedTime := 900 |},
           Envelope (envelope (JArr [entry 2; entry 3]) 900))]
         {["userActivityLog" := JArr [entry 1; entry 2]]} (JArr []).

(** A device whose settings storage holds sync timestamps, the device
    id and Google auth data next to a user preference. *)
Definition settings_device : State :=
  device (replicate 3 (Up, 3%N)) []
         (<["sync_notes_time" := JTime 700]>
            (<["device_id" := JStr "device_1_a"]>
               (<["google_user" := JStr "someone"]>
                  {["theme" := JStr "dark"]})))
         (JArr []).


(** A device whose token has expired: Drive accepts ["tok"] only, the
    manager still holds ["old"], and the refresh function yields
    ["tok"]. *)
Definition expired_device : State :=
  {| accessToken := Some "old"; syncInProgress := false;
     refreshTokenFn := Some (Some "tok");
     settings := ∅; notesDB := JArr []; tasksDB := JArr [];
     foldersDB := JArr [];
     drive := []; nextFileId := 0%nat;
     validTokens := ["tok"];
     clock := 1000; network := replicate 10 (Up, 3%N); random := "k3x9";
     requests := []; events := [] |}.

Definition a_task : json := JObj [("id", JStr "t1"); ("text", JStr "call")].

(** The tasks blob was written at instant 500 with no task in it. *)
Definition tasks_blob : DriveFile * Content :=
  ({| fileId := 0%nat; fileName := SYNC_FILES.tasks; modifiedTime := 500 |},
   Envelope (envelope (JArr []) 500)).

(** A device that holds one task and synced its tasks at instant 800,
    after the blob was written. *)
Definition local_tasks_newer : State :=
  set_tasksDB (JArr [a_task])
    (device (replicate 4 (Up, 3%N)) [tasks_blob]
            {["sync_tasks_time" := JTime 800]} (JArr [])).


(** The notes blob exists; the server answers the look-up with status
    500 and serves the other requests. *)
Definition flaky_lookup : State :=
  device [(Up, 3%N); (Refuses 500, 3%N); (Up, 3%N)]
         [({| fileId := 0%nat; fileName := SYNC_FILES.notes;
              modifiedTime := 900 |},
           Envelope (envelope (JArr []) 900))]
         ∅ (JArr [a_note]).

(** The settings blob of another device, written at instant 900: a
    theme, and that device's id. *)
Definition settings_blob : DriveFile * Content :=
  ({| fileId := 0%nat; fileName := SYNC_FILES.settings; modifiedTime := 900 |},
   Envelope (envelope (JObj [("theme", JStr "light");
                             ("device_id", JStr "device_9_z")]) 900)).

Definition restoring_device : State :=
  device (replicate 3 (Up, 3%N)) [settings_blob]
         (<["theme" := JStr "dark"]>
            (<["font" := JStr "serif"]>
               {["device_id" := JStr "device_1_a"]}))
         (JArr []).

(** Built-ins for which the text of the empty array parses back. *)
Definition brackets_JSON_stringify : json → string := λ _, "[]".
Definition brackets_JSON_parse : json → Exc json := λ _, inr (JArr []).

(** The media blob holds an empty index, written at instant 900. *)
Definition media_device : State :=
  device (replicate 3 (Up, 3%N))
         [({| fileId := 0%nat; fileName := SYNC_FILES.media;
              modifiedTime := 900 |},
           Envelope (envelope (JArr []) 900))]
         ∅ (JArr []).

(** A folder with two notes blobs, a tasks blob and a file of another
    name. *)
Definition crowded_folder : list (DriveFile * Content) :=
  [({| fileId := 0%nat; fileName := SYNC_FILES.notes; modifiedTime := 100 |},
    Envelope (envelope (JArr []) 100));
   ({| fileId := 1%nat; fileName := SYNC_FILES.tasks; modifiedTime := 200 |},
    Envelope (envelope (JArr []) 200));
   ({| fileId := 2%nat; fileName := SYNC_FILES.notes; modifiedTime := 300 |},
    Envelope (envelope (JArr [a_note]) 300));
   ({| fileId := 3%nat; fileName := "other.json"; modifiedTime := 400 |},
    Garbage)].

Definition crowded_device : State :=
  device (replicate 15 (Up, 3%N)) crowded_folder ∅ (JArr []).

(** The same folder on a device that goes offline after one request. *)
Definition soon_offline : State :=
  device [(Up, 3%N)] crowded_folder ∅ (JArr []).

(** The provider at rest, in the middle of a sync, and at rest after a
    sync that failed. *)
Definition idle_provider : Provider :=
  {| syncLock := false; isSyncing := false; hasError := false;
     lastSync := None; completions := 0 |}.

Definition locked_provider : Provider :=
  set_isSyncing true (set_syncLock true idle_provider).

Definition failed_provider : Provider := set_hasError true idle_provider.

(** A device on which only code notes are shown, and one whose list
    of visible types names them twice. *)
Definition one_type_device : State :=
  set_settings {[STORAGE_KEY := JArr [JStr "code"]]} fresh_device.

Definition twice_listed_device : State :=
  set_settings {[STORAGE_KEY := JArr [JStr "code"; JStr "code"]]} fresh_device.



(** A device right after its first full sync. *)
Definition after_full_sync : State := snd (run_job syncAll fresh_device).
(** * Properties *)

(** ** Conflict resolution *)

Lemma js_gt_asym (a b : jsnum) : js_gt a b = true → js_gt b a = false.
Proof.
  destruct a as [x|], b as [y|]; simpl; try done.
  intros H. apply Z.ltb_lt in H. apply Z.ltb_ge. lia.
Qed.

Lemma js_gt_irrefl (a : jsnum) : js_gt a a = false.
Proof. destruct a as [x|]; simpl; [apply Z.ltb_irrefl | done]. Qed.

(** C1: the resolver selects the local side exactly when the local
    [lastSyncTime] is strictly greater than the remote one and the
    remote side otherwise, equal timestamps included; and of two
    envelopes the one with the strictly greater [lastSyncTime] is
    selected whichever argument position it occupies. *)
Theorem resolveConflict_last_write_wins (l r A B : SyncableData) :
  newer A B →
  (winner (resolveConflict l r) = local ↔ newer l r)
  ∧ (winner (resolveConflict l r) = remote ↔ ¬ newer l r)
  ∧ (Date_getTime (lastSyncTime (metadata l))
     = Date_getTime (lastSyncTime (metadata r)) →
     winner (resolveConflict l r) = remote)
  ∧ winner_data (resolveConflict l r)
    = match winner (resolveConflict l r) with
      | local => data l
      | remote => data r
      end
  ∧ resolveConflict A B = {| winner := local; winner_data := data A |}
  ∧ resolveConflict B A = {| winner := remote; winner_data := data A |}.
Proof.
  intros HAB. unfold newer, resolveConflict in *. cbv zeta.
  split_and!.
  - destruct (js_gt (Date_getTime (lastSyncTime (metadata l))) _);
      simpl; split; intros; done.
  - destruct (js_gt (Date_getTime (lastSyncTime (metadata l))) _);
      simpl; split; intros H; done.
  - intros ->. by rewrite js_gt_irrefl.
  - by destruct (js_gt (Date_getTime (lastSyncTime (metadata l))) _).
  - by rewrite HAB.
  - by rewrite (js_gt_asym _ _ HAB).
Qed.

(** ** The full sync *)

(** Conflict resolution on what the read yielded. *)
Lemma resolveRemote_Shaped {B : Type} (l e : SyncableData)
  (f : Resolution → Proc UOp B) :
  (exc (resolveRemote l (Shaped e)) ≫= f) = f (resolveConflict l e).
Proof. reflexivity. Qed.

Lemma resolveRemote_Unshaped {B : Type} (l : SyncableData)
  (f : Resolution → Proc UOp B) :
  (exc (resolveRemote l Unshaped) ≫= f) = Throw TypeError.
Proof. reflexivity. Qed.

Lemma interp_bind {Op : Type → Type} (h : ∀ X, Op X → State → X * State)
  {A B : Type} (m : Proc Op A) (f : A → Proc Op B) (σ : State) :
  interp h (m ≫= f) σ
  = match interp h m σ with
    | (Returned a, σ') => interp h (f a) σ'
    | (Threw e, σ') => (Threw e, σ')
    end.
Proof.
  revert σ. induction m as [a|e|X op k IH]; intros σ; simpl; try done.
  destruct (h X op σ) as [x σ']. apply IH.
Qed.

Lemma interp_try_catch {Op : Type → Type} (h : ∀ X, Op X → State → X * State)
  {A : Type} (p : Proc Op A) (c : Error → Proc Op A) (σ : State) :
  interp h (try_catch p c) σ
  = match interp h p σ with
    | (Returned a, σ') => (Returned a, σ')
    | (Threw e, σ') => interp h (c e) σ'
    end.
Proof.
  revert σ. induction p as [a|e|X op k IH]; intros σ; simpl; try done.
  destruct (h X op σ) as [x σ']. apply IH.
Qed.

(** What a full sync does when the lock is free, in terms of what its
    seven units did. *)
Lemma run_syncAll_idle (σ : State) :
  syncInProgress σ = false →
  run_job syncAll σ
  = let '(rs, σ1) := run_all units (set_syncInProgress true σ) in
    let rep := report (collectErrors rs) in
    (Returned rep,
     set_syncInProgress false
       (add_event rep
          (set_settings (<["last_full_sync" := JTime (clock σ1)]> (settings σ1))
                        σ1))).
Proof.
  intros Hidle. unfold run_job, syncAll. generalize units as ps. intros ps.
  simpl. rewrite Hidle. simpl.
  destruct (run_all ps (set_syncInProgress true σ)) as [rs σ1]. done.
Qed.

Lemma run_syncAll_busy (σ : State) :
  syncInProgress σ = true →
  run_job syncAll σ
  = (Returned {| success := false; errors := ["Sync already in progress"] |}, σ).
Proof. intros Hbusy. unfold run_job, syncAll. simpl. by rewrite Hbusy. Qed.

Lemma run_all_each (ps : list (Proc UOp bool)) (σ : State) :
  Forall2 (λ p r, ∃ σp, r = settle (fst (run p σp))) ps (fst (run_all ps σ)).
Proof.
  revert σ. induction ps as [|p ps IH]; intros σ; simpl; [constructor|].
  destruct (run p σ) as [r σ1] eqn:Hr.
  specialize (IH σ1). destruct (run_all ps σ1) as [rs σ2]. simpl in *.
  constructor; [|done]. exists σ. by rewrite Hr.
Qed.

Lemma collectErrors_failures (rs : list Settled) :
  length rs = 7%nat →
  collectErrors rs = (λ d, "Failed to sync " +:+ type_name d) <$> failures rs.
Proof.
  intros Hlen.
  do 8 (destruct rs as [|? rs]; try discriminate Hlen).
  unfold collectErrors, failures. simpl.
  repeat match goal with |- context [failed ?r] => destruct (failed r) end;
    reflexivity.
Qed.

Lemma failures_nil (rs : list Settled) :
  length rs = 7%nat →
  failures rs = [] ↔ Forall (λ r, failed r = false) rs.
Proof.
  intros Hlen.
  do 8 (destruct rs as [|? rs]; try discriminate Hlen).
  unfold failures. simpl. split.
  - intros H.
    repeat match goal with
           | |- Forall _ [] => constructor
           | |- Forall _ (?r :: _) =>
               constructor; [destruct (failed r) eqn:?; [|done]|]
           end.
    all: try (exfalso; revert H; simpl;
              repeat match goal with
                     | H : failed _ = _ |- _ => rewrite H
                     | |- context [failed ?r] => destruct (failed r)
                     end; simpl; discriminate).
  - intros H. repeat (apply Forall_cons_1 in H as [-> H]). done.
Qed.

Lemma start_all_length (ps : list (Proc UOp bool)) (σ : State) :
  length (fst (start_all ps σ)) = length ps.
Proof.
  revert σ. induction ps as [|p ps IH]; intros σ; simpl; [done|].
  destruct (advance_unit p σ) as [p' σ1]. specialize (IH σ1).
  destruct (start_all ps σ1) as [ps' σ2]. simpl in *. by rewrite IH.
Qed.

(** What a full sync does once its units have settled, under any
    schedule: it reads the clock, is suspended on the write of
    ['last_full_sync'], then dispatches the event, releases the lock and
    returns the report of the settled results. *)
Lemma syncAll_after_join (σ : State) :
  syncInProgress σ = false →
  ∃ children k σ0,
    advance syncAll σ = (Joining children k, σ0)
    ∧ length children = 7%nat
    ∧ ∀ rs σ1, ∃ p,
        advance (k rs) σ1 = (Running p, σ1)
        ∧ ∀ σ2,
            resume p σ2
            = Some (Running (Ret (report (collectErrors rs))),
                    set_syncInProgress false
                      (add_event (report (collectErrors rs))
                         (set_settings
                            (<["last_full_sync" := JTime (clock σ1)]>
                               (settings σ2)) σ2))).
Proof.
  intros Hidle. unfold syncAll.
  assert (length units = 7%nat) as Hunits by done. revert Hunits.
  generalize units as ps. intros ps Hps. simpl. rewrite Hidle. simpl.
  pose proof (start_all_length ps (set_syncInProgress true σ)) as Hl.
  destruct (start_all ps (set_syncInProgress true σ)) as [children σ0].
  eexists _, _, _. split; [done|]. split; [simpl in Hl; congruence|].
  intros rs σ1. eexists. simpl. split; [done|]. intros σ2. done.
Qed.

Lemma units_domains : units = unit_of <$> domains.
Proof. reflexivity. Qed.

Lemma length_run_all (ps : list (Proc UOp bool)) (σ : State) :
  length (fst (run_all ps σ)) = length ps.
Proof.
  revert σ. induction ps as [|p ps IH]; intros σ; simpl; [done|].
  destruct (run p σ) as [r σ1]. specialize (IH σ1).
  destruct (run_all ps σ1) as [rs σ2]. simpl in *. by rewrite IH.
Qed.

(** Every program of a fan-out is run to its end, from the state the
    earlier ones left. *)
Lemma run_all_lookup (ps : list (Proc UOp bool)) (σ : State) (i : nat)
  (p : Proc UOp bool) :
  ps !! i = Some p →
  fst (run_all ps σ) !! i
  = Some (settle (fst (run p (after_each (take i ps) σ)))).
Proof.
  revert σ i. induction ps as [|q ps IH]; intros σ i Hi; [done|].
  simpl. destruct (run q σ) as [r σ1] eqn:Hq.
  specialize (IH σ1). destruct (run_all ps σ1) as [rs σ2]. simpl in *.
  destruct i as [|i]; simpl in *.
  - injection Hi as <-. by rewrite Hq.
  - unfold after_each in *. simpl. rewrite Hq. simpl. by apply IH.
Qed.

Lemma start_all_lookup (ps : list (Proc UOp bool)) (σ : State) (i : nat)
  (p : Proc UOp bool) :
  ps !! i = Some p →
  fst (start_all ps σ) !! i
  = Some (fst (advance_unit p (after_starting (take i ps) σ))).
Proof.
  revert σ i. induction ps as [|q ps IH]; intros σ i Hi; [done|].
  simpl. destruct (advance_unit q σ) as [q' σ1] eqn:Hq.
  specialize (IH σ1). destruct (start_all ps σ1) as [rs σ2]. simpl in *.
  destruct i as [|i]; simpl in *.
  - injection Hi as <-. by rewrite Hq.
  - unfold after_starting in *. simpl. rewrite Hq. simpl. by apply IH.
Qed.

Lemma start_all_state (ps : list (Proc UOp bool)) (σ : State) :
  snd (start_all ps σ) = after_starting ps σ.
Proof.
  revert σ. induction ps as [|q ps IH]; intros σ; [done|].
  simpl. destruct (advance_unit q σ) as [q' σ1] eqn:Hq.
  specialize (IH σ1). destruct (start_all ps σ1) as [rs σ2]. simpl in *.
  unfold after_starting in *. simpl. rewrite ?Hq. exact IH.
Qed.

Lemma settled_in_turn_run_all (σ : State) :
  settled_in_turn (fst (run_all units σ)) σ.
Proof.
  split; [by rewrite length_run_all|]. intros i d Hd.
  rewrite (run_all_lookup units σ i (unit_of d)).
  - by rewrite units_domains, fmap_take.
  - by rewrite units_domains, list_lookup_fmap, Hd.
Qed.

Lemma launched_start_all (σ : State) :
  launched (fst (start_all units σ)) σ.
Proof.
  split; [by rewrite start_all_length|]. intros i d Hd.
  rewrite (start_all_lookup units σ i (unit_of d)).
  - by rewrite units_domains, fmap_take.
  - by rewrite units_domains, list_lookup_fmap, Hd.
Qed.

(** A unit taken up where it is suspended goes on to the end it would
    have reached uninterrupted. *)
Lemma run_advance_unit {A : Type} (p : Proc UOp A) (σ : State) :
  run (fst (advance_unit p σ)) (snd (advance_unit p σ)) = run p σ.
Proof.
  revert σ. induction p as [a|e|X op k IH]; intros σ; simpl; try done.
  destruct (awaited op); [done|].
  unfold run in *. simpl. destruct (perform op σ) as [x σ1]. apply IH.
Qed.

Lemma thread_steps_app {A : Type} (ms1 ms2 : list Move) (t : Thread A)
  (σ : State) :
  thread_steps (ms1 ++ ms2) t σ
  = '(t', σ') ← thread_steps ms1 t σ; thread_steps ms2 t' σ'.
Proof.
  revert t σ. induction ms1 as [|m ms1 IH]; intros t σ; simpl; [done|].
  destruct (thread_step m t σ) as [[t1 σ1]|]; simpl; [apply IH|done].
Qed.

Lemma insert_middle {A : Type} (l1 l2 : list A) (x y : A) :
  <[length l1 := x]> (l1 ++ y :: l2) = l1 ++ x :: l2.
Proof. rewrite insert_app_r_alt by done. by rewrite Nat.sub_diag. Qed.

(** A unit of a fan-out that has not settled can go on, whatever the
    state and whatever has become of the other units; its step touches
    no slot but its own. *)
Lemma unit_goes_on {A : Type} (cs : list (Proc UOp bool))
  (k : list Settled → Proc JOp A) (j : nat) (c : Proc UOp bool) (σ : State) :
  cs !! j = Some c → settled c = None →
  ∃ c' σ',
    resume_unit c σ = Some (c', σ')
    ∧ thread_step (Child j) (Joining cs k) σ
      = Some (Joining (<[j := c']> cs) k, σ').
Proof.
  intros Hj Hc. destruct c as [a|e|X op kc]; try discriminate Hc.
  simpl. rewrite Hj. simpl. destruct (perform op σ) as [x σ1].
  destruct (advance_unit (kc x) σ1) as [c' σ'] eqn:Hadv.
  exists c', σ'. done.
Qed.

(** Given its turn often enough, a unit of a fan-out settles, with the
    outcome and the state of its uninterrupted run. *)
Lemma unit_settles {A : Type} (k : list Settled → Proc JOp A)
  (pre post : list (Proc UOp bool)) (c : Proc UOp bool) (σ : State) :
  ∃ n c',
    thread_steps (replicate n (Child (length pre)))
                 (Joining (pre ++ c :: post) k) σ
    = Some (Joining (pre ++ c' :: post) k, snd (run c σ))
    ∧ settled c' = Some (fst (run c σ)).
Proof.
  cut ((∀ σ, ∃ n c',
           thread_steps (replicate n (Child (length pre)))
                        (Joining (pre ++ c :: post) k) σ
           = Some (Joining (pre ++ c' :: post) k, snd (run c σ))
           ∧ settled c' = Some (fst (run c σ)))
       ∧ ∀ σ, ∃ n c',
           thread_steps (replicate n (Child (length pre)))
                        (Joining (pre ++ fst (advance_unit c σ) :: post) k)
                        (snd (advance_unit c σ))
           = Some (Joining (pre ++ c' :: post) k, snd (run c σ))
           ∧ settled c' = Some (fst (run c σ))).
  { intros [H _]. apply H. }
  clear σ. induction c as [a|e|X op kc IH].
  - split; intros σ; exists 0%nat, (Ret a); done.
  - split; intros σ; exists 0%nat, (Throw e); done.
  - assert (∀ σ, ∃ n c',
               thread_steps (replicate n (Child (length pre)))
                            (Joining (pre ++ Vis op kc :: post) k) σ
               = Some (Joining (pre ++ c' :: post) k, snd (run (Vis op kc) σ))
               ∧ settled c' = Some (fst (run (Vis op kc) σ))) as Hfirst.
    { intros σ. unfold run. simpl.
      destruct (perform op σ) as [x σ1] eqn:Hop.
      destruct (IH x) as [_ IHx]. destruct (IHx σ1) as (n & c' & Hsteps & Hc').
      exists (S n), c'. split; [|done]. simpl.
      rewrite list_lookup_middle by done. simpl. rewrite Hop.
      destruct (advance_unit (kc x) σ1) as [c1 σ2] eqn:Hadv. simpl in *.
      rewrite insert_middle. exact Hsteps. }
    split; [exact Hfirst|]. intros σ. simpl.
    destruct (awaited op); [apply Hfirst|].
    unfold run. simpl. destruct (perform op σ) as [x σ1].
    destruct (IH x) as [_ IHx]. apply IHx.
Qed.

(** The units of a fan-out taken in turn, each to its end: a schedule
    of the event loop that settles them all. *)
Lemma fan_out_in_turn {A : Type} (k : list Settled → Proc JOp A)
  (post pre : list (Proc UOp bool)) (σ : State) :
  ∃ ms cs' outcomes,
    thread_steps ms (Joining (pre ++ post) k) σ
    = Some (Joining (pre ++ cs') k, snd (run_all post σ))
    ∧ Forall2 (λ c r, settled c = Some r) cs' outcomes
    ∧ settle <$> outcomes = fst (run_all post σ).
Proof.
  revert pre σ. induction post as [|c post IH]; intros pre σ.
  - exists [], [], []. split_and!; [done|constructor|done].
  - destruct (unit_settles k pre post c σ) as (n & c' & Hsteps & Hc').
    destruct (IH (pre ++ [c']) (snd (run c σ)))
      as (ms & cs' & outcomes & Hrest & Hall & Hout).
    exists (replicate n (Child (length pre)) ++ ms), (c' :: cs'),
           (fst (run c σ) :: outcomes).
    simpl. destruct (run c σ) as [r σ1]. simpl in *.
    destruct (run_all post σ1) as [rs σ2]. simpl in *.
    split_and!.
    + rewrite thread_steps_app, Hsteps. simpl.
      rewrite <- !app_assoc in Hrest. exact Hrest.
    + by constructor.
    + f_equal. exact Hout.
Qed.

(** The call is held in the fan-out while a unit has not settled. *)
Lemma join_waits {A : Type} (k : list Settled → Proc JOp A)
  (cs : list (Proc UOp bool)) (c : Proc UOp bool) (σ : State) :
  c ∈ cs → settled c = None → thread_step Join (Joining cs k) σ = None.
Proof.
  intros Hin Hc. simpl.
  destruct (mapM settled cs) as [rs|] eqn:Hrs; [|done].
  apply mapM_Some in Hrs.
  apply list_elem_of_lookup in Hin as [i Hi].
  destruct (Forall2_lookup_l _ _ _ _ _ Hrs Hi) as (r & _ & Hr). congruence.
Qed.

(** The launch of a full sync and what it does once its units have
    settled. *)
Lemma syncAll_launch (σ : State) :
  syncInProgress σ = false →
  ∃ k,
    advance syncAll σ
    = (Joining (fst (start_all units (set_syncInProgress true σ))) k,
       snd (start_all units (set_syncInProgress true σ)))
    ∧ ∀ rs σ1, ∃ p,
        advance (k rs) σ1 = (Running p, σ1)
        ∧ ∀ σ2, ∃ σ3,
            resume p σ2
            = Some (Running (Ret (report (collectErrors rs))), σ3).
Proof.
  intros Hidle. unfold syncAll. generalize units as ps. intros ps.
  simpl. rewrite Hidle. simpl.
  destruct (start_all ps (set_syncInProgress true σ)) as [children σ0].
  eexists. split; [done|].
  intros rs σ1. eexists. simpl. split; [done|]. intros σ2. eexists. done.
Qed.

(** C3 (amended): a full sync that finds the lock free launches the
    units of all seven domains, in the order of the domains, each up to
    its first suspension.  From then on every unit that has not settled
    can go on, whatever the state and whatever has become of the other
    units, also when they returned false or threw, and its step touches
    no slot but its own; from any stage of the fan-out the units taken
    in turn all settle; the call stays in the fan-out while a unit has
    not settled, and once all have, it leaves with the report of their
    outcomes.  When the units run in turn, each of the seven is run to
    its end from the state the earlier ones left, whatever their
    outcomes; the report says success exactly when no unit failed, and
    its error list holds one message ["Failed to sync <name>"] for each
    failed domain, in launch order. *)
Theorem syncAll_isolates_domains (σ : State) :
  syncInProgress σ = false →
  ∃ (rs : list Settled) (rep : SyncReport) (σ' : State),
    (∃ children k,
        advance syncAll σ
        = (Joining children k,
           after_starting units (set_syncInProgress true σ))
        ∧ launched children (set_syncInProgress true σ)
        ∧ (∀ cs j c σa,
              cs !! j = Some c → settled c = None →
              ∃ c' σb,
                resume_unit c σa = Some (c', σb)
                ∧ thread_step (Child j) (Joining cs k) σa
                  = Some (Joining (<[j := c']> cs) k, σb))
        ∧ (∀ cs σa,
              ∃ ms cs' outcomes,
                thread_steps ms (Joining cs k) σa
                = Some (Joining cs' k, snd (run_all cs σa))
                ∧ Forall2 (λ c r, settled c = Some r) cs' outcomes
                ∧ settle <$> outcomes = fst (run_all cs σa))
        ∧ (∀ cs c σa,
              c ∈ cs → settled c = None →
              thread_step Join (Joining cs k) σa = None)
        ∧ (∀ cs outcomes σ1,
              Forall2 (λ c r, settled c = Some r) cs outcomes →
              ∃ p,
                thread_step Join (Joining cs k) σ1 = Some (Running p, σ1)
                ∧ ∀ σ2, ∃ σ3,
                    resume p σ2
                    = Some (Running
                              (Ret (report
                                      (collectErrors (settle <$> outcomes)))),
                            σ3))
        ∧ ∀ results σ1, ∃ p,
            advance (k results) σ1 = (Running p, σ1)
            ∧ ∀ σ2, ∃ σ3,
                resume p σ2
                = Some (Running (Ret (report (collectErrors results))), σ3))
    ∧ fst (run_all units (set_syncInProgress true σ)) = rs
    ∧ settled_in_turn rs (set_syncInProgress true σ)
    ∧ run_job syncAll σ = (Returned rep, σ')
    ∧ (success rep = true ↔ Forall (λ r, failed r = false) rs)
    ∧ errors rep = (λ d, "Failed to sync " +:+ type_name d) <$> failures rs.
Proof.
  intros Hidle.
  pose proof (settled_in_turn_run_all (set_syncInProgress true σ)) as Hturn.
  rewrite (run_syncAll_idle σ Hidle).
  destruct (run_all units (set_syncInProgress true σ)) as [rs σ1].
  cbn [fst snd] in *.
  assert (length rs = 7%nat) as Hlen by apply Hturn.
  eexists rs, _, _. split_and!; [|reflexivity|exact Hturn|reflexivity| |].
  - destruct (syncAll_launch σ Hidle) as (k & Hadv & Hk).
    exists (fst (start_all units (set_syncInProgress true σ))), k.
    split_and!.
    + by rewrite Hadv, start_all_state.
    + apply launched_start_all.
    + intros cs j c σa. apply unit_goes_on.
    + intros cs σa. apply (fan_out_in_turn k cs [] σa).
    + intros cs c σa. apply join_waits.
    + intros cs outcomes σa Hall. apply mapM_Some in Hall.
      destruct (Hk (settle <$> outcomes) σa) as (p & Hp & Hres).
      exists p. split; [|exact Hres]. simpl. rewrite Hall. simpl. by rewrite Hp.
    + exact Hk.
  - simpl. rewrite collectErrors_failures by done.
    rewrite <- failures_nil by done. rewrite bool_decide_eq_true.
    rewrite length_fmap. destruct (failures rs); simpl; split; done.
  - simpl. by apply collectErrors_failures.
Qed.

(** The clock never goes back. *)
Lemma serve_clock {X : Type} (req : Request X) (σ : State) :
  clock (snd (serve req σ)) = clock σ.
Proof.
  destruct req; simpl; try done;
    destruct (stored file σ) as [[? ?]|]; done.
Qed.

Lemma perform_clock {X : Type} (op : UOp X) (σ : State) :
  clock σ ≤ clock (snd (perform op σ)).
Proof.
  destruct op; simpl; try lia.
  unfold fetch. destruct (network σ) as [|[w dt] rest]; simpl; [lia|].
  destruct w; simpl; try lia.
  case_bool_decide; simpl; [rewrite serve_clock; simpl|]; lia.
Qed.

Lemma run_clock {A : Type} (p : Proc UOp A) (σ : State) :
  clock σ ≤ clock (snd (run p σ)).
Proof.
  revert σ. induction p as [a|e|X op k IH]; intros σ; simpl; try lia.
  pose proof (perform_clock op σ) as H1. unfold run in *. simpl.
  destruct (perform op σ) as [x σ']. specialize (IH x σ'). simpl in *. lia.
Qed.

Lemma run_all_clock (ps : list (Proc UOp bool)) (σ : State) :
  clock σ ≤ clock (snd (run_all ps σ)).
Proof.
  revert σ. induction ps as [|p ps IH]; intros σ; simpl; [lia|].
  pose proof (run_clock p σ) as H1. destruct (run p σ) as [r σ1].
  specialize (IH σ1). destruct (run_all ps σ1) as [rs σ2]. simpl in *. lia.
Qed.

(** C10: a full sync that finds the lock free stores a fresh
    ['last_full_sync'] timestamp before it returns, whatever its seven
    units did; [getLastSyncTime] then yields a date, not [null].  This
    holds when the units run in turn and, second part, under every
    schedule: whatever results the units settled with, the call goes on
    to store the time it read and only then returns. *)
Theorem syncAll_stamps_last_full_sync (σ : State) :
  syncInProgress σ = false →
  (∃ (rep : SyncReport) (σ' : State) (t : Z),
      run_job syncAll σ = (Returned rep, σ')
      ∧ settings σ' !! "last_full_sync" = Some (JTime t)
      ∧ clock σ ≤ t ∧ t = clock σ'
      ∧ run getLastSyncTime σ' = (Returned (Some (JTime t)), σ'))
  ∧ ∃ children k σ0,
      advance syncAll σ = (Joining children k, σ0)
      ∧ ∀ results σ1, ∃ p,
          advance (k results) σ1 = (Running p, σ1)
          ∧ ∀ σ2, ∃ rep σ3,
              resume p σ2 = Some (Running (Ret rep), σ3)
              ∧ settings σ3 !! "last_full_sync" = Some (JTime (clock σ1))
              ∧ run getLastSyncTime σ3
                = (Returned (Some (JTime (clock σ1))), σ3).
Proof.
  intros Hidle. split.
  - rewrite (run_syncAll_idle σ Hidle).
    pose proof (run_all_clock units (set_syncInProgress true σ)) as Hclock.
    destruct (run_all units (set_syncInProgress true σ)) as [rs σ1].
    simpl in Hclock. eexists _, _, (clock σ1). split_and!; try done.
    + simpl. by rewrite lookup_insert_eq.
    + unfold run, getLastSyncTime. simpl. by rewrite lookup_insert_eq.
  - destruct (syncAll_after_join σ Hidle) as (children & k & σ0 & Hadv & _ & Hk).
    exists children, k, σ0. split; [done|].
    intros results σ1. destruct (Hk results σ1) as (p & Hp & Hres).
    exists p. split; [done|]. intros σ2. eexists _, _.
    split; [apply Hres|]. split.
    + simpl. by rewrite lookup_insert_eq.
    + unfold run, getLastSyncTime. simpl. by rewrite lookup_insert_eq.
Qed.

(** ** The lock *)

Lemma serve_flag {X : Type} (req : Request X) (σ : State) :
  syncInProgress (snd (serve req σ)) = syncInProgress σ.
Proof.
  destruct req; simpl; try done;
    destruct (stored file σ) as [[? ?]|]; done.
Qed.

(** No effect of a unit touches the lock flag. *)
Lemma perform_flag {X : Type} (op : UOp X) (σ : State) :
  syncInProgress (snd (perform op σ)) = syncInProgress σ.
Proof.
  destruct op; simpl; try done.
  unfold fetch. destruct (network σ) as [|[w dt] rest]; simpl; [done|].
  destruct w; simpl; try done.
  case_bool_decide; simpl; [by rewrite serve_flag|done].
Qed.

Lemma advance_unit_flag {A : Type} (p : Proc UOp A) (σ : State) :
  syncInProgress (snd (advance_unit p σ)) = syncInProgress σ.
Proof.
  revert σ. induction p as [a|e|X op k IH]; intros σ; simpl; try done.
  destruct (awaited op); [done|].
  pose proof (perform_flag op σ) as H. destruct (perform op σ) as [x σ'].
  rewrite IH. done.
Qed.

Lemma start_all_flag (ps : list (Proc UOp bool)) (σ : State) :
  syncInProgress (snd (start_all ps σ)) = syncInProgress σ.
Proof.
  revert σ. induction ps as [|p ps IH]; intros σ; simpl; [done|].
  pose proof (advance_unit_flag p σ) as H1.
  destruct (advance_unit p σ) as [p' σ1]. specialize (IH σ1).
  destruct (start_all ps σ1) as [ps' σ2]. simpl in *. congruence.
Qed.

Lemma resume_unit_flag {A : Type} (p p' : Proc UOp A) (σ σ' : State) :
  resume_unit p σ = Some (p', σ') → syncInProgress σ' = syncInProgress σ.
Proof.
  destruct p as [a|e|X op k]; simpl; try done.
  pose proof (perform_flag op σ) as H1. destruct (perform op σ) as [x σ1].
  pose proof (advance_unit_flag (k x) σ1) as H2.
  destruct (advance_unit (k x) σ1) as [q σ2]. simpl in *.
  intros [= <- <-]. congruence.
Qed.

(** A unit inside the manager stays a unit, and leaves the flag alone. *)
Lemma advance_lift {A : Type} (p : Proc UOp A) (σ : State) :
  ∃ p' σ',
    advance (lift p) σ = (Running (lift p'), σ')
    ∧ syncInProgress σ' = syncInProgress σ.
Proof.
  revert σ. induction p as [a|e|X op k IH]; intros σ; simpl.
  - by exists (Ret a), σ.
  - by exists (Throw e), σ.
  - destruct (awaited op) eqn:Haw.
    + exists (Vis op k), σ. done.
    + pose proof (perform_flag op σ) as H1.
      destruct (perform op σ) as [x σ1].
      destruct (IH x σ1) as (p' & σ' & -> & H2).
      exists p', σ'. simpl in *. split; [done | congruence].
Qed.

Lemma resume_lift {A : Type} (p : Proc UOp A) (t : Thread A) (σ σ' : State) :
  resume (lift p) σ = Some (t, σ') →
  (∃ p', t = Running (lift p')) ∧ syncInProgress σ' = syncInProgress σ.
Proof.
  destruct p as [a|e|X op k]; simpl; try done.
  pose proof (perform_flag op σ) as H1. destruct (perform op σ) as [x σ1].
  destruct (advance_lift (k x) σ1) as (p' & σ2 & -> & H2).
  intros [= <- <-]. split; [eauto | simpl in *; congruence].
Qed.

Lemma instantSync_lifted (d : DataType) (σ : State) :
  ∃ p' σ',
    advance (instantSync d) σ = (Running (lift p'), σ')
    ∧ syncInProgress σ' = syncInProgress σ.
Proof.
  unfold instantSync. simpl.
  destruct (nonempty (accessToken σ)).
  - apply advance_lift.
  - by exists (Ret false), σ.
Qed.

(** A call that finds the flag set returns at once and changes
    nothing. *)
Lemma advance_syncAll_busy (σ : State) :
  syncInProgress σ = true →
  advance syncAll σ = (Running (Ret busy_report), σ).
Proof. intros Hbusy. unfold syncAll. simpl. by rewrite Hbusy. Qed.

(** A call that finds the flag free sets it and holds the lock. *)
Lemma advance_syncAll_idle (σ : State) :
  syncInProgress σ = false →
  ∃ t σ',
    advance syncAll σ = (t, σ') ∧ holds_lock t ∧ syncInProgress σ' = true.
Proof.
  intros Hidle. unfold syncAll. generalize units as ps. intros ps.
  simpl. rewrite Hidle. simpl.
  pose proof (start_all_flag ps (set_syncInProgress true σ)) as Hflag.
  destruct (start_all ps (set_syncInProgress true σ)) as [children σ1].
  eexists _, _. split; [done|]. split; [|done].
  intros rs σ2. eexists _, _. simpl. split; [done|]. split; [done|].
  split; [done|].
  intros σ3 t' σ'. simpl. intros [= <- <-]. done.
Qed.

(** A lock holder keeps the flag set until the step that ends it. *)
Lemma holds_lock_step (m : Move) (t t' : Thread SyncReport) (σ σ' : State) :
  holds_lock t →
  syncInProgress σ = true →
  thread_step m t σ = Some (t', σ') →
  (holds_lock t' ∧ syncInProgress σ' = true)
  ∨ (finished t' = true ∧ syncInProgress σ' = false).
Proof.
  intros Hlock Hflag Hstep.
  destruct t as [p|children k], m as [|j|]; simpl in *; try done.
  - destruct Hlock as [_ Hrel]. right. by eapply Hrel.
  - destruct (children !! j) as [c|]; simpl in *; [|done].
    destruct (resume_unit c σ) as [[c' σ1]|] eqn:Hc; simpl in *; [|done].
    injection Hstep as <- <-. left. split; [done|].
    apply resume_unit_flag in Hc. congruence.
  - destruct (mapM settled children) as [rs|]; simpl in *; [|done].
    destruct (Hlock (settle <$> rs) σ) as (p & σ1 & Hadv & Hf & Hnf & Hrel).
    rewrite Hadv in Hstep. injection Hstep as <- <-.
    left. split; [done | congruence].
Qed.

Lemma finished_no_step {A : Type} (m : Move) (t : Thread A) (σ : State) :
  finished t = true → thread_step m t σ = None.
Proof.
  destruct t as [[a|e|X op k]|children k], m; simpl; done.
Qed.

Lemma lifted_step (m : Move) (t t' : Thread bool) (σ σ' : State) :
  lifted t →
  thread_step m t σ = Some (t', σ') →
  lifted t' ∧ syncInProgress σ' = syncInProgress σ.
Proof.
  intros [p ->] Hstep. destruct m; simpl in Hstep; try done.
  apply resume_lift in Hstep as [[p' ->] Hflag]. split; [by exists p'|done].
Qed.

(** One step of the event loop keeps [one_full_sync]. *)
Lemma one_full_sync_step (e : Event) (P P' : Pool) :
  one_full_sync P → step e P = Some P' → one_full_sync P'.
Proof.
  intros (Hinst & first & rest & Hfulls & Hcase) Hstep.
  destruct e as [|d|i m|i m]; unfold step in Hstep.
  - (* a further syncAll *)
    destruct (advance syncAll (state P)) as [t σ] eqn:Hadv.
    injection Hstep as <-. split; [done|]. simpl.
    exists first, (rest ++ [t]). rewrite Hfulls. split; [done|].
    destruct Hcase as [Hfin|(Hlock & Hflag & Hrest)]; [by left|right].
    rewrite (advance_syncAll_busy _ Hflag) in Hadv. injection Hadv as <- <-.
    split_and!; try done. apply Forall_app. split; [done|]. by constructor.
  - (* an instantSync *)
    destruct (instantSync_lifted d (state P)) as (p' & σ' & Hadv & Hflag).
    rewrite Hadv in Hstep. injection Hstep as <-. split; simpl.
    + apply Forall_app. split; [done|]. constructor; [by exists p'|done].
    + exists first, rest. split; [done|].
      destruct Hcase as [Hfin|(Hlock & Hf & Hrest)]; [by left|right].
      split_and!; try done. congruence.
  - (* a full sync goes on *)
    rewrite Hfulls in Hstep.
    destruct i as [|i]; simpl in Hstep.
    + destruct (thread_step m first (state P)) as [[t' σ]|] eqn:Hts;
        simpl in Hstep; [|done].
      injection Hstep as <-. split; [done|]. simpl.
      exists t', rest. split; [done|].
      destruct Hcase as [Hfin|(Hlock & Hflag & Hrest)].
      * by rewrite (finished_no_step m first _ Hfin) in Hts.
      * destruct (holds_lock_step m first t' _ σ Hlock Hflag Hts)
          as [[Hl Hf]|[Hfin Hf]]; [right|left]; done.
    + destruct (rest !! i) as [t|] eqn:Hi; simpl in Hstep; [|done].
      destruct (thread_step m t (state P)) as [[t' σ]|] eqn:Hts;
        simpl in Hstep; [|done].
      injection Hstep as <-. split; [done|]. simpl.
      exists first, (<[i := t']> rest). split; [done|].
      destruct Hcase as [Hfin|(Hlock & Hflag & Hrest)]; [by left|].
      rewrite Forall_lookup in Hrest. rewrite (Hrest i t Hi) in Hts.
      destruct m; done.
  - (* an instantSync goes on *)
    destruct (instants P !! i) as [t|] eqn:Hi; simpl in Hstep; [|done].
    destruct (thread_step m t (state P)) as [[t' σ]|] eqn:Hts;
      simpl in Hstep; [|done].
    injection Hstep as <-.
    assert (lifted t) as Hl by (by eapply Forall_lookup_1).
    destruct (lifted_step m t t' _ σ Hl Hts) as [Hl' Hflag].
    split; simpl.
    + apply Forall_insert; done.
    + exists first, rest. split; [done|].
      destruct Hcase as [Hfin|(Hlock & Hf & Hrest)]; [by left|right].
      split_and!; try done. congruence.
Qed.

Lemma one_full_sync_exec (es : list Event) (P P' : Pool) :
  one_full_sync P → exec es P = Some P' → one_full_sync P'.
Proof.
  revert P. induction es as [|e es IH]; intros P HP; simpl.
  - by intros [= <-].
  - destruct (step e P) as [P1|] eqn:Hstep; simpl; [|done].
    intros Hexec. eapply IH; [|done]. by eapply one_full_sync_step.
Qed.

(** C2: a [syncAll] that finds a full sync in flight returns at once
    with the failure ["Sync already in progress"], sends nothing and
    leaves the whole state as it was; and from the call of a first
    [syncAll] on, under every interleaving of further calls and steps,
    as long as that first call has not ended every other [syncAll] has
    been refused and the next one is refused too. *)
Theorem syncAll_refused_while_busy (σ : State) (others : list (Thread bool))
  (es : list Event) (P : Pool) :
  (syncInProgress σ = true →
   advance syncAll σ = (Running (Ret busy_report), σ)
   ∧ run_job syncAll σ = (Returned busy_report, σ))
  ∧ (syncInProgress σ = false →
     Forall lifted others →
     exec (CallSyncAll :: es)
          {| state := σ; fulls := []; instants := others |} = Some P →
     ∃ first rest,
       fulls P = first :: rest
       ∧ (finished first = false →
          holds_lock first
          ∧ syncInProgress (state P) = true
          ∧ Forall (λ t, t = Running (Ret busy_report)) rest
          ∧ step CallSyncAll P
            = Some {| state := state P;
                      fulls := fulls P ++ [Running (Ret busy_report)];
                      instants := instants P |})).
Proof.
  split.
  - intros Hbusy. split; [by apply advance_syncAll_busy|].
    by apply run_syncAll_busy.
  - intros Hidle Hothers Hexec.
    change (exec (CallSyncAll :: es) ?P0)
      with (step CallSyncAll P0 ≫= exec es) in Hexec.
    unfold step in Hexec. simpl state in Hexec.
    destruct (advance_syncAll_idle σ Hidle) as (t & σ1 & Hadv & Hlock & Hflag).
    rewrite Hadv in Hexec. simpl in Hexec.
    assert (one_full_sync P) as (_ & first & rest & Hfulls & Hcase).
    { eapply one_full_sync_exec; [|exact Hexec].
      split; [done|]. exists t, []. split; [done|]. right. by split_and!. }
    exists first, rest. split; [done|]. intros Hrun.
    destruct Hcase as [Hfin|(Hl & Hf & Hrest)]; [congruence|].
    split_and!; try done.
    unfold step. by rewrite (advance_syncAll_busy _ Hf).
Qed.

(** ** What a unit sends *)

Lemma sends_only_weaken {A : Type} (P Q : Call → Prop) (p : Proc UOp A) :
  (∀ c, P c → Q c) → sends_only P p → sends_only Q p.
Proof.
  intros HPQ. induction p as [a|e|X op k IH]; simpl; try done.
  intros [H1 H2]. split; [|by intros x; apply IH].
  destruct op; try done. by apply HPQ.
Qed.

Lemma sends_only_bind {A B : Type} (P : Call → Prop) (m : Proc UOp A)
  (f : A → Proc UOp B) :
  sends_only P m → (∀ a, sends_only P (f a)) → sends_only P (m ≫= f).
Proof.
  intros Hm Hf. induction m as [a|e|X op k IH]; simpl in *.
  - apply Hf.
  - done.
  - destruct Hm as [H1 H2]. split; [done|]. intros x. by apply IH.
Qed.

Lemma returns_True {A : Type} (p : Proc UOp A) : returns (λ _, True) p.
Proof. induction p as [a|e|X op k IH]; simpl; try done. Qed.

Lemma returns_bind {A B : Type} (R : A → Prop) (Q : B → Prop)
  (m : Proc UOp A) (f : A → Proc UOp B) :
  returns R m → (∀ a, R a → returns Q (f a)) → returns Q (m ≫= f).
Proof.
  intros Hm Hf. induction m as [a|e|X op k IH]; simpl in *.
  - by apply Hf.
  - done.
  - intros x. by apply IH.
Qed.

(** Sequencing, when the first part tells something about its result. *)
Lemma sends_only_bind_ret {A B : Type} (P : Call → Prop) (R : A → Prop)
  (m : Proc UOp A) (f : A → Proc UOp B) :
  sends_only P m → returns R m → (∀ a, R a → sends_only P (f a)) →
  sends_only P (m ≫= f).
Proof.
  intros Hm Hr Hf. induction m as [a|e|X op k IH]; simpl in *.
  - by apply Hf.
  - done.
  - destruct Hm as [H1 H2]. split; [done|]. intros x. by apply IH.
Qed.

Lemma sends_only_try_catch {A : Type} (P : Call → Prop) (p : Proc UOp A)
  (h : Error → Proc UOp A) :
  sends_only P p → (∀ e, sends_only P (h e)) → sends_only P (try_catch p h).
Proof.
  intros Hp Hh. induction p as [a|e|X op k IH]; simpl in *.
  - done.
  - apply Hh.
  - destruct Hp as [H1 H2]. split; [done|]. intros x. by apply IH.
Qed.

Lemma serve_requests {X : Type} (req : Request X) (σ : State) :
  requests (snd (serve req σ)) = requests σ.
Proof.
  destruct req; simpl; try done;
    destruct (stored file σ) as [[? ?]|]; done.
Qed.

Lemma fetch_requests {X : Type} (token : string) (req : Request X) (σ : State) :
  requests (snd (fetch token req σ)) = Sent token req :: requests σ.
Proof.
  unfold fetch. destruct (network σ) as [|[w dt] rest]; simpl; [done|].
  destruct w; simpl; try done.
  case_bool_decide; simpl; [by rewrite serve_requests|done].
Qed.

(** What a program sent during a run is what [sends_only] allows. *)
Lemma sends_only_run {A : Type} (P : Call → Prop) (p : Proc UOp A) (σ : State) :
  sends_only P p →
  ∃ new, requests (snd (run p σ)) = new ++ requests σ ∧ Forall P new.
Proof.
  revert σ. induction p as [a|e|X op k IH]; intros σ Hp; simpl.
  - by exists [].
  - by exists [].
  - destruct Hp as [Hop Hk]. unfold run. simpl.
    destruct (perform op σ) as [x σ1] eqn:Hperf.
    destruct (IH x σ1 (Hk x)) as (new & Hnew & HP).
    unfold run in Hnew. rewrite Hnew.
    destruct op; simpl in Hperf;
      try (injection Hperf as <- <-; by exists new).
    pose proof (fetch_requests token req σ) as Hreq.
    rewrite Hperf in Hreq. simpl in Hreq. rewrite Hreq.
    exists (new ++ [Sent token req]). rewrite <- app_assoc. split; [done|].
    apply Forall_app. split; [done|]. by constructor.
Qed.

Lemma sends_getSetting (key : string) (dflt : json) :
  sends_only quiet (getSetting key dflt).
Proof. simpl. done. Qed.

Lemma sends_getDeviceId : sends_only quiet getDeviceId.
Proof.
  unfold getDeviceId. apply sends_only_bind; [apply sends_getSetting|].
  intros d. destruct (truthy d); simpl; done.
Qed.

Lemma sends_getLocalDataWithMetadata (key : string) (getData : Proc UOp json) :
  sends_only quiet getData →
  sends_only quiet (getLocalDataWithMetadata key getData).
Proof.
  intros Hget. unfold getLocalDataWithMetadata.
  apply sends_only_bind; [done|]. intros d.
  apply sends_only_bind; [apply sends_getSetting|]. intros t.
  apply sends_only_bind; [apply sends_getDeviceId|]. intros i. done.
Qed.

Lemma sends_syncData (d : json) : sends_only quiet (syncData d).
Proof.
  unfold syncData. apply sends_only_bind; [by simpl|]. intros now.
  apply sends_only_bind; [apply sends_getDeviceId|]. intros i. done.
Qed.

Lemma returns_syncData (d : json) : returns (λ e, data e = d) (syncData d).
Proof.
  unfold syncData.
  apply (returns_bind (λ _, True)); [apply returns_True|]. intros now _.
  apply (returns_bind (λ _, True)); [apply returns_True|]. intros i _. done.
Qed.

Lemma sends_ensureValidToken : sends_only quiet ensureValidToken.
Proof.
  unfold ensureValidToken. simpl. split; [done|]. intros t.
  destruct (nonempty t) as [bearer|]; simpl; [|done].
  split; [done|]. intros [|code|[]]; simpl; try done.
  split; [done|]. intros fn.
  destruct ((code =? 401) && fn); simpl; [|done].
  split; [done|]. intros t'. destruct (nonempty t'); simpl; done.
Qed.

Lemma sends_driveRequest {X : Type} (token : string) (req : Request X) :
  sends_only (λ c, c = Sent token req) (driveRequest token req).
Proof.
  unfold driveRequest. simpl. split; [done|].
  intros [|code|x]; simpl; try done. by destruct (code =? 401).
Qed.

Lemma sends_findFile (token name : string) :
  sends_only quiet (findFile token name).
Proof.
  unfold findFile. apply sends_only_try_catch; [|done].
  apply sends_only_bind.
  - eapply sends_only_weaken; [|apply sends_driveRequest]. by intros c ->.
  - intros [|code|files]; done.
Qed.

Lemma sends_readFile (token : string) (file : FileId) :
  sends_only quiet (readFile token file).
Proof.
  unfold readFile. apply sends_only_try_catch; [|done].
  apply sends_only_bind.
  - eapply sends_only_weaken; [|apply sends_driveRequest]. by intros c ->.
  - intros [|code|[| |e|]]; done.
Qed.

Lemma sends_writeFile (token name : string) (content : SyncableData)
  (existing : option FileId) :
  sends_only (λ c, uploaded c = Some (name, content))
             (writeFile token name content existing).
Proof.
  unfold writeFile. apply sends_only_try_catch; [|done].
  apply sends_only_bind.
  - eapply sends_only_weaken; [|apply sends_driveRequest].
    intros c ->. by destruct existing.
  - intros [|code|i]; done.
Qed.

Lemma sends_restoreEach (es : list (string * json)) :
  sends_only quiet (restoreEach es).
Proof. induction es as [|[k v] es IH]; simpl; [done|]. split; done. Qed.

Lemma syncable_prefixes (key : string) :
  syncable key = true →
  String.prefix "sync_" key = false
  ∧ String.prefix "device_" key = false
  ∧ String.prefix "google_" key = false.
Proof.
  unfold syncable. rewrite !andb_true_iff, !negb_true_iff.
  by intros [[H1 H2] H3].
Qed.

Lemma syncableSettings_keys (allSettings : gmap string json) (e : SyncableData) :
  data e = syncableSettings allSettings →
  settings_upload (Sent "" (CreateFile SYNC_FILES.settings e)).
Proof.
  intros He name e' [= <- <-]. split; [done|].
  eexists. split; [exact He|]. intros key v Hin.
  apply list_elem_of_In, filter_In in Hin as [_ Hs]. by apply syncable_prefixes.
Qed.

Lemma sends_syncSettings : sends_only settings_upload syncSettings.
Proof.
  assert (∀ c, quiet c → settings_upload c) as Hquiet.
  { intros c Hc name e Hup. unfold quiet in Hc. congruence. }
  assert (∀ m d, data d = syncableSettings m →
             ∀ c, uploaded c = Some (SYNC_FILES.settings, d) → settings_upload c)
    as Hup.
  { intros m d Hd c Hc name e Hce. rewrite Hc in Hce. injection Hce as <- <-.
    by apply (syncableSettings_keys m d Hd SYNC_FILES.settings d). }
  unfold syncSettings.
  apply sends_only_bind;
    [eapply sends_only_weaken; [exact Hquiet|apply sends_ensureValidToken]|].
  intros token. destruct (nonempty token) as [tok|]; [|done].
  apply sends_only_try_catch; [|done].
  apply sends_only_bind; [by simpl|]. intros allSettings.
  apply sends_only_bind;
    [eapply sends_only_weaken;
       [exact Hquiet|by apply sends_getLocalDataWithMetadata]|].
  intros localData.
  apply sends_only_bind;
    [eapply sends_only_weaken; [exact Hquiet|apply sends_findFile]|].
  intros remoteFile.
  apply sends_only_bind; [|intros []; simpl; split; [done|]; intros now; done].
  destruct remoteFile as [remoteFile|].
  - apply sends_only_bind;
      [eapply sends_only_weaken; [exact Hquiet|apply sends_readFile]|].
    intros [[remoteData|]|]; [|by rewrite resolveRemote_Unshaped|done].
    rewrite resolveRemote_Shaped.
    destruct (winner (resolveConflict localData remoteData)).
    + apply (sends_only_bind_ret _ (λ e, data e = syncableSettings allSettings));
        [eapply sends_only_weaken; [exact Hquiet|apply sends_syncData]
        |apply returns_syncData|].
      intros d Hd. apply sends_only_bind; [|done].
      eapply sends_only_weaken; [|apply sends_writeFile].
      by apply (Hup allSettings).
    + apply sends_only_bind.
      * by destruct (entries _).
      * intros es. eapply sends_only_weaken; [exact Hquiet|].
        apply sends_restoreEach.
  - apply (sends_only_bind_ret _ (λ e, data e = syncableSettings allSettings));
      [eapply sends_only_weaken; [exact Hquiet|apply sends_syncData]
      |apply returns_syncData|].
    intros d Hd. apply sends_only_bind; [|done].
    eapply sends_only_weaken; [|apply sends_writeFile].
    by apply (Hup allSettings).
Qed.

(** ** Running one unit *)

Lemma run_bind {A B : Type} (m : Proc UOp A) (f : A → Proc UOp B) (σ : State) :
  run (m ≫= f) σ
  = match run m σ with
    | (Returned a, σ') => run (f a) σ'
    | (Threw e, σ') => (Threw e, σ')
    end.
Proof. apply interp_bind. Qed.

Lemma run_try_catch {A : Type} (p : Proc UOp A) (h : Error → Proc UOp A)
  (σ : State) :
  run (try_catch p h) σ
  = match run p σ with
    | (Returned a, σ') => (Returned a, σ')
    | (Threw e, σ') => run (h e) σ'
    end.
Proof. apply interp_try_catch. Qed.

Lemma nonempty_Some (tok : string) : tok ≠ "" → nonempty (Some tok) = Some tok.
Proof. by destruct tok. Qed.

(** A request that finds the network up and carries a token Drive
    accepts is served. *)
Lemma fetch_up {X : Type} (tok : string) (req : Request X) (σ : State)
  (dt : N) (rest : list (Weather * N)) :
  network σ = (Up, dt) :: rest →
  tok ∈ validTokens σ →
  fetch tok req σ = serve req (depart (Sent tok req) dt rest σ).
Proof.
  intros Hnet Htok. unfold fetch. rewrite Hnet. simpl.
  by rewrite bool_decide_eq_true_2.
Qed.

Lemma run_ensureValidToken_up (tok : string) (σ : State) (dt : N)
  (rest : list (Weather * N)) :
  accessToken σ = Some tok → tok ≠ "" →
  tok ∈ validTokens σ →
  network σ = (Up, dt) :: rest →
  run ensureValidToken σ
  = (Returned (Some tok), depart (Sent tok About) dt rest σ).
Proof.
  intros Hacc Hne Hvalid Hnet. unfold run, ensureValidToken. simpl.
  rewrite Hacc, (nonempty_Some tok Hne). simpl.
  rewrite (fetch_up tok About σ dt rest Hnet Hvalid). simpl. by rewrite Hacc.
Qed.

Lemma run_getDeviceId (σ : State) :
  run getDeviceId σ = (Returned (found_deviceId σ), with_deviceId σ).
Proof.
  unfold run, getDeviceId, found_deviceId, with_deviceId. simpl.
  destruct (truthy (default (JStr "") (settings σ !! "device_id"))) eqn:H;
    simpl; [by destruct σ|].
  unfold found_deviceId. by rewrite H.
Qed.

Lemma truthy_found_deviceId (σ : State) : truthy (found_deviceId σ) = true.
Proof.
  unfold found_deviceId.
  destruct (truthy (default (JStr "") (settings σ !! "device_id"))) eqn:H; done.
Qed.


Lemma run_findFile_up (tok name : string) (σ : State) (dt : N)
  (rest : list (Weather * N)) :
  tok ∈ validTokens σ →
  network σ = (Up, dt) :: rest →
  run (findFile tok name) σ
  = (Returned (head (named name σ)), depart (Sent tok (ListFiles name)) dt rest σ).
Proof.
  intros Hvalid Hnet. unfold run, findFile, driveRequest. simpl.
  by rewrite (fetch_up tok _ σ dt rest Hnet Hvalid).
Qed.

Lemma run_readFile_up (tok : string) (i : FileId) (σ : State) (dt : N)
  (rest : list (Weather * N)) (f : DriveFile) (c : Content) :
  tok ∈ validTokens σ →
  network σ = (Up, dt) :: rest →
  stored i σ = Some (f, c) →
  run (readFile tok i) σ
  = (Returned (parsed c),
     depart (Sent tok (GetMedia i)) dt rest σ).
Proof.
  intros Hvalid Hnet Hst. unfold run, readFile, driveRequest. simpl.
  rewrite (fetch_up tok _ σ dt rest Hnet Hvalid). simpl.
  unfold stored in *. simpl. rewrite Hst. by destruct c.
Qed.

Lemma run_writeFile_create_up (tok name : string) (e : SyncableData)
  (σ : State) (dt : N) (rest : list (Weather * N)) :
  tok ∈ validTokens σ →
  network σ = (Up, dt) :: rest →
  run (writeFile tok name e None) σ
  = (Returned (Some (nextFileId σ)),
     snd (serve (CreateFile name e)
            (depart (Sent tok (CreateFile name e)) dt rest σ))).
Proof.
  intros Hvalid Hnet. unfold run, writeFile, driveRequest. simpl.
  by rewrite (fetch_up tok _ σ dt rest Hnet Hvalid).
Qed.

Lemma run_writeFile_update_up (tok name : string) (e : SyncableData)
  (i : FileId) (σ : State) (dt : N) (rest : list (Weather * N))
  (f : DriveFile) (c : Content) :
  tok ∈ validTokens σ →
  network σ = (Up, dt) :: rest →
  stored i σ = Some (f, c) →
  run (writeFile tok name e (Some i)) σ
  = (Returned (Some i),
     snd (serve (UpdateFile i name e)
            (depart (Sent tok (UpdateFile i name e)) dt rest σ))).
Proof.
  intros Hvalid Hnet Hst. unfold run, writeFile, driveRequest. simpl.
  rewrite (fetch_up tok _ σ dt rest Hnet Hvalid). simpl.
  unfold stored in *. simpl. by rewrite Hst.
Qed.

(** From here on programs are run by rewriting, helper by helper. *)
#[local] Arguments mbind : simpl never.
#[local] Arguments getDeviceId : simpl never.
#[local] Arguments getSetting : simpl never.
#[local] Arguments setSetting : simpl never.
#[local] Arguments findFile : simpl never.
#[local] Arguments readFile : simpl never.
#[local] Arguments writeFile : simpl never.
#[local] Arguments ensureValidToken : simpl never.
#[local] Arguments syncData : simpl never.
#[local] Arguments getLocalDataWithMetadata : simpl never.
#[local] Arguments fetch : simpl never.
#[local] Arguments serve : simpl never.
#[local] Arguments found_deviceId : simpl never.

Lemma run_ret {A : Type} (a : A) (σ : State) : run (mret a) σ = (Returned a, σ).
Proof. done. Qed.

Lemma run_getSetting (key : string) (dflt : json) (σ : State) :
  run (getSetting key dflt) σ = (Returned (default dflt (settings σ !! key)), σ).
Proof. done. Qed.

Lemma run_setSetting (key : string) (v : json) (σ : State) :
  run (setSetting key v) σ
  = (Returned tt, set_settings (<[key := v]> (settings σ)) σ).
Proof. done. Qed.

Lemma run_call {X : Type} (op : UOp X) (σ : State) :
  run (call op) σ = (Returned (fst (perform op σ)), snd (perform op σ)).
Proof. unfold run, call. simpl. by destruct (perform op σ). Qed.

Lemma run_getLocalDataWithMetadata (key : string) (d : json) (σ : State) :
  run (getLocalDataWithMetadata key (mret d)) σ
  = (Returned (local_envelope key d σ), with_deviceId σ).
Proof.
  unfold getLocalDataWithMetadata.
  by rewrite run_bind, run_ret, run_bind, run_getSetting, run_bind,
    run_getDeviceId, run_ret.
Qed.

Lemma run_syncData (d : json) (σ : State) :
  run (syncData d) σ = (Returned (fresh_envelope d σ), with_deviceId σ).
Proof.
  unfold syncData.
  by rewrite run_bind, run_call, run_bind, run_getDeviceId, run_ret.
Qed.


(** The seven units are instances of one shape. *)
Lemma syncNotes_shape :
  syncNotes
  = domain_unit (call LoadNotesFromDB) "notes" SYNC_FILES.notes
      (λ d _, restored ← exc (restoredNotes d); call (SaveNotesToDB restored)).
Proof. reflexivity. Qed.

Lemma syncTasks_shape :
  syncTasks
  = domain_unit (call LoadTasksFromDB) "tasks" SYNC_FILES.tasks
      (λ d _, call (SaveTasksToDB d)).
Proof. reflexivity. Qed.

Lemma syncFolders_shape :
  syncFolders
  = domain_unit (call LoadFolders) "folders" SYNC_FILES.folders
      (λ d _, call (SaveFolders d)).
Proof. reflexivity. Qed.

Lemma syncSections_shape :
  syncSections
  = domain_unit (getSetting "todo_sections" (JArr [])) "sections"
      SYNC_FILES.sections (λ d _, setSetting "todo_sections" d).
Proof. reflexivity. Qed.

Lemma syncSettings_shape :
  syncSettings
  = domain_unit (allSettings ← call GetAllSettings;
                 mret (syncableSettings allSettings))
      "settings" SYNC_FILES.settings
      (λ d _, es ← exc (entries d); restoreEach es).
Proof. reflexivity. Qed.

Lemma syncActivity_shape :
  syncActivity
  = domain_unit (call GetActivities) "activity" SYNC_FILES.activity
      (λ d activityLog,
         merged ← exc (mergeActivity d activityLog);
         setSetting "userActivityLog" merged).
Proof. reflexivity. Qed.

Lemma syncMedia_shape :
  syncMedia
  = domain_unit getLocalMediaIndex "media" SYNC_FILES.media
      (λ d _, setSetting "media_index" (JStr (JSON_stringify d))).
Proof. reflexivity. Qed.

Section Shape.

Variable load : Proc UOp json.
Variable read : State → json.
Hypothesis run_load : ∀ σ, run load σ = (Returned (read σ), σ).
Variables key name : string.
Variable restore : json → json → Proc UOp unit.

Variables (tok : string) (σ : State).
Hypothesis Haccess : accessToken σ = Some tok.
Hypothesis Hnonempty : tok ≠ "".
Hypothesis Hvalid : tok ∈ validTokens σ.

(** Up to the look-up of the blob every unit runs alike. *)
Lemma run_domain_unit_looked (d1 d2 : N) (rest : list (Weather * N)) :
  network σ = (Up, d1) :: (Up, d2) :: rest →
  run (domain_unit load key name restore) σ
  = let σ3 := looked tok name d1 d2 rest σ in
    let σ1 := depart (Sent tok About) d1 ((Up, d2) :: rest) σ in
    let localPayload := read σ1 in
    let localData := local_envelope key localPayload σ1 in
    match
      run (match head (named name σ) with
           | Some remoteFile =>
               remoteData ← readFile tok (fileId remoteFile);
               match remoteData with
               | Some remoteData =>
                   r ← exc (resolveRemote localData remoteData);
                   match winner r with
                   | remote => restore (winner_data r) localPayload
                   | local =>
                       syncData ← syncData localPayload;
                       writeFile tok name syncData (Some (fileId remoteFile));;
                       mret tt
                   end
               | None => mret tt
               end
           | None =>
               syncData ← syncData localPayload;
               writeFile tok name syncData None;;
               mret tt
           end) σ3
    with
    | (Returned _, σ4) => (Returned true, stamp key σ4)
    | (Threw _, σ4) => (Returned false, σ4)
    end.
Proof.
  intros Hnet. unfold domain_unit.
  rewrite run_bind, (run_ensureValidToken_up tok σ d1 _ Haccess Hnonempty Hvalid Hnet).
  rewrite (nonempty_Some tok Hnonempty).
  rewrite run_try_catch, run_bind, run_load.
  rewrite run_bind, run_getLocalDataWithMetadata.
  rewrite run_bind, (run_findFile_up tok name _ d2 rest) by done.
  rewrite run_bind. cbv zeta.
  replace (named name (with_deviceId (depart (Sent tok About) d1 ((Up, d2) :: rest) σ)))
    with (named name σ) by done.
  fold (looked tok name d1 d2 rest σ).
  destruct (run _ (looked tok name d1 d2 rest σ)) as [[[]|e] σ4]; [|done].
  rewrite run_bind, run_call. done.
Qed.

(** No blob of that name: first sync. *)
Lemma run_domain_unit_absent (d1 d2 d3 : N) (rest : list (Weather * N)) :
  network σ = (Up, d1) :: (Up, d2) :: (Up, d3) :: rest →
  named name σ = [] →
  run (domain_unit load key name restore) σ
  = let σ1 := depart (Sent tok About) d1 ((Up, d2) :: (Up, d3) :: rest) σ in
    let σ3 := looked tok name d1 d2 ((Up, d3) :: rest) σ in
    let e := fresh_envelope (read σ1) σ3 in
    (Returned true,
     stamp key
       (snd (serve (CreateFile name e)
               (depart (Sent tok (CreateFile name e)) d3 rest
                  (with_deviceId σ3))))).
Proof.
  intros Hnet Hnamed. rewrite (run_domain_unit_looked d1 d2 _ Hnet).
  cbv zeta. rewrite Hnamed.
  change (head (@nil DriveFile)) with (@None DriveFile). cbv iota.
  rewrite run_bind, run_syncData.
  rewrite run_bind, (run_writeFile_create_up tok name _ _ d3 rest) by done.
  by rewrite run_ret.
Qed.



(** The blob holds an envelope and the local side is newer. *)
Lemma run_domain_unit_local (d1 d2 d3 d4 : N) (rest : list (Weather * N))
  (f f' : DriveFile) (e : SyncableData) :
  network σ = (Up, d1) :: (Up, d2) :: (Up, d3) :: (Up, d4) :: rest →
  head (named name σ) = Some f →
  stored (fileId f) σ = Some (f', Envelope e) →
  let σ1 :=
    depart (Sent tok About) d1 ((Up, d2) :: (Up, d3) :: (Up, d4) :: rest) σ in
  winner (resolveConflict (local_envelope key (read σ1) σ1) e) = local →
  run (domain_unit load key name restore) σ
  = let σ4 :=
      depart (Sent tok (GetMedia (fileId f))) d3 ((Up, d4) :: rest)
        (looked tok name d1 d2 ((Up, d3) :: (Up, d4) :: rest) σ) in
    let e' := fresh_envelope (read σ1) σ4 in
    (Returned true,
     stamp key
       (snd (serve (UpdateFile (fileId f) name e')
               (depart (Sent tok (UpdateFile (fileId f) name e')) d4 rest
                  (with_deviceId σ4))))).
Proof.
  intros Hnet Hnamed Hstored σ1 Hwin.
  rewrite (run_domain_unit_looked d1 d2 _ Hnet).
  cbv zeta. rewrite Hnamed.
  rewrite run_bind, (run_readFile_up tok _ _ d3 _ f' (Envelope e)) by done.
  change (parsed (Envelope e)) with (Some (Shaped e)). cbv iota.
  rewrite resolveRemote_Shaped. fold σ1. rewrite Hwin.
  rewrite run_bind, run_syncData.
  rewrite run_bind, (run_writeFile_update_up tok name _ _ _ d4 rest f' (Envelope e))
    by done.
  by rewrite run_ret.
Qed.

(** The blob holds an envelope and the local side is not newer. *)
Lemma run_domain_unit_remote (d1 d2 d3 : N) (rest : list (Weather * N))
  (f f' : DriveFile) (e : SyncableData) :
  network σ = (Up, d1) :: (Up, d2) :: (Up, d3) :: rest →
  head (named name σ) = Some f →
  stored (fileId f) σ = Some (f', Envelope e) →
  let σ1 := depart (Sent tok About) d1 ((Up, d2) :: (Up, d3) :: rest) σ in
  winner (resolveConflict (local_envelope key (read σ1) σ1) e) = remote →
  run (domain_unit load key name restore) σ
  = match
      run (restore (data e) (read σ1))
          (depart (Sent tok (GetMedia (fileId f))) d3 rest
             (looked tok name d1 d2 ((Up, d3) :: rest) σ))
    with
    | (Returned _, σ5) => (Returned true, stamp key σ5)
    | (Threw _, σ5) => (Returned false, σ5)
    end.
Proof.
  intros Hnet Hnamed Hstored σ1 Hwin.
  rewrite (run_domain_unit_looked d1 d2 _ Hnet).
  cbv zeta. rewrite Hnamed.
  rewrite run_bind, (run_readFile_up tok _ _ d3 _ f' (Envelope e)) by done.
  change (parsed (Envelope e)) with (Some (Shaped e)). cbv iota.
  rewrite resolveRemote_Shaped. fold σ1. rewrite Hwin.
  assert (winner_data (resolveConflict (local_envelope key (read σ1) σ1) e)
          = data e) as ->.
  { revert Hwin. unfold resolveConflict. by destruct (js_gt _ _). }
  done.
Qed.

End Shape.

Lemma run_LoadNotesFromDB (σ : State) :
  run (call LoadNotesFromDB) σ = (Returned (notesDB σ), σ).
Proof. done. Qed.

(** ** The activity merge *)

Lemma strict_eq_primitive (a b : option json) :
  primitive a → primitive b → strict_eq a b = true ↔ a = b.
Proof.
  destruct a as [[]|], b as [[]|]; simpl; try done;
    intros _ _; split; try discriminate; try congruence.
  - intros H. apply Bool.eqb_prop in H. congruence.
  - intros [= ->]. apply Bool.eqb_reflx.
  - intros H. apply Z.eqb_eq in H. congruence.
  - intros [= ->]. apply Z.eqb_refl.
  - intros H. apply String.eqb_eq in H. congruence.
  - intros [= ->]. apply String.eqb_refl.
  - intros H. apply Z.eqb_eq in H. congruence.
  - intros [= ->]. apply Z.eqb_refl.
Qed.

Lemma prop_id_keyed (e : json) : keyed e → prop e "id" = inr (entry_id e).
Proof. by intros [[fs ->] _]. Qed.

Lemma truthy_keyed (e : json) : keyed e → truthy e = true.
Proof. by intros [[fs ->] _]. Qed.

Lemma seen_spec (acc : list json) (x : json) :
  Forall keyed acc → keyed x →
  seen acc x = true ↔ entry_id x ∈ entry_id <$> acc.
Proof.
  intros Hacc Hx. unfold seen. rewrite existsb_exists, list_elem_of_fmap.
  split.
  - intros (e & He & Heq). exists e.
    apply list_elem_of_In in He. split; [|done].
    symmetry. apply strict_eq_primitive; [| |done].
    + rewrite Forall_forall in Hacc. by apply Hacc.
    + apply Hx.
  - intros (e & Heq & He). exists e. split; [by apply list_elem_of_In|].
    apply strict_eq_primitive; [| |done].
    + rewrite Forall_forall in Hacc. by apply Hacc.
    + apply Hx.
Qed.

(** On keyed entries [acc.find] finds an entry exactly when the id is
    already there. *)
Lemma acc_find_keyed (acc : list json) (x : json) :
  Forall keyed acc → keyed x →
  if seen acc x
  then ∃ e, acc_find acc x = inr (Some e) ∧ truthy e = true
  else acc_find acc x = inr None.
Proof.
  intros Hacc Hx. induction Hacc as [|e acc He Hacc IH]; simpl.
  - done.
  - rewrite (prop_id_keyed e He), (prop_id_keyed x Hx). simpl.
    destruct (strict_eq (entry_id e) (entry_id x)) eqn:Heq; simpl.
    + exists e. split; [done|]. by apply truthy_keyed.
    + done.
Qed.

Lemma merge_step_keyed (acc : list json) (x : json) :
  Forall keyed acc → keyed x →
  merge_step acc x = inr (if seen acc x then acc else acc ++ [x]).
Proof.
  intros Hacc Hx. unfold merge_step.
  pose proof (acc_find_keyed acc x Hacc Hx) as Hfind.
  destruct (seen acc x).
  - destruct Hfind as (e & -> & He). simpl. by rewrite He.
  - by rewrite Hfind.
Qed.

(** The reducer keeps the first entry of every id, in order. *)
Lemma reduceE_merge_keyed (xs acc : list json) :
  Forall keyed acc → Forall keyed xs →
  NoDup (entry_id <$> acc) →
  ∃ kept,
    reduceE merge_step xs acc = inr (acc ++ kept)
    ∧ sublist kept xs
    ∧ NoDup (entry_id <$> (acc ++ kept))
    ∧ ∀ i, i ∈ entry_id <$> (acc ++ kept) ↔ i ∈ entry_id <$> (acc ++ xs).
Proof.
  intros Hacc Hxs. revert acc Hacc.
  induction Hxs as [|x xs Hx Hxs IH]; intros acc Hacc Hnd; simpl.
  - exists []. rewrite app_nil_r. by split_and!.
  - rewrite (merge_step_keyed acc x Hacc Hx). simpl.
    pose proof (seen_spec acc x Hacc Hx) as Hseen.
    destruct (seen acc x).
    + assert (entry_id x ∈ entry_id <$> acc) as Hin by by apply Hseen.
      destruct (IH acc Hacc Hnd) as (kept & -> & Hsub & Hnd' & Hids).
      exists kept. split_and!; try done.
      * by apply sublist_cons.
      * intros i. rewrite Hids, !fmap_app, !fmap_cons, !elem_of_app,
          elem_of_cons.
        split; [by intros [H|H]; [left|right; right]|].
        intros [H|[->|H]]; [by left|by left|by right].
    + assert (entry_id x ∉ entry_id <$> acc) as Hin.
      { intros H. apply Hseen in H. done. }
      destruct (IH (acc ++ [x])) as (kept & -> & Hsub & Hnd' & Hids).
      * apply Forall_app. split; [done|]. by constructor.
      * rewrite fmap_app. apply NoDup_app. split_and!; [done| |].
        -- intros i Hi. simpl. rewrite list_elem_of_singleton.
           intros ->. done.
        -- simpl. apply NoDup_singleton.
      * exists (x :: kept). rewrite <- !app_assoc in *. simpl in *.
        split_and!; try done. by apply sublist_skip.
Qed.

Lemma mergedLog_keyed (all : list json) :
  Forall keyed all →
  ∃ merged,
    mergedLog all = inr merged
    ∧ sublist merged all
    ∧ NoDup (entry_id <$> merged)
    ∧ ∀ i, i ∈ entry_id <$> merged ↔ i ∈ entry_id <$> all.
Proof.
  intros Hall.
  destruct (reduceE_merge_keyed all [] (Forall_nil_2 _) Hall (NoDup_nil_2))
    as (kept & H1 & H2 & H3 & H4).
  exists kept. done.
Qed.

Lemma run_GetActivities (σ : State) :
  run (call GetActivities) σ
  = (Returned (default (JArr []) (settings σ !! "userActivityLog")), σ).
Proof. done. Qed.

(** C5: when the activity unit resolves for the remote side, what it
    stores as the local log is the remote entries followed by the local
    ones with every id kept once: no id occurs twice, the ids are those
    of the two inputs, and every stored entry is an entry of an input,
    in order.  Local ids 1, 2 and remote ids 2, 3 give 2, 3, 1. *)
Theorem syncActivity_merges_on_remote_win (tok : string) (σ : State)
  (d1 d2 d3 : N) (rest : list (Weather * N)) (f f' : DriveFile)
  (e : SyncableData) (ls rs : list json) :
  accessToken σ = Some tok → tok ≠ "" → tok ∈ validTokens σ →
  network σ = (Up, d1) :: (Up, d2) :: (Up, d3) :: rest →
  head (named SYNC_FILES.activity σ) = Some f →
  stored (fileId f) σ = Some (f', Envelope e) →
  js_gt (Date_getTime (default (JTime 0) (settings σ !! "sync_activity_time")))
        (Date_getTime (lastSyncTime (metadata e))) = false →
  default (JArr []) (settings σ !! "userActivityLog") = JArr ls →
  data e = JArr rs →
  Forall keyed (rs ++ ls) →
  ∃ σ' merged,
    run syncActivity σ = (Returned true, σ')
    ∧ settings σ' !! "userActivityLog" = Some (JArr merged)
    ∧ NoDup (entry_id <$> merged)
    ∧ (∀ i, i ∈ entry_id <$> merged
            ↔ i ∈ entry_id <$> rs ∨ i ∈ entry_id <$> ls)
    ∧ sublist merged (rs ++ ls)
    ∧ mergedLog [entry 2; entry 3; entry 1; entry 2]
      = inr [entry 2; entry 3; entry 1].
Proof.
  intros Hacc Hne Hvalid Hnet Hnamed Hstored Hremote Hlocal Hdata Hkeyed.
  destruct (mergedLog_keyed (rs ++ ls) Hkeyed) as (merged & Hm & Hsub & Hnd & Hids).
  rewrite syncActivity_shape.
  rewrite (run_domain_unit_remote _
             (λ σ, default (JArr []) (settings σ !! "userActivityLog"))
             run_GetActivities _ _ _ tok σ Hacc Hne Hvalid d1 d2 d3 rest f f' e
             Hnet Hnamed Hstored).
  2:{ unfold resolveConflict, local_envelope. simpl.
      change ("sync_" +:+ "activity" +:+ "_time") with "sync_activity_time".
      by rewrite Hremote. }
  simpl settings. rewrite Hlocal, Hdata.
  rewrite run_bind. unfold mergeActivity. simpl. rewrite Hm. simpl.
  eexists _, merged. split; [done|]. split_and!; try done.
  - simpl. change ("sync_" +:+ "activity" +:+ "_time") with "sync_activity_time".
    rewrite lookup_insert_ne by done. by rewrite lookup_insert_eq.
  - intros i. by rewrite Hids, fmap_app, elem_of_app.
Qed.


(** ** First sync, and the sync right after *)

Lemma with_deviceId_settled (σ : State) :
  settings (with_deviceId σ) !! "device_id" = Some (found_deviceId σ)
  ∧ truthy (found_deviceId σ) = true.
Proof.
  unfold with_deviceId, found_deviceId. simpl.
  destruct (settings σ !! "device_id") as [d|] eqn:Hd; simpl.
  - destruct (truthy d) eqn:Ht; simpl; [done|]. by rewrite lookup_insert_eq.
  - by rewrite lookup_insert_eq.
Qed.

Lemma found_deviceId_stored (σ : State) (d : json) :
  settings σ !! "device_id" = Some d → truthy d = true →
  found_deviceId σ = d ∧ settings (with_deviceId σ) = settings σ.
Proof.
  intros Hd Ht. unfold with_deviceId, found_deviceId. simpl.
  rewrite Hd. simpl. by rewrite Ht.
Qed.

Lemma find_app_fresh (i : FileId) (files : list (DriveFile * Content))
  (x : DriveFile * Content) :
  List.find (has_id i) files = None → has_id i x = true →
  List.find (has_id i) (files ++ [x]) = Some x.
Proof.
  intros Hnone Hx. induction files as [|g files IH]; simpl in *.
  - by rewrite Hx.
  - destruct (has_id i g); [done|]. by apply IH.
Qed.

Lemma update_app_fresh (i : FileId) (files : list (DriveFile * Content))
  (x y : DriveFile * Content) :
  List.find (has_id i) files = None → has_id i x = true →
  (λ g, if has_id i g then y else g) <$> (files ++ [x]) = files ++ [y].
Proof.
  intros Hnone Hx. induction files as [|g files IH]; simpl in *.
  - by rewrite Hx.
  - destruct (has_id i g); [done|]. f_equal. by apply IH.
Qed.

Lemma serve_update_stored (i : FileId) (name : string) (e : SyncableData)
  (σ : State) (x : DriveFile * Content) :
  stored i σ = Some x →
  snd (serve (UpdateFile i name e) σ)
  = set_drive
      ((λ g, if has_id i g
             then ({| fileId := i; fileName := name; modifiedTime := clock σ |},
                   Envelope e)
             else g) <$> drive σ)
      (nextFileId σ) σ.
Proof. intros H. unfold serve. by rewrite H. Qed.

Lemma run_restore_notes_drive (d : json) (σ : State) :
  drive (snd (run (restored ← exc (restoredNotes d);
                   call (SaveNotesToDB restored)) σ)) = drive σ.
Proof. rewrite run_bind. by destruct (restoredNotes d). Qed.

(** C7: with no notes blob in the folder, the notes unit creates
    exactly one blob, holding the local notes in an envelope stamped
    with the current time and this device's id, and reports success.
    Run again at once, it adds no blob: the file keeps its id and name,
    and its payload, device id and version are unchanged.  When the
    first upload took time, the second run is a [PATCH] of that file by
    its id, which only renews [lastSyncTime]. *)
Theorem syncNotes_first_sync_then_again (tok : string) (σ : State)
  (d1 d2 d3 d4 d5 d6 d7 : N) (rest : list (Weather * N)) :
  accessToken σ = Some tok → tok ≠ "" → tok ∈ validTokens σ →
  network σ
  = (Up, d1) :: (Up, d2) :: (Up, d3) :: (Up, d4) :: (Up, d5) :: (Up, d6)
      :: (Up, d7) :: rest →
  named SYNC_FILES.notes σ = [] →
  stored (nextFileId σ) σ = None →
  let '(r1, σ1) := run syncNotes σ in
  let '(r2, σ2) := run syncNotes σ1 in
  ∃ (f f2 : DriveFile) (e e2 : SyncableData),
    r1 = Returned true
    ∧ drive σ1 = drive σ ++ [(f, Envelope e)]
    ∧ fileName f = SYNC_FILES.notes
    ∧ data e = notesDB σ
    ∧ lastSyncTime (metadata e) = JTime (clock σ + Z.of_N d1 + Z.of_N d2)
    ∧ settings σ1 !! "device_id" = Some (deviceId (metadata e))
    ∧ drive σ2 = drive σ ++ [(f2, Envelope e2)]
    ∧ fileId f2 = fileId f ∧ fileName f2 = fileName f
    ∧ data e2 = data e
    ∧ deviceId (metadata e2) = deviceId (metadata e)
    ∧ version (metadata e2) = version (metadata e)
    ∧ ((0 < d3)%N →
       r2 = Returned true
       ∧ head (requests σ2)
         = Some (Sent tok (UpdateFile (fileId f) SYNC_FILES.notes e2))
       ∧ lastSyncTime (metadata e2)
         = JTime (clock σ + Z.of_N d1 + Z.of_N d2 + Z.of_N d3 + Z.of_N d4
                  + Z.of_N d5 + Z.of_N d6)).
Proof.
  intros Hacc Hne Hvalid Hnet Hnamed Hfresh.
  rewrite syncNotes_shape.
  rewrite (run_domain_unit_absent _ notesDB run_LoadNotesFromDB _ _ _ tok σ
             Hacc Hne Hvalid d1 d2 d3 _ Hnet Hnamed).
  cbv zeta.
  set (σp := depart (Sent tok About) d1 _ σ).
  destruct (with_deviceId_settled σp) as [HD HtD].
  set (D := found_deviceId σp) in *.
  set (σ3 := looked tok SYNC_FILES.notes d1 d2 _ σ).
  assert (settings σ3 = settings (with_deviceId σp)) as Hs3 by done.
  destruct (found_deviceId_stored σ3 D) as [HD3 Hset3]; [by rewrite Hs3|done|].
  unfold fresh_envelope. rewrite HD3.
  set (e := {| data := notesDB σp; metadata := _ |}).
  set (fnew := {| fileId := nextFileId σ; fileName := SYNC_FILES.notes;
                  modifiedTime := clock σ + Z.of_N d1 + Z.of_N d2 + Z.of_N d3 |}).
  set (σA := stamp "notes" _).
  assert (accessToken σA = Some tok) as HaccA by done.
  assert (tok ∈ validTokens σA) as HvalidA by done.
  assert (network σA = (Up, d4) :: (Up, d5) :: (Up, d6) :: (Up, d7) :: rest)
    as HnetA by done.
  assert (drive σA = drive σ ++ [(fnew, Envelope e)]) as HdriveA by done.
  assert (notesDB σA = notesDB σ) as HnotesA by done.
  assert (clock σA = clock σ + Z.of_N d1 + Z.of_N d2 + Z.of_N d3) as HclockA
    by done.
  assert (settings σA
          = <["sync_notes_time" := JTime (clock σA)]> (settings (with_deviceId σp)))
    as HsetA.
  { rewrite <- Hs3, <- Hset3. done. }
  assert (head (named SYNC_FILES.notes σA) = Some fnew) as HnamedA.
  { unfold named in *. rewrite HdriveA, fmap_app, List.filter_app, Hnamed. done. }
  assert (stored (fileId fnew) σA = Some (fnew, Envelope e)) as HstoredA.
  { unfold stored in *. rewrite HdriveA. apply find_app_fresh; [done|].
    unfold has_id. simpl. apply Nat.eqb_refl. }
  set (σq := depart (Sent tok About) d4 ((Up, d5) :: (Up, d6) :: (Up, d7) :: rest) σA).
  assert (local_envelope "notes" (notesDB σq) σq
          = {| data := notesDB σ;
               metadata := {| lastSyncTime := JTime (clock σA); deviceId := D;
                              version := JNum 1 |} |}) as Hlocal.
  { unfold local_envelope. f_equal. f_equal.
    - change (settings σq) with (settings σA). rewrite HsetA.
      change ("sync_" +:+ "notes" +:+ "_time") with "sync_notes_time".
      by rewrite lookup_insert_eq.
    - apply found_deviceId_stored; [|done].
      change (settings σq) with (settings σA). rewrite HsetA.
      by rewrite lookup_insert_ne. }
  assert (settings σA !! "device_id" = Some D) as HDA.
  { rewrite HsetA. by rewrite lookup_insert_ne. }
  set (σ4 := depart (Sent tok (GetMedia (fileId fnew))) d6 ((Up, d7) :: rest)
               (looked tok SYNC_FILES.notes d4 d5 ((Up, d6) :: (Up, d7) :: rest) σA)).
  assert (found_deviceId σ4 = D ∧ settings (with_deviceId σ4) = settings σ4)
    as [HD4 Hset4].
  { apply found_deviceId_stored; [|done].
    change (settings σ4) with (settings (with_deviceId σq)).
    destruct (found_deviceId_stored σq D) as [_ ->]; done. }
  destruct (N.ltb 0 d3) eqn:Hd3.
  - (* the upload took time: the local side is newer *)
    apply N.ltb_lt in Hd3.
    assert (winner (resolveConflict (local_envelope "notes" (notesDB σq) σq) e)
            = local) as Hwin.
    { rewrite Hlocal. unfold resolveConflict. simpl.
      rewrite (proj2 (Z.ltb_lt _ _)); [done|]. lia. }
    rewrite (run_domain_unit_local _ notesDB run_LoadNotesFromDB _ _ _ tok σA
               HaccA Hne HvalidA d4 d5 d6 d7 rest fnew fnew e
               HnetA HnamedA HstoredA Hwin).
    cbv zeta. fold σq σ4. unfold fresh_envelope. rewrite HD4.
    set (e2 := {| data := notesDB σq; metadata := _ |}).
    set (σx := depart (Sent tok (UpdateFile (fileId fnew) SYNC_FILES.notes e2))
                 d7 rest (with_deviceId σ4)).
    assert (stored (fileId fnew) σx = Some (fnew, Envelope e)) as Hsx
      by exact HstoredA.
    rewrite (serve_update_stored _ _ _ σx _ Hsx).
    exists fnew,
      {| fileId := fileId fnew; fileName := SYNC_FILES.notes;
         modifiedTime := clock σx |}, e, e2.
    split_and!; try done.
    simpl. apply update_app_fresh; [exact Hfresh|]. apply Nat.eqb_refl.
  - (* the upload took no time: the remote side wins the tie *)
    apply N.ltb_ge in Hd3.
    assert (winner (resolveConflict (local_envelope "notes" (notesDB σq) σq) e)
            = remote) as Hwin.
    { rewrite Hlocal. unfold resolveConflict. simpl.
      rewrite (proj2 (Z.ltb_ge _ _)); [done|]. lia. }
    rewrite (run_domain_unit_remote _ notesDB run_LoadNotesFromDB _ _ _ tok σA
               HaccA Hne HvalidA d4 d5 d6 _ fnew fnew e
               HnetA HnamedA HstoredA Hwin).
    fold σq σ4.
    pose proof (run_restore_notes_drive (data e) σ4) as Hdrive.
    destruct (run _ σ4) as [[[]|err] σ5]; simpl in Hdrive.
    + exists fnew, fnew, e, e. split_and!; try done. intros H. lia.
    + exists fnew, fnew, e, e. split_and!; try done. intros H. lia.
Qed.


(** * Further properties of the engine *)

(** ** Programs that never throw *)

Lemma bind_Ret {Op : Type → Type} {A B : Type} (a : A) (f : A → Proc Op B) :
  Ret a ≫= f = f a.
Proof. done. Qed.

Lemma bind_Throw {Op : Type → Type} {A B : Type} (e : Error)
  (f : A → Proc Op B) :
  Throw e ≫= f = Throw e.
Proof. done. Qed.

Lemma bind_Vis {Op : Type → Type} {A B X : Type} (op : Op X)
  (k : X → Proc Op A) (f : A → Proc Op B) :
  Vis op k ≫= f = Vis op (λ x, k x ≫= f).
Proof. done. Qed.

Lemma never_throws_bind {A B : Type} (m : Proc UOp A) (f : A → Proc UOp B) :
  never_throws m → (∀ a, never_throws (f a)) → never_throws (m ≫= f).
Proof.
  intros Hm Hf. induction m as [a|e|X op k IH].
  - rewrite bind_Ret. apply Hf.
  - done.
  - rewrite bind_Vis. simpl in *. intros x. by apply IH.
Qed.

(** A [try] whose [catch] does not throw never throws. *)
Lemma never_throws_try_catch {A : Type} (p : Proc UOp A)
  (h : Error → Proc UOp A) :
  (∀ e, never_throws (h e)) → never_throws (try_catch p h).
Proof.
  intros Hh. induction p as [a|e|X op k IH]; simpl.
  - done.
  - apply Hh.
  - intros x. apply IH.
Qed.

Lemma never_throws_call {X : Type} (op : UOp X) : never_throws (call op).
Proof. by intros x. Qed.

Lemma never_throws_run {A : Type} (p : Proc UOp A) (σ : State) :
  never_throws p → ∃ a, fst (run p σ) = Returned a.
Proof.
  revert σ. induction p as [a|e|X op k IH]; intros σ Hp.
  - by exists a.
  - done.
  - unfold run. simpl. destruct (perform op σ) as [x σ'].
    apply (IH x σ'), Hp.
Qed.

Lemma never_throws_advance_unit {A : Type} (p : Proc UOp A) (σ : State) :
  never_throws p → never_throws (fst (advance_unit p σ)).
Proof.
  revert σ. induction p as [a|e|X op k IH]; intros σ Hp; simpl; try done.
  destruct (awaited op); [done|].
  destruct (perform op σ) as [x σ']. apply IH, Hp.
Qed.

Lemma never_throws_resume_unit {A : Type} (p p' : Proc UOp A) (σ σ' : State) :
  never_throws p → resume_unit p σ = Some (p', σ') → never_throws p'.
Proof.
  destruct p as [a|e|X op k]; simpl; try done.
  intros Hp. destruct (perform op σ) as [x σ1].
  pose proof (never_throws_advance_unit (k x) σ1 (Hp x)) as H.
  destruct (advance_unit (k x) σ1) as [q σ2]. by intros [= <- <-].
Qed.

Lemma never_throws_start_all (ps : list (Proc UOp bool)) (σ : State) :
  Forall never_throws ps → Forall never_throws (fst (start_all ps σ)).
Proof.
  revert σ. induction ps as [|p ps IH]; intros σ Hps; simpl; [done|].
  apply Forall_cons_1 in Hps as [Hp Hps].
  pose proof (never_throws_advance_unit p σ Hp) as H1.
  destruct (advance_unit p σ) as [p' σ1]. specialize (IH σ1 Hps).
  destruct (start_all ps σ1) as [ps' σ2]. by constructor.
Qed.

Lemma never_throws_findFile (token name : string) :
  never_throws (findFile token name).
Proof. by apply never_throws_try_catch. Qed.

Lemma never_throws_readFile (token : string) (file : FileId) :
  never_throws (readFile token file).
Proof. by apply never_throws_try_catch. Qed.

Lemma never_throws_writeFile (token name : string) (content : SyncableData)
  (existing : option FileId) :
  never_throws (writeFile token name content existing).
Proof. by apply never_throws_try_catch. Qed.

Lemma never_throws_deleteFile (token : string) (file : FileId) :
  never_throws (deleteFile token file).
Proof. by apply never_throws_try_catch. Qed.

Lemma never_throws_ensureValidToken : never_throws ensureValidToken.
Proof.
  unfold ensureValidToken. apply never_throws_bind; [apply never_throws_call|].
  intros t. destruct (nonempty t); [|done]. by apply never_throws_try_catch.
Qed.

(** A request that is not served: the connection fails, or the server
    answers with an error status. *)
Lemma fetch_unserved {X : Type} (tok : string) (req : Request X) (σ : State)
  (w : Weather) (dt : N) (rest : list (Weather * N)) :
  network σ = (w, dt) :: rest →
  w ≠ Up →
  fetch tok req σ
  = (match w with
     | Refuses code => ErrorStatus code
     | _ => NetworkFailure
     end, depart (Sent tok req) dt rest σ).
Proof.
  intros Hnet Hw. unfold fetch. rewrite Hnet. by destruct w.
Qed.

Lemma run_driveRequest (tok : string) {X : Type} (req : Request X) (σ : State) :
  run (driveRequest tok req) σ
  = match fetch tok req σ with
    | (NetworkFailure, σ') => (Threw NetworkError, σ')
    | (ErrorStatus code, σ') =>
        if code =? 401 then (Threw UNAUTHORIZED, σ')
        else (Returned (ErrorStatus code), σ')
    | (Ok x, σ') => (Returned (Ok x), σ')
    end.
Proof.
  unfold driveRequest. rewrite run_bind, run_call.
  change (perform (Fetch tok req) σ) with (fetch tok req σ).
  destruct (fetch tok req σ) as [[|code|x] σ']; simpl; try done.
  by destruct (code =? 401).
Qed.

(** X1: the four functions of the Drive adapter absorb every failure of
    their request.  Whatever the network answers they do not throw; and
    when the request is not served (connection failure, or any error
    status, 401 included) the look-up, the read and the write yield
    [null], exactly as the look-up does when no file has the name. *)
Theorem adapter_never_throws (token name : string) (file : FileId)
  (content : SyncableData) (existing : option FileId) (σ : State) :
  (never_throws (findFile token name)
   ∧ never_throws (readFile token file)
   ∧ never_throws (writeFile token name content existing)
   ∧ never_throws (deleteFile token file))
  ∧ (∃ r, fst (run (findFile token name) σ) = Returned r)
  ∧ (∃ r, fst (run (readFile token file) σ) = Returned r)
  ∧ (∃ r, fst (run (writeFile token name content existing) σ) = Returned r)
  ∧ (∃ r, fst (run (deleteFile token file) σ) = Returned r)
  ∧ ∀ w dt rest,
      network σ = (w, dt) :: rest → w ≠ Up →
      fst (run (findFile token name) σ) = Returned None
      ∧ fst (run (readFile token file) σ) = Returned None
      ∧ fst (run (writeFile token name content existing) σ) = Returned None
      ∧ drive (snd (run (writeFile token name content existing) σ)) = drive σ.
Proof.
  split_and!.
  - apply never_throws_findFile.
  - apply never_throws_readFile.
  - apply never_throws_writeFile.
  - apply never_throws_deleteFile.
  - apply never_throws_run, never_throws_findFile.
  - apply never_throws_run, never_throws_readFile.
  - apply never_throws_run, never_throws_writeFile.
  - apply never_throws_run, never_throws_deleteFile.
  - intros w dt rest Hnet Hw.
    unfold findFile, readFile, writeFile.
    rewrite !run_try_catch, !run_bind, !run_driveRequest.
    rewrite !(fetch_unserved _ _ σ w dt rest Hnet Hw).
    destruct w as [| |code]; [done|done|].
    destruct (code =? 401); done.
Qed.

(** ** The units never reject *)

Lemma unit_of_shape (d : DataType) :
  unit_of d
  = domain_unit (load_of d) (type_name d) (file_of d) (restore_of d).
Proof. by destruct d. Qed.

Lemma never_throws_domain_unit (load : Proc UOp json) (key name : string)
  (restore : json → json → Proc UOp unit) :
  never_throws (domain_unit load key name restore).
Proof.
  unfold domain_unit.
  apply never_throws_bind; [apply never_throws_ensureValidToken|].
  intros t. destruct (nonempty t); [|done]. by apply never_throws_try_catch.
Qed.

Lemma never_throws_unit_of (d : DataType) : never_throws (unit_of d).
Proof. rewrite unit_of_shape. apply never_throws_domain_unit. Qed.

Lemma run_all_fulfilled (ps : list (Proc UOp bool)) (σ : State) :
  Forall never_throws ps →
  Forall (λ r, ∃ b, r = Fulfilled b) (fst (run_all ps σ)).
Proof.
  revert σ. induction ps as [|p ps IH]; intros σ Hps; simpl; [done|].
  apply Forall_cons_1 in Hps as [Hp Hps].
  destruct (never_throws_run p σ Hp) as [b Hb].
  destruct (run p σ) as [r σ1]. specialize (IH σ1 Hps).
  destruct (run_all ps σ1) as [rs σ2]. simpl in *. subst r.
  constructor; [by exists b|done].
Qed.

Lemma never_throws_units : Forall never_throws units.
Proof.
  rewrite units_domains. apply Forall_fmap, Forall_forall.
  intros d _. apply never_throws_unit_of.
Qed.

(** X2: no Domain Sync Unit ever rejects.  Whatever the stores and the
    network answer, a unit ends by returning [true] or [false]: the
    token check does not throw and everything after it runs inside the
    unit's [try].  So each of the seven results a full sync collects is
    a fulfilled one, when the units run in turn and under every
    schedule: the units a fan-out starts never throw, a step of a
    suspended unit keeps that, and such a unit, once ended, has
    returned. *)
Theorem units_never_reject (d : DataType) (σ : State) :
  never_throws (unit_of d)
  ∧ (∃ b, fst (run (unit_of d) σ) = Returned b)
  ∧ Forall (λ r, ∃ b, r = Fulfilled b) (fst (run_all units σ))
  ∧ Forall never_throws (fst (start_all units σ))
  ∧ ∀ (c c' : Proc UOp bool) (σ1 σ2 : State),
      never_throws c →
      (resume_unit c σ1 = Some (c', σ2) → never_throws c')
      ∧ ∀ r, settled c = Some r → ∃ b, r = Returned b.
Proof.
  split_and!.
  - apply never_throws_unit_of.
  - apply never_throws_run, never_throws_unit_of.
  - apply run_all_fulfilled, never_throws_units.
  - apply never_throws_start_all, never_throws_units.
  - intros c c' σ1 σ2 Hc. split.
    + by apply never_throws_resume_unit.
    + destruct c as [b|e|X op k]; simpl; intros r; try done.
      intros [= <-]. by exists b.
Qed.

(** ** The token check *)

Lemma fetch_rejected {X : Type} (tok : string) (req : Request X) (σ : State)
  (w : Weather) (dt : N) (rest : list (Weather * N)) :
  network σ = (w, dt) :: rest →
  rejects tok w σ →
  fetch tok req σ = (ErrorStatus 401, depart (Sent tok req) dt rest σ).
Proof.
  intros Hnet [->|[-> Hinvalid]]; unfold fetch; rewrite Hnet; simpl; [done|].
  by rewrite bool_decide_eq_false_2.
Qed.

Lemma run_ensureValidToken_probe (tok : string) (σ : State) :
  accessToken σ = Some tok → tok ≠ "" →
  run ensureValidToken σ
  = match fetch tok About σ with
    | (NetworkFailure, σ') => (Returned None, σ')
    | (Ok _, σ') => (Returned (accessToken σ'), σ')
    | (ErrorStatus code, σ') =>
        if (code =? 401) && bool_decide (is_Some (refreshTokenFn σ'))
        then match nonempty (default None (refreshTokenFn σ')) with
             | Some t => (Returned (Some t), set_accessToken (Some t) σ')
             | None => (Returned None, σ')
             end
        else (Returned None, σ')
    end.
Proof.
  intros Hacc Hne. unfold ensureValidToken.
  rewrite run_bind, run_call. simpl perform. simpl fst. simpl snd.
  rewrite Hacc, (nonempty_Some tok Hne).
  rewrite run_try_catch, run_bind, run_call.
  change (perform (Fetch tok About) σ) with (fetch tok About σ).
  destruct (fetch tok About σ) as [[|code|[]] σ']; simpl fst; simpl snd;
    cbv iota.
  - done.
  - rewrite run_bind, run_call. simpl perform. simpl fst. simpl snd.
    destruct ((code =? 401) && bool_decide (is_Some (refreshTokenFn σ'))); [|done].
    rewrite run_bind, run_call. simpl perform. simpl fst. simpl snd.
    destruct (nonempty (default None (refreshTokenFn σ'))) as [t|]; [|done].
    by rewrite run_bind, run_call.
  - by rewrite run_call.
Qed.

(** X3: the token check of the manager.  With a token Drive accepts it
    sends one probe and yields that token.  When the probe is answered
    with status 401 and a refresh function is installed, the token the
    function yields replaces the manager's token and is returned without
    a further probe; when no function is installed, or it yields
    nothing, the check yields [null] and the rejected token stays in
    place.  On any other failure of the probe (no connection, another
    error status) the check yields [null] and the refresh function, even
    if it would yield a token, is not used. *)
Theorem ensureValidToken_refreshes_on_401 (tok : string) (σ : State)
  (w : Weather) (dt : N) (rest : list (Weather * N)) :
  accessToken σ = Some tok → tok ≠ "" →
  network σ = (w, dt) :: rest →
  let σ' := depart (Sent tok About) dt rest σ in
  (w = Up → tok ∈ validTokens σ →
   run ensureValidToken σ = (Returned (Some tok), σ'))
  ∧ (rejects tok w σ →
     run ensureValidToken σ
     = match refreshTokenFn σ with
       | Some (Some (String c t)) =>
           (Returned (Some (String c t)),
            set_accessToken (Some (String c t)) σ')
       | _ => (Returned None, σ')
       end)
  ∧ (fails_otherwise w → run ensureValidToken σ = (Returned None, σ')).
Proof.
  intros Hacc Hne Hnet σ'. split_and!.
  - intros -> Hvalid. by apply run_ensureValidToken_up.
  - intros Hrej. rewrite (run_ensureValidToken_probe tok σ Hacc Hne).
    rewrite (fetch_rejected tok About σ w dt rest Hnet Hrej).
    fold σ'. change (refreshTokenFn σ') with (refreshTokenFn σ).
    destruct (refreshTokenFn σ) as [[[|c t]|]|]; done.
  - intros Hw. rewrite (run_ensureValidToken_probe tok σ Hacc Hne).
    rewrite (fetch_unserved tok About σ w dt rest Hnet).
    + destruct Hw as [->|(code & -> & Hcode)]; [done|].
      apply Z.eqb_neq in Hcode. by rewrite Hcode.
    + by destruct Hw as [->|(code & -> & _)].
Qed.

(** ** Signed out *)

Lemma run_ensureValidToken_signed_out (σ : State) :
  nonempty (accessToken σ) = None →
  run ensureValidToken σ = (Returned None, σ).
Proof.
  intros Hout. unfold ensureValidToken.
  rewrite run_bind, run_call. simpl perform. simpl fst. simpl snd.
  by rewrite Hout.
Qed.

Lemma run_domain_unit_signed_out (load : Proc UOp json) (key name : string)
  (restore : json → json → Proc UOp unit) (σ : State) :
  nonempty (accessToken σ) = None →
  run (domain_unit load key name restore) σ = (Returned false, σ).
Proof.
  intros Hout. unfold domain_unit.
  by rewrite run_bind, (run_ensureValidToken_signed_out σ Hout).
Qed.

Lemma run_job_lift {A : Type} (p : Proc UOp A) (σ : State) :
  run_job (lift p) σ = run p σ.
Proof.
  revert σ. induction p as [a|e|X op k IH]; intros σ; try done.
  unfold run_job, run in *. simpl. destruct (perform op σ) as [x σ']. apply IH.
Qed.

Lemma run_instantSync (d : DataType) (σ : State) :
  run_job (instantSync d) σ
  = match nonempty (accessToken σ) with
    | Some _ => run (unit_of d) σ
    | None => (Returned false, σ)
    end.
Proof.
  unfold instantSync, run_job. rewrite interp_bind. simpl.
  destruct (nonempty (accessToken σ)); [apply run_job_lift|done].
Qed.

Lemma run_all_signed_out (ds : list DataType) (σ : State) :
  nonempty (accessToken σ) = None →
  run_all (unit_of <$> ds) σ = ((λ _, Fulfilled false) <$> ds, σ).
Proof.
  intros Hout. induction ds as [|d ds IH]; [done|].
  rewrite !fmap_cons. change (run_all (?p :: ?ps) ?s)
    with (let '(r, σ1) := run p s in
          let '(rs, σ2) := run_all ps σ1 in (settle r :: rs, σ2)).
  rewrite unit_of_shape, (run_domain_unit_signed_out _ _ _ _ σ Hout).
  by rewrite IH.
Qed.

(** X4: without an access token nothing leaves the device.  When the
    manager holds no token (or an empty one) the token check yields
    [null] at once; every unit, [instantSync] for every domain and
    [clearCloudData] return [false], send no request and leave the whole
    state as it was.  A full sync still runs: it reports all seven
    domains as failed, sends nothing, and stores ['last_full_sync'] and
    dispatches its event all the same. *)
Theorem signed_out_is_inert (d : DataType) (σ : State) :
  nonempty (accessToken σ) = None →
  run ensureValidToken σ = (Returned None, σ)
  ∧ run (unit_of d) σ = (Returned false, σ)
  ∧ run_job (instantSync d) σ = (Returned false, σ)
  ∧ advance (instantSync d) σ = (Running (Ret false), σ)
  ∧ run clearCloudData σ = (Returned false, σ)
  ∧ (syncInProgress σ = false →
     ∃ rep σ',
       run_job syncAll σ = (Returned rep, σ')
       ∧ errors rep = (λ d, "Failed to sync " +:+ type_name d) <$> domains
       ∧ requests σ' = requests σ
       ∧ drive σ' = drive σ
       ∧ settings σ' = <["last_full_sync" := JTime (clock σ)]> (settings σ)
       ∧ events σ' = rep :: events σ).
Proof.
  intros Hout. split_and!.
  - by apply run_ensureValidToken_signed_out.
  - rewrite unit_of_shape. by apply run_domain_unit_signed_out.
  - by rewrite run_instantSync, Hout.
  - unfold instantSync, call. rewrite bind_Vis. simpl.
    rewrite bind_Ret. by rewrite Hout.
  - unfold clearCloudData.
    by rewrite run_bind, (run_ensureValidToken_signed_out σ Hout).
  - intros Hidle. rewrite (run_syncAll_idle σ Hidle).
    rewrite units_domains.
    rewrite (run_all_signed_out domains (set_syncInProgress true σ)) by done.
    eexists _, _. split; [done|]. by split_and!.
Qed.

(** ** What the units send *)

Lemma silent_sends {A : Type} (P : Call → Prop) (p : Proc UOp A) :
  silent p → sends_only P p.
Proof. apply sends_only_weaken. done. Qed.

Lemma silent_getSetting (key : string) (dflt : json) :
  silent (getSetting key dflt).
Proof. unfold silent, getSetting. apply sends_only_bind; by split. Qed.

Lemma silent_setSetting (key : string) (v : json) : silent (setSetting key v).
Proof. by split. Qed.

Lemma silent_exc {A : Type} (x : Exc A) : silent (exc x).
Proof. by destruct x. Qed.

Lemma silent_getDeviceId : silent getDeviceId.
Proof.
  unfold silent, getDeviceId. apply sends_only_bind; [apply silent_getSetting|].
  intros d. destruct (truthy d); [done|].
  apply sends_only_bind; [by split|]. intros now.
  apply sends_only_bind; [by split|]. intros rnd.
  apply sends_only_bind; [apply silent_setSetting|]. done.
Qed.

Lemma silent_getLocalDataWithMetadata (key : string) (d : json) :
  silent (getLocalDataWithMetadata key (mret d)).
Proof.
  unfold silent, getLocalDataWithMetadata.
  apply sends_only_bind; [done|]. intros d0.
  apply sends_only_bind; [apply silent_getSetting|]. intros t.
  apply sends_only_bind; [apply silent_getDeviceId|]. done.
Qed.

Lemma silent_syncData (d : json) : silent (syncData d).
Proof.
  unfold silent, syncData. apply sends_only_bind; [by split|]. intros now.
  apply sends_only_bind; [apply silent_getDeviceId|]. done.
Qed.

Lemma silent_restoreEach (es : list (string * json)) : silent (restoreEach es).
Proof.
  induction es as [|[k v] es IH]; [done|]. simpl.
  apply sends_only_bind; [apply silent_setSetting|]. done.
Qed.

Lemma silent_getLocalMediaIndex : silent getLocalMediaIndex.
Proof.
  unfold silent, getLocalMediaIndex. apply sends_only_try_catch; [|done].
  apply sends_only_bind; [apply silent_getSetting|]. intros s.
  destruct (truthy s); [apply silent_exc|done].
Qed.

Lemma silent_load_of (d : DataType) : silent (load_of d).
Proof.
  destruct d; simpl.
  - by split.
  - by split.
  - by split.
  - apply silent_getSetting.
  - unfold silent. apply sends_only_bind; by split.
  - by split.
  - apply silent_getLocalMediaIndex.
Qed.

Lemma silent_restore_of (d : DataType) (d' localPayload : json) :
  silent (restore_of d d' localPayload).
Proof.
  destruct d; simpl.
  - unfold silent. apply sends_only_bind; [apply silent_exc|]. by split.
  - by split.
  - by split.
  - apply silent_setSetting.
  - unfold silent. apply sends_only_bind; [apply silent_exc|].
    apply silent_restoreEach.
  - unfold silent. apply sends_only_bind; [apply silent_exc|]. by split.
  - apply silent_setSetting.
Qed.

Lemma sends_ensureValidToken_probe (P : Call → Prop) :
  (∀ tok, P (Sent tok About)) → sends_only P ensureValidToken.
Proof.
  intros HP. unfold ensureValidToken. apply sends_only_bind; [by split|].
  intros t. destruct (nonempty t) as [bearer|]; [|done].
  apply sends_only_try_catch; [|done].
  apply sends_only_bind; [by split|].
  intros [|code|[]]; [done| |by split].
  apply sends_only_bind; [by split|]. intros fn.
  destruct ((code =? 401) && fn); [|done].
  apply sends_only_bind; [by split|]. intros t'.
  destruct (nonempty t'); [|done].
  apply sends_only_bind; by split.
Qed.

Lemma sends_findFile_lookup (P : Call → Prop) (token name : string) :
  P (Sent token (ListFiles name)) → sends_only P (findFile token name).
Proof.
  intros HP. unfold findFile. apply sends_only_try_catch; [|done].
  apply sends_only_bind.
  - eapply sends_only_weaken; [|apply sends_driveRequest]. by intros c ->.
  - intros [|code|files]; done.
Qed.

Lemma sends_readFile_read (P : Call → Prop) (token : string) (file : FileId) :
  P (Sent token (GetMedia file)) → sends_only P (readFile token file).
Proof.
  intros HP. unfold readFile. apply sends_only_try_catch; [|done].
  apply sends_only_bind.
  - eapply sends_only_weaken; [|apply sends_driveRequest]. by intros c ->.
  - intros [|code|[| |e|]]; done.
Qed.

Lemma sends_deleteFile_delete (P : Call → Prop) (token : string)
  (file : FileId) :
  P (Sent token (DeleteFile file)) → sends_only P (deleteFile token file).
Proof.
  intros HP. unfold deleteFile. apply sends_only_try_catch; [|done].
  apply sends_only_bind.
  - eapply sends_only_weaken; [|apply sends_driveRequest]. by intros c ->.
  - intros [|code|[]]; done.
Qed.

Lemma sends_domain_unit (d : DataType) (load : Proc UOp json) (key : string)
  (restore : json → json → Proc UOp unit) :
  silent load → (∀ a b, silent (restore a b)) →
  sends_only (own_traffic d) (domain_unit load key (file_of d) restore).
Proof.
  intros Hload Hrestore. unfold domain_unit.
  assert (∀ token content existing,
             sends_only (own_traffic d)
               (writeFile token (file_of d) content existing)) as Hwrite.
  { intros token content existing.
    eapply sends_only_weaken; [|apply sends_writeFile].
    intros [X tok req] Hup. destruct req; simpl in *; congruence. }
  apply sends_only_bind; [by apply sends_ensureValidToken_probe|].
  intros token. destruct (nonempty token) as [tok|]; [|done].
  apply sends_only_try_catch; [|done].
  apply sends_only_bind; [by apply silent_sends|]. intros localPayload.
  apply sends_only_bind;
    [apply silent_sends, silent_getLocalDataWithMetadata|].
  intros localData.
  apply sends_only_bind; [by apply sends_findFile_lookup|].
  intros remoteFile.
  apply sends_only_bind.
  2:{ intros []. apply sends_only_bind; [by split|]. intros now.
      apply sends_only_bind; [apply silent_sends, silent_setSetting|]. done. }
  destruct remoteFile as [remoteFile|].
  - apply sends_only_bind; [by apply sends_readFile_read|].
    intros [[remoteData|]|]; [|by rewrite resolveRemote_Unshaped|done].
    rewrite resolveRemote_Shaped.
    destruct (winner (resolveConflict localData remoteData)).
    + apply sends_only_bind; [apply silent_sends, silent_syncData|].
      intros e. apply sends_only_bind; [apply Hwrite|]. done.
    + apply silent_sends, Hrestore.
  - apply sends_only_bind; [apply silent_sends, silent_syncData|].
    intros e. apply sends_only_bind; [apply Hwrite|]. done.
Qed.

Lemma sends_unit_of (d : DataType) : sends_only (own_traffic d) (unit_of d).
Proof.
  rewrite unit_of_shape. apply sends_domain_unit.
  - apply silent_load_of.
  - apply silent_restore_of.
Qed.

(** X5: a unit keeps to the blob of its own domain.  Every request the
    unit of a domain can ever send, whatever answers it receives, is the
    token probe, the look-up of the blob of that domain by its name, the
    read of a file, or an upload ([POST] or [PATCH]) under the name of
    that blob; a unit never deletes a file.  So are the requests sent
    during any run of the unit. *)
Theorem units_keep_to_their_blob (d : DataType) (σ : State) :
  sends_only (own_traffic d) (unit_of d)
  ∧ ∃ new,
      requests (snd (run (unit_of d) σ)) = new ++ requests σ
      ∧ Forall (own_traffic d) new.
Proof.
  split; [apply sends_unit_of|]. apply sends_only_run, sends_unit_of.
Qed.

(** ** How many requests *)

Lemma sends_at_most_mono {A : Type} (n m : nat) (p : Proc UOp A) :
  (n ≤ m)%nat → sends_at_most n p → sends_at_most m p.
Proof.
  revert n m. induction p as [a|e|X op k IH]; intros n m Hnm; simpl; try done.
  destruct op; try (intros H x; by eapply IH).
  destruct n as [|n]; [done|]. destruct m as [|m]; [lia|].
  intros H x. eapply (IH x n m); [lia|done].
Qed.

Lemma sends_at_most_bind {A B : Type} (n k : nat) (m : Proc UOp A)
  (f : A → Proc UOp B) :
  sends_at_most n m → (∀ a, sends_at_most k (f a)) →
  sends_at_most (n + k) (m ≫= f).
Proof.
  intros Hm Hf. revert n Hm. induction m as [a|e|X op c IH]; intros n Hm.
  - rewrite bind_Ret. eapply sends_at_most_mono; [|apply Hf]. lia.
  - done.
  - rewrite bind_Vis. simpl in *.
    destruct op; try (intros x; by apply IH).
    destruct n as [|n]; [done|]. simpl. intros x. by apply IH.
Qed.

Lemma sends_at_most_try_catch {A : Type} (n k : nat) (p : Proc UOp A)
  (h : Error → Proc UOp A) :
  sends_at_most n p → (∀ e, sends_at_most k (h e)) →
  sends_at_most (n + k) (try_catch p h).
Proof.
  intros Hp Hh. revert n Hp. induction p as [a|e|X op c IH]; intros n Hp; simpl.
  - done.
  - eapply sends_at_most_mono; [|apply Hh]. lia.
  - simpl in Hp. destruct op; try (intros x; by apply IH).
    destruct n as [|n]; [done|]. simpl. intros x. by apply IH.
Qed.

Lemma silent_sends_at_most {A : Type} (p : Proc UOp A) :
  silent p → sends_at_most 0 p.
Proof.
  unfold silent. induction p as [a|e|X op k IH]; simpl; try done.
  intros [Hop Hk]. destruct op; try (intros x; by apply IH). done.
Qed.

Lemma sends_at_most_run {A : Type} (n : nat) (p : Proc UOp A) (σ : State) :
  sends_at_most n p →
  ∃ new,
    requests (snd (run p σ)) = new ++ requests σ ∧ (length new ≤ n)%nat.
Proof.
  revert n σ. induction p as [a|e|X op k IH]; intros n σ Hp.
  - exists []. split; [done|simpl; lia].
  - exists []. split; [done|simpl; lia].
  - unfold run in *. simpl in *.
    destruct (perform op σ) as [x σ1] eqn:Hperf.
    destruct op; simpl in Hperf;
      try (assert (requests σ1 = requests σ) as <- by (by simplify_eq);
           by apply IH).
    destruct n as [|n]; [done|].
    destruct (IH x n σ1 (Hp x)) as (new & Hnew & Hlen).
    pose proof (fetch_requests token req σ) as Hreq.
    rewrite Hperf in Hreq. simpl in Hreq. rewrite Hnew, Hreq.
    exists (new ++ [Sent token req]). rewrite <- app_assoc. split; [done|].
    rewrite length_app. simpl. lia.
Qed.

Lemma one_driveRequest {X : Type} (token : string) (req : Request X) :
  sends_at_most 1 (driveRequest token req).
Proof.
  unfold driveRequest.
  apply (sends_at_most_bind 1 0); [by intros x|].
  intros [|code|x]; try done. by destruct (code =? 401).
Qed.

Lemma one_findFile (token name : string) :
  sends_at_most 1 (findFile token name).
Proof.
  unfold findFile. apply (sends_at_most_try_catch 1 0); [|done].
  apply (sends_at_most_bind 1 0); [apply one_driveRequest|].
  intros [|code|files]; done.
Qed.

Lemma one_readFile (token : string) (file : FileId) :
  sends_at_most 1 (readFile token file).
Proof.
  unfold readFile. apply (sends_at_most_try_catch 1 0); [|done].
  apply (sends_at_most_bind 1 0); [apply one_driveRequest|].
  intros [|code|[| |e|]]; done.
Qed.

Lemma one_writeFile (token name : string) (content : SyncableData)
  (existing : option FileId) :
  sends_at_most 1 (writeFile token name content existing).
Proof.
  unfold writeFile. apply (sends_at_most_try_catch 1 0); [|done].
  apply (sends_at_most_bind 1 0); [apply one_driveRequest|].
  intros [|code|i]; done.
Qed.

Lemma one_deleteFile (token : string) (file : FileId) :
  sends_at_most 1 (deleteFile token file).
Proof.
  unfold deleteFile. apply (sends_at_most_try_catch 1 0); [|done].
  apply (sends_at_most_bind 1 0); [apply one_driveRequest|].
  intros [|code|[]]; done.
Qed.

Lemma one_ensureValidToken : sends_at_most 1 ensureValidToken.
Proof.
  unfold ensureValidToken.
  apply (sends_at_most_bind 0 1); [by intros x|]. intros t.
  destruct (nonempty t) as [bearer|]; [|done].
  apply (sends_at_most_try_catch 1 0); [|done].
  apply (sends_at_most_bind 1 0); [by intros x|]. intros r.
  apply silent_sends_at_most. unfold silent.
  destruct r as [|code|[]]; [done| |by split].
  apply sends_only_bind; [by split|]. intros fn.
  destruct ((code =? 401) && fn); [|done].
  apply sends_only_bind; [by split|]. intros t'.
  destruct (nonempty t'); [|done].
  apply sends_only_bind; by split.
Qed.

Lemma four_domain_unit (load : Proc UOp json) (key name : string)
  (restore : json → json → Proc UOp unit) :
  silent load → (∀ a b, silent (restore a b)) →
  sends_at_most 4 (domain_unit load key name restore).
Proof.
  intros Hload Hrestore. unfold domain_unit.
  apply (sends_at_most_bind 1 3); [apply one_ensureValidToken|].
  intros token. destruct (nonempty token) as [tok|]; [|done].
  apply (sends_at_most_try_catch 3 0); [|done].
  apply (sends_at_most_bind 0 3); [by apply silent_sends_at_most|].
  intros localPayload.
  apply (sends_at_most_bind 0 3);
    [apply silent_sends_at_most, silent_getLocalDataWithMetadata|].
  intros localData.
  apply (sends_at_most_bind 1 2); [apply one_findFile|].
  intros remoteFile.
  apply (sends_at_most_bind 2 0).
  2:{ intros []. apply silent_sends_at_most. unfold silent.
      apply sends_only_bind; [by split|]. intros now.
      apply sends_only_bind; [apply silent_setSetting|]. done. }
  assert (∀ existing, sends_at_most 1
            (syncData ← syncData localPayload;
             writeFile tok name syncData existing;; mret tt)) as Hupload.
  { intros existing.
    apply (sends_at_most_bind 0 1);
      [apply silent_sends_at_most, silent_syncData|].
    intros e. apply (sends_at_most_bind 1 0); [apply one_writeFile|]. done. }
  destruct remoteFile as [remoteFile|].
  - apply (sends_at_most_bind 1 1); [apply one_readFile|].
    intros [[remoteData|]|]; [|by rewrite resolveRemote_Unshaped|done].
    rewrite resolveRemote_Shaped.
    destruct (winner (resolveConflict localData remoteData)).
    + apply Hupload.
    + eapply sends_at_most_mono; [|apply silent_sends_at_most, Hrestore]. lia.
  - eapply sends_at_most_mono; [|apply Hupload]. lia.
Qed.

Lemma four_unit_of (d : DataType) : sends_at_most 4 (unit_of d).
Proof.
  rewrite unit_of_shape. apply four_domain_unit.
  - apply silent_load_of.
  - apply silent_restore_of.
Qed.

Lemma two_each_clearEach (token : string) (names : list string) :
  sends_at_most (2 * length names) (clearEach token names).
Proof.
  induction names as [|name names IH]; [done|].
  change (clearEach token (name :: names))
    with (file ← findFile token name;
          match file with
          | Some file => deleteFile token (fileId file);; mret tt
          | None => mret tt
          end;;
          clearEach token names).
  replace (2 * length (name :: names))%nat
    with (1 + (1 + 2 * length names))%nat by (simpl; lia).
  apply sends_at_most_bind; [apply one_findFile|]. intros file.
  apply sends_at_most_bind; [|done].
  destruct file as [file|]; [|done].
  apply (sends_at_most_bind 1 0); [apply one_deleteFile|]. done.
Qed.

Lemma run_all_requests (n : nat) (ps : list (Proc UOp bool)) (σ : State) :
  Forall (sends_at_most n) ps →
  ∃ new,
    requests (snd (run_all ps σ)) = new ++ requests σ
    ∧ (length new ≤ n * length ps)%nat.
Proof.
  revert σ. induction ps as [|p ps IH]; intros σ Hps; simpl.
  - exists []. split; [done|simpl; lia].
  - apply Forall_cons_1 in Hps as [Hp Hps].
    destruct (sends_at_most_run n p σ Hp) as (new1 & H1 & Hl1).
    destruct (run p σ) as [r σ1]. simpl in H1.
    destruct (IH σ1 Hps) as (new2 & H2 & Hl2).
    destruct (run_all ps σ1) as [rs σ2]. simpl in *.
    exists (new2 ++ new1). rewrite H2, H1, app_assoc. split; [done|].
    rewrite length_app. lia.
Qed.

(** X6: the cost of a sync in requests.  Whatever answers it receives,
    a unit sends at most four requests (the token probe, the look-up,
    then either a read and a [PATCH] or a [POST]); clearing the cloud
    data sends at most fifteen (the probe, then a look-up and a deletion
    for each of the seven blobs); a full sync that finds the lock free
    sends at most twenty-eight.  Nothing is retried. *)
Theorem units_send_at_most_four (d : DataType) (σ : State) :
  sends_at_most 4 (unit_of d)
  ∧ sends_at_most 15 clearCloudData
  ∧ (∃ new,
        requests (snd (run (unit_of d) σ)) = new ++ requests σ
        ∧ (length new ≤ 4)%nat)
  ∧ (∃ new,
        requests (snd (run clearCloudData σ)) = new ++ requests σ
        ∧ (length new ≤ 15)%nat)
  ∧ (syncInProgress σ = false →
     ∃ new,
       requests (snd (run_job syncAll σ)) = new ++ requests σ
       ∧ (length new ≤ 28)%nat).
Proof.
  assert (sends_at_most 15 clearCloudData) as Hclear.
  { unfold clearCloudData.
    apply (sends_at_most_bind 1 14); [apply one_ensureValidToken|].
    intros token. destruct (nonempty token) as [tok|]; [|done].
    apply (sends_at_most_try_catch 14 0); [|done].
    apply (sends_at_most_bind 14 0); [|done].
    apply (two_each_clearEach tok SYNC_FILES.values). }
  split_and!.
  - apply four_unit_of.
  - done.
  - apply sends_at_most_run, four_unit_of.
  - by apply sends_at_most_run.
  - intros Hidle. rewrite (run_syncAll_idle σ Hidle).
    destruct (run_all_requests 4 units (set_syncInProgress true σ))
      as (new & Hnew & Hlen).
    { rewrite units_domains. apply Forall_fmap, Forall_forall.
      intros d' _. apply four_unit_of. }
    destruct (run_all units (set_syncInProgress true σ)) as [rs σ1].
    exists new. split; [exact Hnew|]. exact Hlen.
Qed.

(** ** What a unit does to the two sides *)

Lemma run_getLocalMediaIndex (σ : State) :
  run getLocalMediaIndex σ = (Returned (media_index σ), σ).
Proof.
  unfold getLocalMediaIndex, media_index.
  rewrite run_try_catch, run_bind, run_getSetting.
  destruct (truthy (default (JStr "") (settings σ !! "media_index"))); [|done].
  by destruct (JSON_parse _).
Qed.

Lemma run_load_of (d : DataType) (σ : State) :
  run (load_of d) σ = (Returned (local_payload d σ), σ).
Proof.
  destruct d.
  - done.
  - done.
  - done.
  - apply run_getSetting.
  - done.
  - done.
  - apply run_getLocalMediaIndex.
Qed.

Lemma time_key_not_device (d : DataType) : time_key d ≠ "device_id".
Proof. destruct d; vm_compute; discriminate. Qed.

Lemma winner_local_envelope (d : DataType) (σ : State) (payload : json)
  (e0 : SyncableData) (c : Call) (dt : N) (rest : list (Weather * N)) :
  winner (resolveConflict
            (local_envelope (type_name d) payload (depart c dt rest σ)) e0)
  = if local_newer d σ e0 then local else remote.
Proof.
  unfold resolveConflict, local_envelope, local_newer, time_key. simpl.
  by destruct (js_gt _ _).
Qed.

Lemma serve_create (name : string) (e : SyncableData) (σ : State) :
  serve (CreateFile name e) σ
  = (Ok (nextFileId σ),
     set_drive
       (drive σ ++ [({| fileId := nextFileId σ; fileName := name;
                        modifiedTime := clock σ |}, Envelope e)])
       (S (nextFileId σ)) σ).
Proof. done. Qed.

Lemma named_app (name : string) (files : list (DriveFile * Content))
  (f : DriveFile) (c : Content) :
  fileName f = name →
  List.filter (λ g, String.eqb (fileName g) name) (fst <$> (files ++ [(f, c)]))
  = List.filter (λ g, String.eqb (fileName g) name) (fst <$> files) ++ [f].
Proof.
  intros Hname. rewrite fmap_app, List.filter_app. simpl.
  by rewrite Hname, String.eqb_refl.
Qed.

(** X7: first sync of any domain.  With no blob of the domain's name in
    the folder, a signed-in unit whose three requests are served creates
    exactly one blob under that name; the blob holds the local payload
    of the domain in an envelope stamped with the time read after the
    look-up, this device's id and version 1.  The unit reports success,
    stores that moment's clock reading as the domain's last-sync time,
    and leaves the three local databases as they were. *)
Theorem first_sync_uploads_local_payload (d : DataType) (tok : string)
  (σ : State) (d1 d2 d3 : N) (rest : list (Weather * N)) :
  accessToken σ = Some tok → tok ≠ "" → tok ∈ validTokens σ →
  network σ = (Up, d1) :: (Up, d2) :: (Up, d3) :: rest →
  named (file_of d) σ = [] →
  ∃ (σ' : State) (f : DriveFile) (e : SyncableData),
    run (unit_of d) σ = (Returned true, σ')
    ∧ drive σ' = drive σ ++ [(f, Envelope e)]
    ∧ fileName f = file_of d
    ∧ fileId f = nextFileId σ
    ∧ named (file_of d) σ' = [f]
    ∧ data e = local_payload d σ
    ∧ lastSyncTime (metadata e) = JTime (clock σ + Z.of_N d1 + Z.of_N d2)
    ∧ settings σ' !! "device_id" = Some (deviceId (metadata e))
    ∧ version (metadata e) = JNum 1
    ∧ clock σ' = clock σ + Z.of_N d1 + Z.of_N d2 + Z.of_N d3
    ∧ settings σ' !! time_key d = Some (JTime (clock σ'))
    ∧ notesDB σ' = notesDB σ ∧ tasksDB σ' = tasksDB σ
    ∧ foldersDB σ' = foldersDB σ
    ∧ requests σ'
      = [Sent tok (CreateFile (file_of d) e); Sent tok (ListFiles (file_of d));
         Sent tok About] ++ requests σ.
Proof.
  intros Hacc Hne Hvalid Hnet Hnamed.
  rewrite unit_of_shape.
  rewrite (run_domain_unit_absent _ (local_payload d) (run_load_of d) _ _ _
             tok σ Hacc Hne Hvalid d1 d2 d3 rest Hnet Hnamed).
  cbv zeta. rewrite serve_create.
  set (σ3 := looked tok (file_of d) d1 d2 _ σ).
  destruct (with_deviceId_settled σ3) as [HD _].
  eexists _, _, _. split; [done|].
  split_and!; try done.
  - unfold named in *. simpl drive. rewrite named_app by done.
    by rewrite Hnamed.
  - etrans; [|exact HD]. simpl. fold (time_key d).
    by rewrite lookup_insert_ne by apply time_key_not_device.
  - simpl. fold (time_key d). by rewrite lookup_insert_eq.
Qed.

(** X8: the local side is newer.  When the blob of a domain holds an
    envelope whose [lastSyncTime] is strictly older than the domain's
    stored last-sync time, a signed-in unit whose four requests are
    served overwrites that blob in place ([PATCH] on the id the look-up
    found) with the local payload in a fresh envelope; no file is added
    or removed, the three local databases are as they were, and the
    remote payload is not looked at. *)
Theorem local_win_patches_blob (d : DataType) (tok : string) (σ : State)
  (d1 d2 d3 d4 : N) (rest : list (Weather * N)) (f f' : DriveFile)
  (e0 : SyncableData) :
  accessToken σ = Some tok → tok ≠ "" → tok ∈ validTokens σ →
  network σ = (Up, d1) :: (Up, d2) :: (Up, d3) :: (Up, d4) :: rest →
  head (named (file_of d) σ) = Some f →
  stored (fileId f) σ = Some (f', Envelope e0) →
  local_newer d σ e0 = true →
  ∃ (σ' : State) (e : SyncableData),
    run (unit_of d) σ = (Returned true, σ')
    ∧ drive σ'
      = (λ g, if has_id (fileId f) g
              then ({| fileId := fileId f; fileName := file_of d;
                       modifiedTime := clock σ' |}, Envelope e)
              else g) <$> drive σ
    ∧ data e = local_payload d σ
    ∧ lastSyncTime (metadata e)
      = JTime (clock σ + Z.of_N d1 + Z.of_N d2 + Z.of_N d3)
    ∧ version (metadata e) = JNum 1
    ∧ settings σ' !! "device_id" = Some (deviceId (metadata e))
    ∧ clock σ' = clock σ + Z.of_N d1 + Z.of_N d2 + Z.of_N d3 + Z.of_N d4
    ∧ settings σ' !! time_key d = Some (JTime (clock σ'))
    ∧ notesDB σ' = notesDB σ ∧ tasksDB σ' = tasksDB σ
    ∧ foldersDB σ' = foldersDB σ
    ∧ requests σ'
      = [Sent tok (UpdateFile (fileId f) (file_of d) e);
         Sent tok (GetMedia (fileId f)); Sent tok (ListFiles (file_of d));
         Sent tok About] ++ requests σ.
Proof.
  intros Hacc Hne Hvalid Hnet Hnamed Hstored Hnewer.
  rewrite unit_of_shape.
  rewrite (run_domain_unit_local _ (local_payload d) (run_load_of d) _ _ _
             tok σ Hacc Hne Hvalid d1 d2 d3 d4 rest f f' e0 Hnet Hnamed
             Hstored).
  2:{ cbv zeta. rewrite winner_local_envelope. by rewrite Hnewer. }
  cbv zeta.
  set (σ4 := depart (Sent tok (GetMedia (fileId f))) d3 _ _).
  destruct (with_deviceId_settled σ4) as [HD _].
  set (e := fresh_envelope _ σ4).
  set (σx := depart (Sent tok (UpdateFile (fileId f) (file_of d) e)) d4 rest
               (with_deviceId σ4)).
  assert (stored (fileId f) σx = Some (f', Envelope e0)) as Hsx
    by exact Hstored.
  rewrite (serve_update_stored _ _ _ σx _ Hsx).
  eexists _, e. split; [done|].
  split_and!; try done.
  - etrans; [|exact HD]. simpl. fold (time_key d).
    by rewrite lookup_insert_ne by apply time_key_not_device.
  - simpl. fold (time_key d). by rewrite lookup_insert_eq.
Qed.


(** ** A blob that is no envelope *)



Lemma run_findFile_unserved (tok name : string) (σ : State) (w : Weather)
  (dt : N) (rest : list (Weather * N)) :
  network σ = (w, dt) :: rest → w ≠ Up →
  run (findFile tok name) σ
  = (Returned None, depart (Sent tok (ListFiles name)) dt rest σ).
Proof.
  intros Hnet Hw. unfold findFile.
  rewrite run_try_catch, run_bind, run_driveRequest.
  rewrite (fetch_unserved _ _ σ w dt rest Hnet Hw).
  destruct w as [| |code]; [done|done|]. by destruct (code =? 401).
Qed.

(** X10: a look-up that fails is taken for a first sync.  The look-up
    of the blob yields [null] both when no file has the name and when
    the request is not served; the unit cannot tell the two apart.  So
    when the token probe is served, the look-up is not (no connection,
    or any error status) and the next request is served again, the unit
    uploads the local payload as a new blob and reports success, whether
    or not the folder already holds a blob of that name: afterwards the
    folder holds one more file of the name than before. *)
Theorem failed_lookup_is_taken_for_first_sync (d : DataType) (tok : string)
  (σ : State) (w : Weather) (d1 d2 d3 : N) (rest : list (Weather * N)) :
  accessToken σ = Some tok → tok ≠ "" → tok ∈ validTokens σ →
  network σ = (Up, d1) :: (w, d2) :: (Up, d3) :: rest →
  w ≠ Up →
  ∃ (σ' : State) (f : DriveFile) (e : SyncableData),
    run (unit_of d) σ = (Returned true, σ')
    ∧ drive σ' = drive σ ++ [(f, Envelope e)]
    ∧ fileName f = file_of d
    ∧ fileId f = nextFileId σ
    ∧ data e = local_payload d σ
    ∧ named (file_of d) σ' = named (file_of d) σ ++ [f]
    ∧ settings σ' !! time_key d = Some (JTime (clock σ')).
Proof.
  intros Hacc Hne Hvalid Hnet Hw.
  rewrite unit_of_shape. unfold domain_unit.
  rewrite run_bind,
    (run_ensureValidToken_up tok σ d1 _ Hacc Hne Hvalid Hnet).
  rewrite (nonempty_Some tok Hne).
  rewrite run_try_catch, run_bind, run_load_of.
  rewrite run_bind, run_getLocalDataWithMetadata.
  rewrite run_bind, (run_findFile_unserved tok _ _ w d2 ((Up, d3) :: rest))
    by done.
  rewrite run_bind. cbv iota.
  rewrite run_bind, run_syncData.
  rewrite run_bind, (run_writeFile_create_up tok _ _ _ d3 rest) by done.
  rewrite run_ret, run_bind, run_call, run_bind, run_setSetting, run_ret.
  rewrite serve_create.
  eexists _, _, _. split; [done|]. split_and!; try done.
  - unfold named. simpl drive. by rewrite named_app.
  - simpl. fold (time_key d). by rewrite lookup_insert_eq.
Qed.

(** ** Restoring the settings *)

Lemma run_restoreEach (es : list (string * json)) (σ : State) :
  run (restoreEach es) σ
  = (Returned tt,
     set_settings (foldl (λ m kv, <[fst kv := snd kv]> m) (settings σ) es) σ).
Proof.
  revert σ. induction es as [|[k v] es IH]; intros σ.
  - by destruct σ.
  - change (restoreEach ((k, v) :: es))
      with (setSetting k v;; restoreEach es).
    by rewrite run_bind, run_setSetting, IH.
Qed.

Lemma foldl_insert_absent (es : list (string * json)) (m : gmap string json)
  (key : string) :
  key ∉ fst <$> es →
  foldl (λ m kv, <[fst kv := snd kv]> m) m es !! key = m !! key.
Proof.
  revert m. induction es as [|[k v] es IH]; intros m Hkey; [done|].
  rewrite fmap_cons, not_elem_of_cons in Hkey. destruct Hkey as [Hk Hes].
  simpl. rewrite IH by done. by rewrite lookup_insert_ne.
Qed.

Lemma foldl_insert_present (es : list (string * json)) (m : gmap string json)
  (key : string) (v : json) :
  NoDup (fst <$> es) → (key, v) ∈ es →
  foldl (λ m kv, <[fst kv := snd kv]> m) m es !! key = Some v.
Proof.
  revert m. induction es as [|[k' v'] es IH]; intros m Hnd Hin.
  - by apply elem_of_nil in Hin.
  - rewrite fmap_cons in Hnd. apply NoDup_cons in Hnd as [Hk' Hnd].
    apply elem_of_cons in Hin as [[= <- <-]|Hin]; simpl.
    + rewrite foldl_insert_absent by done. by rewrite lookup_insert_eq.
    + by apply IH.
Qed.

Lemma run_load_settings (σ : State) :
  run (allSettings ← call GetAllSettings;
       mret (syncableSettings allSettings)) σ
  = (Returned (syncableSettings (settings σ)), σ).
Proof. done. Qed.

(** X11: restoring the settings is an overlay, and it is not filtered.
    When the settings blob wins, each key of the remote payload is
    written to the local settings with its remote value: also a key
    that starts with ['sync_'], ['device_'] or ['google_'], which the
    upload would have left out.  Local keys the remote payload does not
    have are kept; nothing is deleted and nothing is uploaded.  (After
    the restore the unit stores its own ['sync_settings_time'].) *)
Theorem syncSettings_restore_overlays (tok : string) (σ : State)
  (d1 d2 d3 : N) (rest : list (Weather * N)) (f f' : DriveFile)
  (e0 : SyncableData) (fs : list (string * json)) :
  accessToken σ = Some tok → tok ≠ "" → tok ∈ validTokens σ →
  network σ = (Up, d1) :: (Up, d2) :: (Up, d3) :: rest →
  head (named SYNC_FILES.settings σ) = Some f →
  stored (fileId f) σ = Some (f', Envelope e0) →
  local_newer settings_ σ e0 = false →
  data e0 = JObj fs →
  NoDup (fst <$> fs) →
  ∃ σ' : State,
    run syncSettings σ = (Returned true, σ')
    ∧ (∀ key v, (key, v) ∈ fs → key ≠ "sync_settings_time" →
                settings σ' !! key = Some v)
    ∧ (∀ key, key ∉ fst <$> fs →
              key ≠ "sync_settings_time" → key ≠ "device_id" →
              settings σ' !! key = settings σ !! key)
    ∧ settings σ' !! "sync_settings_time" = Some (JTime (clock σ'))
    ∧ drive σ' = drive σ
    ∧ requests σ'
      = [Sent tok (GetMedia (fileId f));
         Sent tok (ListFiles SYNC_FILES.settings); Sent tok About]
        ++ requests σ.
Proof.
  intros Hacc Hne Hvalid Hnet Hnamed Hstored Hnewer Hdata Hnd.
  rewrite syncSettings_shape.
  rewrite (run_domain_unit_remote _ (λ σ, syncableSettings (settings σ))
             run_load_settings _ _ _
             tok σ Hacc Hne Hvalid d1 d2 d3 rest f f' e0 Hnet Hnamed
             Hstored).
  2:{ cbv zeta. change "settings" with (type_name settings_).
      rewrite winner_local_envelope. by rewrite Hnewer. }
  rewrite Hdata.
  rewrite run_bind.
  change (run (exc (entries (JObj fs))) ?s) with (Returned fs, s).
  cbv beta iota. rewrite run_restoreEach.
  eexists. split; [done|].
  change (type_name settings_) with "settings".
  change ("sync_" +:+ "settings" +:+ "_time") with "sync_settings_time".
  split_and!; try done.
  - intros key v Hin Hkey. simpl. rewrite lookup_insert_ne by done.
    by apply foldl_insert_present.
  - intros key Hin Hk1 Hk2. simpl. rewrite lookup_insert_ne by done.
    rewrite foldl_insert_absent by done.
    destruct (truthy _); [done|]. by rewrite lookup_insert_ne.
  - simpl. by rewrite lookup_insert_eq.
Qed.

(** ** The media index *)

(** X12: the media index goes through the settings as JSON text.  When
    the media blob wins, the unit stores the text [JSON.stringify] makes
    of the remote index under ['media_index']; reading the local index
    parses what is stored.  So after a remote win the local index is
    the remote one, provided the text is not empty and parses back to
    the value it was made from.  When the stored text does not parse,
    reading yields the empty index [{ images: [], audio: [] }]; reading
    never fails and changes nothing. *)
Theorem syncMedia_index_round_trip (tok : string) (σ : State)
  (d1 d2 d3 : N) (rest : list (Weather * N)) (f f' : DriveFile)
  (e0 : SyncableData) :
  accessToken σ = Some tok → tok ≠ "" → tok ∈ validTokens σ →
  network σ = (Up, d1) :: (Up, d2) :: (Up, d3) :: rest →
  head (named SYNC_FILES.media σ) = Some f →
  stored (fileId f) σ = Some (f', Envelope e0) →
  local_newer media σ e0 = false →
  ∃ σ' : State,
    run syncMedia σ = (Returned true, σ')
    ∧ settings σ' !! "media_index"
      = Some (JStr (JSON_stringify (data e0)))
    ∧ (JSON_stringify (data e0) ≠ "" →
       JSON_parse (JStr (JSON_stringify (data e0))) = inr (data e0) →
       run getLocalMediaIndex σ' = (Returned (data e0), σ'))
    ∧ ((∃ err, JSON_parse (JStr (JSON_stringify (data e0))) = inl err) →
       run getLocalMediaIndex σ'
       = (Returned (JObj [("images", JArr []); ("audio", JArr [])]), σ'))
    ∧ (∀ σ0, ∃ v, run getLocalMediaIndex σ0 = (Returned v, σ0))
    ∧ drive σ' = drive σ.
Proof.
  intros Hacc Hne Hvalid Hnet Hnamed Hstored Hnewer.
  rewrite syncMedia_shape.
  rewrite (run_domain_unit_remote _ media_index run_getLocalMediaIndex _ _ _
             tok σ Hacc Hne Hvalid d1 d2 d3 rest f f' e0 Hnet Hnamed
             Hstored).
  2:{ cbv zeta. change "media" with (type_name media).
      rewrite winner_local_envelope. by rewrite Hnewer. }
  rewrite run_setSetting.
  eexists. split; [done|].
  change (type_name media) with "media".
  change ("sync_" +:+ "media" +:+ "_time") with "sync_media_time".
  assert (∀ σ1,
             settings σ1 !! "media_index"
             = Some (JStr (JSON_stringify (data e0))) →
             media_index σ1
             = if String.eqb (JSON_stringify (data e0)) ""
               then JObj [("images", JArr []); ("audio", JArr [])]
               else match JSON_parse (JStr (JSON_stringify (data e0))) with
                    | inr v => v
                    | inl _ => JObj [("images", JArr []); ("audio", JArr [])]
                    end) as Hindex.
  { intros σ1 H1. unfold media_index. rewrite H1. simpl.
    by destruct (String.eqb _ _). }
  match goal with
  | |- context [settings ?s !! "media_index"] => set (σ' := s)
  end.
  assert (settings σ' !! "media_index"
          = Some (JStr (JSON_stringify (data e0)))) as Hstoredindex.
  { unfold σ', stamp. simpl settings.
    change ("sync_" +:+ "media" +:+ "_time") with "sync_media_time".
    rewrite lookup_insert_ne by done. by rewrite lookup_insert_eq. }
  split_and!; try done.
  - intros Hnonempty Hparse. rewrite run_getLocalMediaIndex.
    rewrite (Hindex _ Hstoredindex), Hparse.
    apply String.eqb_neq in Hnonempty. by rewrite Hnonempty.
  - intros [err Herr]. rewrite run_getLocalMediaIndex.
    rewrite (Hindex _ Hstoredindex), Herr. by destruct (String.eqb _ _).
  - intros σ0. eexists. apply run_getLocalMediaIndex.
Qed.

(** ** Clearing the cloud data *)

Lemma stored_of_member (f : DriveFile) (σ : State) :
  f ∈ fst <$> drive σ → is_Some (stored (fileId f) σ).
Proof.
  unfold stored. induction (drive σ) as [|g files IH]; simpl.
  - intros H. by apply elem_of_nil in H.
  - intros H. apply elem_of_cons in H as [->|H].
    + unfold has_id. by rewrite Nat.eqb_refl.
    + destruct (has_id (fileId f) g); [done|]. by apply IH.
Qed.

Lemma filter_member {A : Type} (P : A → bool) (l : list A) (x : A) :
  x ∈ List.filter P l ↔ x ∈ l ∧ P x = true.
Proof. by rewrite !list_elem_of_In, filter_In. Qed.

Lemma head_member {A : Type} (l : list A) (x : A) : head l = Some x → x ∈ l.
Proof. destruct l; [done|]. intros [= ->]. apply elem_of_cons. by left. Qed.

Lemma run_deleteFile_up (tok : string) (i : FileId) (σ : State) (dt : N)
  (rest : list (Weather * N)) :
  tok ∈ validTokens σ →
  network σ = (Up, dt) :: rest →
  is_Some (stored i σ) →
  run (deleteFile tok i) σ
  = (Returned true,
     set_drive (List.filter (λ g, negb (has_id i g)) (drive σ)) (nextFileId σ)
       (depart (Sent tok (DeleteFile i)) dt rest σ)).
Proof.
  intros Hvalid Hnet [g Hg]. unfold deleteFile.
  rewrite run_try_catch, run_bind, run_driveRequest.
  rewrite (fetch_up tok _ σ dt rest Hnet Hvalid). unfold serve.
  change (stored i (depart (Sent tok (DeleteFile i)) dt rest σ))
    with (stored i σ).
  by rewrite Hg.
Qed.

(** One round of the loop with the network up. *)
Lemma run_clear_one (tok name : string) (σ : State) :
  tok ∈ validTokens σ →
  all_up (network σ) → (2 ≤ length (network σ))%nat →
  ∃ σ',
    (∀ K : Proc UOp unit,
        run (file ← findFile tok name;
             match file with
             | Some file => deleteFile tok (fileId file);; mret tt
             | None => mret tt
             end;;
             K) σ
        = run K σ')
    ∧ drive σ' = without_first name (drive σ)
    ∧ validTokens σ' = validTokens σ
    ∧ all_up (network σ')
    ∧ (length (network σ) ≤ length (network σ') + 2)%nat
    ∧ settings σ' = settings σ ∧ notesDB σ' = notesDB σ
    ∧ tasksDB σ' = tasksDB σ ∧ foldersDB σ' = foldersDB σ.
Proof.
  intros Hvalid Hup Hlen.
  destruct (network σ) as [|[w1 dt1] [|[w2 dt2] rest]] eqn:Hnet;
    simpl in Hlen; try lia.
  apply Forall_cons_1 in Hup as [Hw1 Hup].
  apply Forall_cons_1 in Hup as [Hw2 Hup]. simpl in Hw1, Hw2. subst w1 w2.
  unfold without_first. change (named_in name (drive σ)) with (named name σ).
  destruct (head (named name σ)) as [f|] eqn:Hhead.
  - eexists. split.
    + intros K.
      rewrite run_bind, (run_findFile_up tok name σ dt1 _ Hvalid Hnet), Hhead.
      rewrite run_bind, run_bind.
      rewrite (run_deleteFile_up tok (fileId f) _ dt2 rest); [|done|done|].
      * by rewrite run_ret.
      * apply (stored_of_member f σ).
        apply head_member in Hhead. unfold named in Hhead.
        by apply filter_member in Hhead as [? _].
    + simpl. split_and!; try done. lia.
  - eexists. split.
    + intros K.
      rewrite run_bind, (run_findFile_up tok name σ dt1 _ Hvalid Hnet), Hhead.
      by rewrite run_bind, run_ret.
    + simpl. split_and!; try done.
      * by constructor.
      * lia.
Qed.

Lemma run_clearEach_up (tok : string) (names : list string) (σ : State) :
  tok ∈ validTokens σ →
  all_up (network σ) → (2 * length names ≤ length (network σ))%nat →
  ∃ σ',
    run (clearEach tok names) σ = (Returned tt, σ')
    ∧ drive σ' = foldl (λ files name, without_first name files) (drive σ) names
    ∧ settings σ' = settings σ ∧ notesDB σ' = notesDB σ
    ∧ tasksDB σ' = tasksDB σ ∧ foldersDB σ' = foldersDB σ.
Proof.
  revert σ. induction names as [|name names IH]; intros σ Hvalid Hup Hlen.
  - exists σ. done.
  - change (clearEach tok (name :: names))
      with (file ← findFile tok name;
            match file with
            | Some file => deleteFile tok (fileId file);; mret tt
            | None => mret tt
            end;;
            clearEach tok names).
    simpl in Hlen.
    destruct (run_clear_one tok name σ Hvalid Hup)
      as (σ1 & Hrun & Hdrive & Hv1 & Hup1 & Hlen1 & Hs & Hn & Ht & Hf); [lia|].
    rewrite Hrun.
    destruct (IH σ1) as (σ' & Hrun' & Hdrive' & Hs' & Hn' & Ht' & Hf');
      [by rewrite Hv1|done|lia|].
    exists σ'. split; [done|]. simpl. rewrite <- Hdrive.
    split_and!; congruence.
Qed.

Lemma filter_sublist {A : Type} (P : A → bool) (l : list A) :
  sublist (List.filter P l) l.
Proof.
  induction l as [|x l IH]; simpl; [done|].
  destruct (P x); [by apply sublist_skip|by apply sublist_cons].
Qed.

Lemma filter_all {A : Type} (P : A → bool) (l : list A) :
  Forall (λ x, P x = true) l → List.filter P l = l.
Proof.
  induction 1 as [|x l Hx Hl IH]; simpl; [done|]. by rewrite Hx, IH.
Qed.

Lemma filter_swap {A : Type} (P Q : A → bool) (l : list A) :
  List.filter P (List.filter Q l) = List.filter Q (List.filter P l).
Proof.
  induction l as [|x l IH]; simpl; [done|].
  destruct (P x) eqn:HP, (Q x) eqn:HQ; simpl; rewrite ?HP, ?HQ, ?IH; done.
Qed.

Lemma fst_filter_id (i : FileId) (files : list (DriveFile * Content)) :
  fst <$> List.filter (λ g, negb (has_id i g)) files
  = List.filter (λ f, negb (Nat.eqb (fileId f) i)) (fst <$> files).
Proof.
  induction files as [|g files IH]; simpl; [done|].
  unfold has_id at 1.
  destruct (Nat.eqb (fileId (fst g)) i); simpl; [exact IH|by f_equal].
Qed.

Lemma same_id_same_file (l : list DriveFile) (f g : DriveFile) :
  NoDup (fileId <$> l) → f ∈ l → g ∈ l → fileId g = fileId f → g = f.
Proof.
  induction l as [|x l IH]; intros Hnd Hf Hg Hid.
  - by apply elem_of_nil in Hf.
  - rewrite fmap_cons in Hnd. apply NoDup_cons in Hnd as [Hx Hnd].
    apply elem_of_cons in Hf as [->|Hf], Hg as [->|Hg]; try done.
    + exfalso. apply Hx. rewrite <- Hid. by apply list_elem_of_fmap_2.
    + exfalso. apply Hx. rewrite Hid. by apply list_elem_of_fmap_2.
    + by apply IH.
Qed.

Lemma named_in_without_first (name n : string)
  (files : list (DriveFile * Content)) :
  NoDup (fileId <$> (fst <$> files)) →
  named_in n (without_first name files)
  = if String.eqb n name then tail (named_in n files) else named_in n files.
Proof.
  intros Hnd. unfold without_first.
  destruct (head (named_in name files)) as [f|] eqn:Hhead.
  - unfold named_in at 1. rewrite fst_filter_id, filter_swap.
    fold (named_in n files).
    assert (f ∈ fst <$> files ∧ fileName f = name) as [Hf Hname].
    { apply head_member in Hhead. unfold named_in in Hhead.
      apply filter_member in Hhead as [? H]. by apply String.eqb_eq in H. }
    destruct (String.eqb n name) eqn:Hn.
    + apply String.eqb_eq in Hn. subst n.
      destruct (named_in name files) as [|f0 tl] eqn:Hlist; [done|].
      injection Hhead as ->. simpl. rewrite Nat.eqb_refl. simpl.
      apply filter_all, Forall_forall. intros g Hg.
      apply negb_true_iff, Nat.eqb_neq. intros Hid.
      assert (NoDup (fileId <$> f :: tl)) as Hnd'.
      { rewrite <- Hlist. eapply sublist_NoDup; [exact Hnd|].
        apply fmap_sublist. unfold named_in. apply filter_sublist. }
      rewrite fmap_cons in Hnd'. apply NoDup_cons in Hnd' as [Hx _].
      apply Hx. rewrite <- Hid. by apply list_elem_of_fmap_2.
    + apply filter_all, Forall_forall. intros g Hg.
      apply negb_true_iff, Nat.eqb_neq. intros Hid.
      unfold named_in in Hg. apply filter_member in Hg as [Hg Hgn].
      apply String.eqb_eq in Hgn.
      assert (g = f) as -> by by eapply same_id_same_file.
      apply String.eqb_neq in Hn. congruence.
  - destruct (String.eqb n name) eqn:Hn; [|done].
    apply String.eqb_eq in Hn. subst n.
    by destruct (named_in name files).
Qed.

Lemma without_first_distinct (name : string)
  (files : list (DriveFile * Content)) :
  NoDup (fileId <$> (fst <$> files)) →
  NoDup (fileId <$> (fst <$> without_first name files)).
Proof.
  intros Hnd. unfold without_first.
  destruct (head (named_in name files)); [|done].
  eapply sublist_NoDup; [exact Hnd|].
  apply fmap_sublist, fmap_sublist, filter_sublist.
Qed.

Lemma named_in_cleared (names : list string) (n : string)
  (files : list (DriveFile * Content)) :
  NoDup names →
  NoDup (fileId <$> (fst <$> files)) →
  named_in n (foldl (λ files name, without_first name files) files names)
  = if bool_decide (n ∈ names) then tail (named_in n files)
    else named_in n files.
Proof.
  revert files. induction names as [|name names IH]; intros files Hnames Hnd.
  - by rewrite bool_decide_eq_false_2 by apply not_elem_of_nil.
  - apply NoDup_cons in Hnames as [Hname Hnames]. simpl.
    rewrite IH by (done || by apply without_first_distinct).
    rewrite !(named_in_without_first name n files Hnd).
    destruct (String.eqb n name) eqn:Hn.
    + apply String.eqb_eq in Hn. subst n.
      rewrite bool_decide_eq_false_2 by done.
      rewrite bool_decide_eq_true_2; [done|]. apply elem_of_cons. by left.
    + apply String.eqb_neq in Hn.
      destruct (bool_decide (n ∈ names)) eqn:Hin.
      * apply bool_decide_eq_true in Hin.
        rewrite bool_decide_eq_true_2; [done|]. apply elem_of_cons. by right.
      * apply bool_decide_eq_false in Hin.
        rewrite bool_decide_eq_false_2; [done|].
        rewrite elem_of_cons. by intros [?|?].
Qed.

(** X13: clearing the cloud data deletes one file per blob name.  On a
    signed-in device whose requests are all served, in a folder where no
    two files share an id, [clearCloudData] returns [true] and removes,
    for each of the seven blob names, the first file of that name and
    only that one: a name that had one blob has none afterwards, a name
    that had several keeps all but the first, and files of other names
    are untouched.  The local stores, the stored last-sync times among
    them, are as they were. *)
Theorem clearCloudData_deletes_one_blob_per_name (tok : string) (σ : State) :
  accessToken σ = Some tok → tok ≠ "" → tok ∈ validTokens σ →
  all_up (network σ) → (15 ≤ length (network σ))%nat →
  distinct_ids σ →
  ∃ σ' : State,
    run clearCloudData σ = (Returned true, σ')
    ∧ (∀ name,
         named name σ'
         = if bool_decide (name ∈ SYNC_FILES.values)
           then tail (named name σ) else named name σ)
    ∧ (∀ name,
         name ∈ SYNC_FILES.values → (length (named name σ) ≤ 1)%nat →
         named name σ' = [])
    ∧ settings σ' = settings σ ∧ notesDB σ' = notesDB σ
    ∧ tasksDB σ' = tasksDB σ ∧ foldersDB σ' = foldersDB σ.
Proof.
  intros Hacc Hne Hvalid Hup Hlen Hids.
  destruct (network σ) as [|[w dt] rest] eqn:Hnet; [simpl in Hlen; lia|].
  apply Forall_cons_1 in Hup as [Hw Hup]. simpl in Hw, Hlen. subst w.
  unfold clearCloudData.
  rewrite run_bind, (run_ensureValidToken_up tok σ dt rest Hacc Hne Hvalid Hnet).
  rewrite (nonempty_Some tok Hne), run_try_catch, run_bind.
  destruct (run_clearEach_up tok SYNC_FILES.values
              (depart (Sent tok About) dt rest σ))
    as (σ' & Hrun & Hdrive & Hs & Hn & Ht & Hf); [done|done|simpl; lia|].
  rewrite Hrun, run_ret. exists σ'. split; [done|].
  assert (∀ name,
             named name σ'
             = if bool_decide (name ∈ SYNC_FILES.values)
               then tail (named name σ) else named name σ) as Hnamed.
  { intros name. change (named name σ') with (named_in name (drive σ')).
    rewrite Hdrive. apply named_in_cleared; [|exact Hids].
    unfold SYNC_FILES.values. repeat (apply NoDup_cons; split;
      [rewrite ?elem_of_cons, elem_of_nil; vm_compute; intuition discriminate|]).
    apply NoDup_nil_2. }
  split_and!; try done.
  intros name Hin Hone. rewrite Hnamed, bool_decide_eq_true_2 by done.
  destruct (named name σ) as [|f [|g l]]; simpl in *; try done. lia.
Qed.

Lemma fetch_all_unserved {X : Type} (tok : string) (req : Request X)
  (σ : State) :
  all_unserved (network σ) →
  ∃ r σ',
    fetch tok req σ = (r, σ')
    ∧ (∀ x, r ≠ Ok x)
    ∧ drive σ' = drive σ
    ∧ all_unserved (network σ')
    ∧ requests σ' = Sent tok req :: requests σ.
Proof.
  intros Hnet. unfold fetch.
  destruct (network σ) as [|[w dt] rest].
  - eexists _, _. split; [done|]. by split_and!.
  - apply Forall_cons_1 in Hnet as [Hw Hrest]. simpl in Hw.
    destruct w; [done| |]; (eexists _, _; split; [done|]; by split_and!).
Qed.

Lemma run_clearEach_unserved (tok : string) (names : list string) (σ : State) :
  all_unserved (network σ) →
  ∃ σ',
    run (clearEach tok names) σ = (Returned tt, σ')
    ∧ drive σ' = drive σ
    ∧ length (requests σ') = (length names + length (requests σ))%nat.
Proof.
  revert σ. induction names as [|name names IH]; intros σ Hnet.
  - by exists σ.
  - change (clearEach tok (name :: names))
      with (file ← findFile tok name;
            match file with
            | Some file => deleteFile tok (fileId file);; mret tt
            | None => mret tt
            end;;
            clearEach tok names).
    destruct (fetch_all_unserved tok (ListFiles name) σ Hnet)
      as (r & σ1 & Hfetch & Hr & Hdrive & Hnet1 & Hreq).
    assert (run (findFile tok name) σ = (Returned None, σ1)) as Hfind.
    { unfold findFile.
      rewrite run_try_catch, run_bind, run_driveRequest, Hfetch.
      destruct r as [|code|x]; [done| |by destruct (Hr x)].
      by destruct (code =? 401). }
    rewrite run_bind, Hfind, run_bind, run_ret.
    destruct (IH σ1 Hnet1) as (σ' & Hrun & Hdrive' & Hlen).
    exists σ'. split; [done|]. split; [congruence|].
    rewrite Hlen, Hreq. simpl. lia.
Qed.

(** X14: the result of [clearCloudData] tells the outcome of the token
    check only.  Once the token probe was served, the function returns
    [true] whatever becomes of the look-ups and deletions: when no
    request after the probe is served (the device went offline, or the
    server refuses), it still returns [true], after seven failed
    look-ups, and every file is still in the folder. *)
Theorem clearCloudData_reports_the_token_check (tok : string) (σ : State)
  (dt : N) (rest : list (Weather * N)) :
  accessToken σ = Some tok → tok ≠ "" → tok ∈ validTokens σ →
  network σ = (Up, dt) :: rest →
  all_unserved rest →
  ∃ σ' : State,
    run clearCloudData σ = (Returned true, σ')
    ∧ drive σ' = drive σ
    ∧ length (requests σ') = (8 + length (requests σ))%nat.
Proof.
  intros Hacc Hne Hvalid Hnet Hrest. unfold clearCloudData.
  rewrite run_bind, (run_ensureValidToken_up tok σ dt rest Hacc Hne Hvalid Hnet).
  rewrite (nonempty_Some tok Hne), run_try_catch, run_bind.
  destruct (run_clearEach_unserved tok SYNC_FILES.values
              (depart (Sent tok About) dt rest σ) Hrest)
    as (σ' & Hrun & Hdrive & Hlen).
  rewrite Hrun, run_ret. exists σ'. split; [done|]. split; [done|].
  rewrite Hlen. simpl. lia.
Qed.

(** ** The end of a full sync *)

Lemma serve_events {X : Type} (req : Request X) (σ : State) :
  events (snd (serve req σ)) = events σ.
Proof.
  unfold serve. destruct req; simpl; try done;
    destruct (stored file σ) as [[? ?]|]; done.
Qed.

(** No effect of a unit dispatches an event. *)
Lemma perform_events {X : Type} (op : UOp X) (σ : State) :
  events (snd (perform op σ)) = events σ.
Proof.
  destruct op; simpl; try done.
  unfold fetch. destruct (network σ) as [|[w dt] rest]; simpl; [done|].
  destruct w; simpl; try done.
  case_bool_decide; simpl; [by rewrite serve_events|done].
Qed.

Lemma run_events {A : Type} (p : Proc UOp A) (σ : State) :
  events (snd (run p σ)) = events σ.
Proof.
  revert σ. induction p as [a|e|X op k IH]; intros σ; try done.
  unfold run in *. simpl.
  pose proof (perform_events op σ) as H1.
  destruct (perform op σ) as [x σ']. rewrite IH. done.
Qed.

Lemma run_flag {A : Type} (p : Proc UOp A) (σ : State) :
  syncInProgress (snd (run p σ)) = syncInProgress σ.
Proof.
  revert σ. induction p as [a|e|X op k IH]; intros σ; try done.
  unfold run in *. simpl.
  pose proof (perform_flag op σ) as H1.
  destruct (perform op σ) as [x σ']. rewrite IH. done.
Qed.

Lemma run_all_events (ps : list (Proc UOp bool)) (σ : State) :
  events (snd (run_all ps σ)) = events σ.
Proof.
  revert σ. induction ps as [|p ps IH]; intros σ; simpl; [done|].
  pose proof (run_events p σ) as H1. destruct (run p σ) as [r σ1].
  specialize (IH σ1). destruct (run_all ps σ1) as [rs σ2]. simpl in *.
  congruence.
Qed.

Lemma run_all_length (ps : list (Proc UOp bool)) (σ : State) :
  length (fst (run_all ps σ)) = length ps.
Proof.
  revert σ. induction ps as [|p ps IH]; intros σ; simpl; [done|].
  destruct (run p σ) as [r σ1].
  specialize (IH σ1). destruct (run_all ps σ1) as [rs σ2]. simpl in *.
  by rewrite IH.
Qed.

Lemma report_not_busy (rs : list Settled) :
  length rs = 7%nat → report (collectErrors rs) ≠ busy_report.
Proof.
  intros Hlen Heq. apply (f_equal errors) in Heq. simpl in Heq.
  rewrite collectErrors_failures in Heq by done.
  destruct (failures rs) as [|d [|d' l]]; discriminate Heq.
Qed.

(** X15: how a full sync ends.  A [syncAll] that finds the lock free
    has, when it returns, released the lock and dispatched exactly one
    ['syncComplete'] event, whose detail is the report it returns; the
    units dispatch nothing and do not touch the lock.  A [syncAll]
    called right after is therefore not refused.  Under every schedule
    the same holds once the units have settled: the call stores the
    time, dispatches the report, releases the lock and returns. *)
Theorem syncAll_releases_lock_and_notifies (σ : State) :
  syncInProgress σ = false →
  (∃ (rep : SyncReport) (σ' : State),
      run_job syncAll σ = (Returned rep, σ')
      ∧ syncInProgress σ' = false
      ∧ events σ' = rep :: events σ
      ∧ ∃ rep2 σ2,
          run_job syncAll σ' = (Returned rep2, σ2)
          ∧ rep2 ≠ busy_report
          ∧ events σ2 = [rep2; rep] ++ events σ)
  ∧ ∃ children k σ0,
      advance syncAll σ = (Joining children k, σ0)
      ∧ syncInProgress σ0 = true
      ∧ ∀ results σ1, ∃ p,
          advance (k results) σ1 = (Running p, σ1)
          ∧ ∀ σ2, ∃ σ3,
              resume p σ2
              = Some (Running (Ret (report (collectErrors results))), σ3)
              ∧ syncInProgress σ3 = false
              ∧ events σ3 = report (collectErrors results) :: events σ2.
Proof.
  intros Hidle. split.
  - rewrite (run_syncAll_idle σ Hidle).
    pose proof (run_all_events units (set_syncInProgress true σ)) as Hev.
    destruct (run_all units (set_syncInProgress true σ)) as [rs σ1].
    simpl in Hev.
    eexists _, _. split; [done|]. split; [done|]. split; [by simpl; f_equal|].
    rewrite run_syncAll_idle by done.
    match goal with
    | |- context [run_all units ?s] =>
        pose proof (run_all_events units s) as Hev2;
        pose proof (run_all_length units s) as Hlen2;
        destruct (run_all units s) as [rs2 σ2]
    end.
    simpl in Hev2, Hlen2.
    eexists _, _. split; [done|]. split; [by apply report_not_busy|].
    simpl. by rewrite Hev2, Hev.
  - destruct (syncAll_after_join σ Hidle)
      as (children & k & σ0 & Hadv & _ & Hk).
    destruct (advance_syncAll_idle σ Hidle) as (t & σ0' & Hadv' & _ & Hflag).
    rewrite Hadv in Hadv'. injection Hadv' as <- <-.
    exists children, k, σ0. split; [done|]. split; [done|].
    intros results σ1. destruct (Hk results σ1) as (p & Hp & Hres).
    exists p. split; [done|]. intros σ2. eexists.
    split; [apply Hres|]. done.
Qed.

(** ** The device id *)

(** X16: the device id is generated once.  [getDeviceId] yields a
    truthy id and leaves it stored under ['device_id']: the stored id
    when there is a truthy one, in which case nothing is written, and
    otherwise a new id [device_<clock>_<random suffix>], which it
    stores.  Every later call on a storage that holds this id yields it
    again and writes nothing, whatever the clock and the random source
    say by then.  The key is one the settings upload leaves out. *)
Theorem getDeviceId_generated_once (σ : State) :
  ∃ (id : json) (σ1 : State),
    run getDeviceId σ = (Returned id, σ1)
    ∧ truthy id = true
    ∧ settings σ1 !! "device_id" = Some id
    ∧ (∀ d, settings σ !! "device_id" = Some d → truthy d = true →
            id = d ∧ σ1 = σ)
    ∧ (settings σ !! "device_id" = None →
       id = JStr ("device_" +:+ pretty (clock σ) +:+ "_" +:+ random σ)
       ∧ σ1 = set_settings (<["device_id" := id]> (settings σ)) σ)
    ∧ (∀ σ2, settings σ2 !! "device_id" = Some id →
             run getDeviceId σ2 = (Returned id, σ2))
    ∧ syncable "device_id" = false.
Proof.
  exists (found_deviceId σ), (with_deviceId σ).
  destruct (with_deviceId_settled σ) as [Hstored Htruthy].
  assert (∀ s d, settings s !! "device_id" = Some d → truthy d = true →
                 found_deviceId s = d ∧ with_deviceId s = s) as Hkept.
  { intros s d Hd Ht. destruct (found_deviceId_stored s d Hd Ht) as [-> _].
    split; [done|]. unfold with_deviceId. rewrite Hd. simpl. rewrite Ht.
    by destruct s. }
  split_and!; try done.
  - apply run_getDeviceId.
  - intros d Hd Ht. by apply Hkept.
  - intros Hnone. unfold with_deviceId, found_deviceId. rewrite Hnone.
    done.
  - intros σ2 H2. rewrite run_getDeviceId.
    by destruct (Hkept σ2 (found_deviceId σ) H2 Htruthy) as [-> ->].
Qed.

(** ** What the settings unit lets out *)

Lemma serve_settings {X : Type} (req : Request X) (σ : State) :
  settings (snd (serve req σ)) = settings σ.
Proof.
  unfold serve. destruct req; simpl; try done;
    destruct (stored file σ) as [[? ?]|]; done.
Qed.

Lemma perform_keeps_settings {X : Type} (op : UOp X) (σ : State) :
  match op with SetSetting _ _ => False | _ => True end →
  settings (snd (perform op σ)) = settings σ.
Proof.
  destruct op; simpl; try done. intros _.
  unfold fetch. destruct (network σ) as [|[w dt] rest]; simpl; [done|].
  destruct w; simpl; try done.
  case_bool_decide; simpl; [by rewrite serve_settings|done].
Qed.

Lemma keeps_settings_run {A : Type} (p : Proc UOp A) (σ : State) :
  keeps_settings p → settings (snd (run p σ)) = settings σ.
Proof.
  revert σ. induction p as [a|e|X op k IH]; intros σ Hp; try done.
  destruct Hp as [Hop Hk]. unfold run in *. simpl.
  pose proof (perform_keeps_settings op σ Hop) as Hs.
  destruct (perform op σ) as [x σ1]. simpl in Hs. rewrite <- Hs.
  by apply IH.
Qed.

Lemma keeps_settings_bind {A B : Type} (m : Proc UOp A) (f : A → Proc UOp B) :
  keeps_settings m → (∀ a, keeps_settings (f a)) → keeps_settings (m ≫= f).
Proof.
  intros Hm Hf. induction m as [a|e|X op k IH].
  - rewrite bind_Ret. apply Hf.
  - done.
  - rewrite bind_Vis. destruct Hm as [Hop Hk]. split; [done|].
    intros x. by apply IH.
Qed.

Lemma keeps_settings_try_catch {A : Type} (p : Proc UOp A)
  (h : Error → Proc UOp A) :
  keeps_settings p → (∀ e, keeps_settings (h e)) →
  keeps_settings (try_catch p h).
Proof.
  intros Hp Hh. induction p as [a|e|X op k IH]; simpl; try done.
  destruct Hp as [Hop Hk]. split; [done|]. intros x. by apply IH.
Qed.

Lemma keeps_settings_driveRequest {X : Type} (token : string) (req : Request X) :
  keeps_settings (driveRequest token req).
Proof.
  unfold driveRequest. apply keeps_settings_bind; [by split|].
  intros [|code|x]; try done. by destruct (code =? 401).
Qed.

Lemma keeps_settings_ensureValidToken : keeps_settings ensureValidToken.
Proof.
  unfold ensureValidToken. apply keeps_settings_bind; [by split|].
  intros t. destruct (nonempty t) as [bearer|]; [|done].
  apply keeps_settings_try_catch; [|done].
  apply keeps_settings_bind; [by split|].
  intros [|code|[]]; try done.
  - apply keeps_settings_bind; [by split|]. intros fn.
    destruct ((code =? 401) && fn); [|done].
    apply keeps_settings_bind; [by split|]. intros t'.
    destruct (nonempty t'); [|done]. apply keeps_settings_bind; by split.
Qed.

Lemma keeps_settings_findFile (token name : string) :
  keeps_settings (findFile token name).
Proof.
  unfold findFile. apply keeps_settings_try_catch; [|done].
  apply keeps_settings_bind; [apply keeps_settings_driveRequest|].
  intros [|code|files]; done.
Qed.

Lemma keeps_settings_readFile (token : string) (file : FileId) :
  keeps_settings (readFile token file).
Proof.
  unfold readFile. apply keeps_settings_try_catch; [|done].
  apply keeps_settings_bind; [apply keeps_settings_driveRequest|].
  intros [|code|[| |e|]]; done.
Qed.

Lemma keeps_settings_writeFile (token name : string) (content : SyncableData)
  (existing : option FileId) :
  keeps_settings (writeFile token name content existing).
Proof.
  unfold writeFile. apply keeps_settings_try_catch; [|done].
  apply keeps_settings_bind; [apply keeps_settings_driveRequest|].
  intros [|code|i]; done.
Qed.

(** A program that uploads nothing. *)
Lemma uploads_carry_quiet {A : Type} (D : json) (p : Proc UOp A) (σ : State) :
  sends_only quiet p → uploads_carry D p σ.
Proof.
  intros Hp. destruct (sends_only_run quiet p σ Hp) as (new & Hnew & Hquiet).
  exists new. split; [done|]. intros c name e Hc Hup.
  rewrite Forall_forall in Hquiet. specialize (Hquiet c Hc).
  unfold quiet in Hquiet. congruence.
Qed.

(** After a part that uploads nothing and keeps a stored device id. *)
Lemma uploads_carry_bind {A B : Type} (D : json) (m : Proc UOp A)
  (f : A → Proc UOp B) (σ : State) :
  sends_only quiet m →
  (∀ id, settings σ !! "device_id" = Some id → truthy id = true →
         settings (snd (run m σ)) !! "device_id" = Some id) →
  (∀ a σ1, run m σ = (Returned a, σ1) → uploads_carry D (f a) σ1) →
  uploads_carry D (m ≫= f) σ.
Proof.
  intros Hm Hid Hf.
  destruct (sends_only_run quiet m σ Hm) as (q & Hq & Hquiet).
  rewrite Forall_forall in Hquiet.
  unfold uploads_carry. rewrite run_bind.
  destruct (run m σ) as [[a|err] σ1] eqn:Hrun; simpl in Hq, Hid.
  - destruct (Hf a σ1 eq_refl) as (new & Hnew & Hcarry).
    exists (new ++ q). split; [by rewrite Hnew, Hq, app_assoc|].
    intros c name e Hc Hup. apply elem_of_app in Hc as [Hc|Hc].
    + destruct (Hcarry c name e Hc Hup) as (Hdata & Hstored & Hkept).
      split; [done|]. split; [done|]. intros id Hbefore Htruthy.
      by apply Hkept; [apply Hid|].
    + specialize (Hquiet c Hc). unfold quiet in Hquiet. congruence.
  - exists q. split; [done|]. intros c name e Hc Hup.
    specialize (Hquiet c Hc). unfold quiet in Hquiet. congruence.
Qed.

(** Before a part that uploads nothing and does not write the device
    id. *)
Lemma uploads_carry_then {A B : Type} (D : json) (p : Proc UOp A)
  (rest : A → Proc UOp B) (σ : State) :
  uploads_carry D p σ →
  (∀ a, sends_only quiet (rest a)) →
  (∀ a σ1, settings (snd (run (rest a) σ1)) !! "device_id"
           = settings σ1 !! "device_id") →
  uploads_carry D (p ≫= rest) σ.
Proof.
  intros (new & Hnew & Hcarry) Hquiet Hkeeps.
  unfold uploads_carry. rewrite run_bind.
  destruct (run p σ) as [[a|err] σ1] eqn:Hrun; simpl in Hnew, Hcarry.
  - destruct (sends_only_run quiet (rest a) σ1 (Hquiet a))
      as (q & Hq & HQ).
    rewrite Forall_forall in HQ.
    exists (q ++ new). split; [by rewrite Hq, Hnew, app_assoc|].
    intros c name e Hc Hup. apply elem_of_app in Hc as [Hc|Hc].
    + specialize (HQ c Hc). unfold quiet in HQ. congruence.
    + destruct (Hcarry c name e Hc Hup) as (Hdata & Hstored & Hkept).
      split; [done|]. split; [|done]. by rewrite Hkeeps.
  - exists new. split; [done|]. exact Hcarry.
Qed.

Lemma uploads_carry_try_catch {A : Type} (D : json) (p : Proc UOp A) (b : A)
  (σ : State) :
  uploads_carry D p σ → uploads_carry D (try_catch p (λ _, mret b)) σ.
Proof.
  intros (new & Hnew & Hcarry). unfold uploads_carry. rewrite run_try_catch.
  destruct (run p σ) as [[a|err] σ1]; by exists new.
Qed.

(** The one place a unit uploads from. *)
Lemma uploads_carry_upload (D : json) (tok name : string)
  (existing : option FileId) (σ : State) :
  uploads_carry D
    (syncData ← syncData D; writeFile tok name syncData existing;; mret tt) σ.
Proof.
  unfold uploads_carry. rewrite run_bind, run_syncData.
  set (e := fresh_envelope D σ). set (σ1 := with_deviceId σ).
  pose proof (keeps_settings_run (writeFile tok name e existing) σ1
                (keeps_settings_writeFile _ _ _ _)) as Hkeep.
  destruct (sends_only_run _ (writeFile tok name e existing) σ1
              (sends_writeFile tok name e existing)) as (new & Hnew & Hup).
  rewrite Forall_forall in Hup.
  rewrite run_bind.
  destruct (run (writeFile tok name e existing) σ1) as [[w|err] σ2];
    simpl in Hkeep, Hnew; exists new; (split; [done|]);
    intros c name' e' Hc Hc'; rewrite (Hup c Hc) in Hc';
    injection Hc' as <- <-; simpl; rewrite Hkeep;
    destruct (with_deviceId_settled σ) as [Hstored _];
    (split; [done|]); (split; [exact Hstored|]);
    intros id Hid Htruthy; by destruct (found_deviceId_stored σ id Hid Htruthy).
Qed.

Lemma syncable_member (m : gmap string json) (key : string) (v : json) :
  m !! key = Some v → syncable key = true →
  ∃ fs, syncableSettings m = JObj fs ∧ (key, v) ∈ fs.
Proof.
  intros Hm Hkey. eexists. split; [done|].
  apply list_elem_of_In, List.filter_In. split; [|done].
  by apply list_elem_of_In, elem_of_map_to_list.
Qed.

Lemma uploads_carry_syncSettings (σ : State) :
  uploads_carry (syncableSettings (settings σ)) syncSettings σ.
Proof.
  unfold syncSettings.
  apply uploads_carry_bind; [apply sends_ensureValidToken| |].
  { intros id Hid _.
    by rewrite (keeps_settings_run _ σ keeps_settings_ensureValidToken). }
  intros t σ1 Hrun1.
  assert (settings σ1 = settings σ) as Hsame.
  { pose proof (keeps_settings_run _ σ keeps_settings_ensureValidToken) as H.
    by rewrite Hrun1 in H. }
  rewrite <- Hsame. clear σ Hrun1 Hsame.
  destruct (nonempty t) as [tok|]; [|by apply uploads_carry_quiet].
  apply uploads_carry_try_catch.
  apply uploads_carry_bind; [by split|by intros id Hid _|].
  intros allSettings σ' Hall. rewrite run_call in Hall.
  injection Hall as <- <-. cbv zeta.
  change (fst (perform GetAllSettings σ1)) with (settings σ1).
  change (snd (perform GetAllSettings σ1)) with σ1.
  apply uploads_carry_bind.
  { by apply sends_getLocalDataWithMetadata. }
  { intros id Hid Htruthy. rewrite run_getLocalDataWithMetadata. simpl.
    destruct (found_deviceId_stored σ1 id Hid Htruthy) as [_ Hkept].
    unfold with_deviceId in *. simpl in *. by rewrite Hkept. }
  intros localData σ2 _.
  apply uploads_carry_bind; [apply sends_findFile| |].
  { intros id Hid _.
    by rewrite (keeps_settings_run _ σ2 (keeps_settings_findFile _ _)). }
  intros remoteFile σ3 _.
  apply uploads_carry_then.
  - destruct remoteFile as [remoteFile|]; [|apply uploads_carry_upload].
    apply uploads_carry_bind; [apply sends_readFile| |].
    { intros id Hid _.
      by rewrite (keeps_settings_run _ σ3 (keeps_settings_readFile _ _)). }
    intros [[remoteData|]|] σ4 _.
    + rewrite resolveRemote_Shaped.
      destruct (winner (resolveConflict localData remoteData)).
      * apply uploads_carry_upload.
      * apply uploads_carry_quiet.
        apply sends_only_bind; [apply silent_sends, silent_exc|].
        intros es. apply silent_sends, silent_restoreEach.
    + rewrite resolveRemote_Unshaped. by apply uploads_carry_quiet.
    + by apply uploads_carry_quiet.
  - intros []. split; [done|]. intros now. by split.
  - intros [] σx. rewrite run_bind, run_call. simpl.
    by rewrite lookup_insert_ne.
Qed.

(** C9 (amended): what the settings unit uploads.  Every upload it can
    ever send goes to the settings blob with a payload that has no key
    starting with ['sync_'], ['device_'] or ['google_'].  The filter is
    by these prefixes only: in every run, whatever the network does, the
    payload of an upload is the stored settings without the keys of
    these prefixes, so every other stored setting leaves the device,
    among them ['last_full_sync'], the time of the last full sync, and
    the entries ['npd_note_pin_<id>']; and the envelope carries, in
    [metadata.deviceId], the device id that is stored under
    ['device_id']. *)
Theorem syncSettings_uploads_all_but_prefixed (σ : State) :
  sends_only settings_upload syncSettings
  ∧ (∃ new,
        requests (snd (run syncSettings σ)) = new ++ requests σ
        ∧ Forall settings_upload new)
  ∧ uploads_carry (syncableSettings (settings σ)) syncSettings σ
  ∧ (∀ key v,
        settings σ !! key = Some v → syncable key = true →
        ∃ fs, syncableSettings (settings σ) = JObj fs ∧ (key, v) ∈ fs)
  ∧ syncable "last_full_sync" = true
  ∧ ∀ noteId, syncable ("npd_note_pin_" +:+ noteId) = true.
Proof.
  split_and!.
  - apply sends_syncSettings.
  - apply sends_only_run, sends_syncSettings.
  - apply uploads_carry_syncSettings.
  - apply syncable_member.
  - reflexivity.
  - intros noteId. reflexivity.
Qed.

(** ** Programs over other states *)

Lemma handle_bind {Op : Type → Type} {St : Type}
  (h : ∀ X, Op X → St → X * St) {A B : Type} (m : Proc Op A)
  (f : A → Proc Op B) (s : St) :
  handle h (m ≫= f) s
  = match handle h m s with
    | (Returned a, s') => handle h (f a) s'
    | (Threw e, s') => (Threw e, s')
    end.
Proof.
  revert s. induction m as [a|e|X op k IH]; intros s; try done.
  change (handle h (Vis op k ≫= f) s)
    with (let '(x, s') := h X op s in handle h (k x ≫= f) s').
  simpl. destruct (h X op s) as [x s']. apply IH.
Qed.

Lemma handle_try_catch {Op : Type → Type} {St : Type}
  (h : ∀ X, Op X → St → X * St) {A : Type} (p : Proc Op A)
  (c : Error → Proc Op A) (s : St) :
  handle h (try_catch p c) s
  = match handle h p s with
    | (Returned a, s') => (Returned a, s')
    | (Threw e, s') => handle h (c e) s'
    end.
Proof.
  revert s. induction p as [a|e|X op k IH]; intros s; simpl; try done.
  destruct (h X op s) as [x s']. apply IH.
Qed.

(** [finally]: the block runs however the body ended, and the call
    ends as the body did. *)
Lemma handle_try_finally {Op : Type → Type} {St : Type}
  (h : ∀ X, Op X → St → X * St) {A : Type} (p : Proc Op A)
  (f : Proc Op unit) (s : St) :
  handle h (try_finally p f) s
  = let '(r, s1) := handle h p s in
    match handle h f s1 with
    | (Returned _, s2) => (r, s2)
    | (Threw e, s2) => (Threw e, s2)
    end.
Proof.
  pose proof (@handle_bind Op St h) as Hbind. unfold mbind, proc_bind in Hbind.
  unfold try_finally.
  rewrite Hbind, handle_try_catch, Hbind.
  destruct (handle h p s) as [[a|e] s1]; simpl.
  - rewrite Hbind. by destruct (handle h f s1) as [[[]|e] s2].
  - rewrite Hbind. by destruct (handle h f s1) as [[[]|e'] s2].
Qed.

(** ** The sync coordinator *)

Lemma run_provider_bind {A B : Type} (m : Proc POp A) (f : A → Proc POp B)
  (s : Provider * State) :
  run_provider (m ≫= f) s
  = match run_provider m s with
    | (Returned a, s') => run_provider (f a) s'
    | (Threw e, s') => (Threw e, s')
    end.
Proof. apply handle_bind. Qed.

Lemma run_provider_try_catch {A : Type} (p : Proc POp A)
  (h : Error → Proc POp A) (s : Provider * State) :
  run_provider (try_catch p h) s
  = match run_provider p s with
    | (Returned a, s') => (Returned a, s')
    | (Threw e, s') => run_provider (h e) s'
    end.
Proof. apply handle_try_catch. Qed.

Lemma run_provider_try_finally {A : Type} (p : Proc POp A) (f : Proc POp unit)
  (s : Provider * State) :
  run_provider (try_finally p f) s
  = let '(r, s1) := run_provider p s in
    match run_provider f s1 with
    | (Returned _, s2) => (r, s2)
    | (Threw e, s2) => (Threw e, s2)
    end.
Proof. apply handle_try_finally. Qed.

Lemma run_provider_lift_job {A : Type} (p : Proc JOp A) (π : Provider)
  (σ : State) :
  run_provider (lift_job p) (π, σ)
  = let '(r, σ') := run_job p σ in (r, (π, σ')).
Proof.
  revert σ. induction p as [a|e|X op k IH]; intros σ; try done.
  unfold run_provider, run_job in *. simpl.
  destruct (perform_job op σ) as [x σ']. apply IH.
Qed.

Lemma run_provider_call {X : Type} (op : POp X) (s : Provider * State) :
  run_provider (call op) s
  = let '(x, s') := perform_provider op s in (Returned x, s').
Proof. done. Qed.

Lemma run_job_syncAll_returns (σ : State) :
  ∃ rep σ', run_job syncAll σ = (Returned rep, σ').
Proof.
  destruct (syncInProgress σ) eqn:Hflag.
  - rewrite run_syncAll_busy by done. by eexists _, _.
  - rewrite run_syncAll_idle by done.
    destruct (run_all units (set_syncInProgress true σ)) as [rs σ1].
    by eexists _, _.
Qed.

#[local] Arguments try_finally : simpl never.
#[local] Arguments try_catch : simpl never.
#[local] Arguments lift_job : simpl never.
#[local] Arguments syncAll : simpl never.
#[local] Arguments unit_of : simpl never.
#[local] Arguments run_provider : simpl never.

(** One statement of the provider after the other. *)
Ltac provider_steps :=
  repeat (rewrite run_provider_bind, run_provider_call; simpl).

(** X17: the guard of the provider.  When the provider's lock is held,
    or the user is not signed in, or there is no (non-empty) access
    token, [performSync] and [syncNow] return false at once: the lock,
    the React state and the manager (token, refresh function, storage,
    Drive, request log) are all as before. *)
Theorem provider_skips_when_locked_or_signed_out (isSignedIn : bool)
  (userToken refreshToken : option string) (reason : string)
  (dataType : SyncTarget) (π : Provider) (σ : State) :
  syncLock π = true ∨ isSignedIn = false ∨ nonempty userToken = None →
  run_provider (performSync isSignedIn userToken refreshToken reason) (π, σ)
  = (Returned false, (π, σ))
  ∧ run_provider (syncNow isSignedIn userToken refreshToken dataType) (π, σ)
    = (Returned false, (π, σ)).
Proof.
  intros Hguard. unfold performSync, syncNow.
  destruct (signed_in_token isSignedIn userToken) as [token|] eqn:Htok;
    [|done].
  destruct Hguard as [Hlock|[->|Hnone]].
  - rewrite !run_provider_bind, !run_provider_call. simpl. by rewrite Hlock.
  - done.
  - unfold signed_in_token in Htok. rewrite Hnone in Htok.
    by destruct isSignedIn.
Qed.

(** X18: what [performSync] reports.  Called signed in with the lock
    free it hands the manager the token and the refresh function
    and runs one [syncAll]; it returns that report's [success].  When
    it returns the lock is released and [isSyncing] is false again,
    [hasError] is the negation of the result, and on success only
    [lastSync] is the clock reading and one ['syncComplete'] event has
    been dispatched.  If the manager's own lock was held the report is
    the busy one: the provider shows an error although nothing was
    attempted. *)
Theorem performSync_reports_the_full_sync (token : string)
  (refreshToken : option string) (reason : string) (π : Provider) (σ : State) :
  token ≠ "" →
  syncLock π = false →
  ∃ (rep : SyncReport) (σ' : State),
    run_job syncAll (manager_primed token refreshToken σ) = (Returned rep, σ')
    ∧ run_provider (performSync true (Some token) refreshToken reason) (π, σ)
      = (Returned (success rep),
         (settled_provider (negb (success rep)) (success rep) (clock σ') π, σ'))
    ∧ (syncInProgress σ = true →
       rep = busy_report ∧ success rep = false
       ∧ σ' = manager_primed token refreshToken σ).
Proof.
  intros Htok Hlock.
  destruct (run_job_syncAll_returns (manager_primed token refreshToken σ))
    as (rep & σ' & Hrun).
  exists rep, σ'. split; [done|]. split.
  - unfold performSync, signed_in_token. rewrite nonempty_Some by done.
    provider_steps. rewrite Hlock. provider_steps.
    rewrite run_provider_try_finally, run_provider_try_catch.
    provider_steps. rewrite run_provider_bind, run_provider_lift_job.
    change (set_refreshTokenFn _ _) with (manager_primed token refreshToken σ).
    rewrite Hrun.
    destruct (success rep); simpl; provider_steps; done.
  - intros Hbusy. rewrite run_syncAll_busy in Hrun by done.
    by injection Hrun as <- <-.
Qed.

(** X19: what [syncNow] does.  Called signed in with the lock free for
    one domain it hands the manager the token and the refresh function
    and runs that domain's unit, whether or not the manager's own lock
    is held, and returns the unit's result; for ['all'] it runs
    [syncAll] and returns the report's [success].  When it returns the
    lock is released and [isSyncing] is false; on success [lastSync]
    is the clock reading and one ['syncComplete'] event has been
    dispatched.  [hasError] is as it was before the call: a failed
    [syncNow] does not set it and a successful one does not clear
    it. *)
Theorem syncNow_leaves_hasError (token : string) (refreshToken : option string)
  (π : Provider) (σ : State) :
  token ≠ "" →
  syncLock π = false →
  (∀ d : DataType, ∃ (ok : bool) (σ' : State),
      run (unit_of d) (manager_primed token refreshToken σ) = (Returned ok, σ')
      ∧ run_provider (syncNow true (Some token) refreshToken (Domain d)) (π, σ)
        = (Returned ok, (settled_provider (hasError π) ok (clock σ') π, σ'))
      ∧ syncInProgress σ' = syncInProgress σ)
  ∧ ∃ (rep : SyncReport) (σ' : State),
      run_job syncAll (manager_primed token refreshToken σ) = (Returned rep, σ')
      ∧ run_provider (syncNow true (Some token) refreshToken AllDomains) (π, σ)
        = (Returned (success rep),
           (settled_provider (hasError π) (success rep) (clock σ') π, σ')).
Proof.
  intros Htok Hlock. split.
  - intros d.
    destruct (never_throws_run (unit_of d)
                (manager_primed token refreshToken σ)
                (never_throws_unit_of d)) as [ok Hok].
    pose proof (run_flag (unit_of d) (manager_primed token refreshToken σ))
      as Hflag.
    destruct (run (unit_of d) (manager_primed token refreshToken σ))
      as [r σ'] eqn:Hrun.
    simpl in Hok, Hflag. subst r. exists ok, σ'. split; [done|].
    split; [|done].
    unfold syncNow, signed_in_token. rewrite nonempty_Some by done.
    provider_steps. rewrite Hlock. provider_steps.
    rewrite run_provider_try_finally, run_provider_try_catch.
    provider_steps.
    rewrite !run_provider_bind, run_provider_lift_job, run_job_lift.
    change (set_refreshTokenFn _ _) with (manager_primed token refreshToken σ).
    rewrite Hrun.
    destruct ok; simpl; provider_steps; done.
  - destruct (run_job_syncAll_returns (manager_primed token refreshToken σ))
      as (rep & σ' & Hrun).
    exists rep, σ'. split; [done|].
    unfold syncNow, signed_in_token. rewrite nonempty_Some by done.
    provider_steps. rewrite Hlock. provider_steps.
    rewrite run_provider_try_finally, run_provider_try_catch.
    provider_steps.
    rewrite !run_provider_bind, run_provider_lift_job.
    change (set_refreshTokenFn _ _) with (manager_primed token refreshToken σ).
    rewrite Hrun. simpl.
    destruct (success rep); simpl; provider_steps; done.
Qed.

(** ** Which note types are shown *)

#[local] Arguments getVisibleNoteTypes : simpl never.
#[local] Arguments setVisibleNoteTypes : simpl never.
#[local] Arguments lift_storage : simpl never.
#[local] Arguments run_visibility : simpl never.

Lemma run_visibility_bind {A B : Type} (m : Proc VOp A) (f : A → Proc VOp B)
  (s : list (list json) * State) :
  run_visibility (m ≫= f) s
  = match run_visibility m s with
    | (Returned a, s') => run_visibility (f a) s'
    | (Threw e, s') => (Threw e, s')
    end.
Proof. apply handle_bind. Qed.

Lemma run_visibility_lift {A : Type} (p : Proc UOp A) (evs : list (list json))
  (σ : State) :
  run_visibility (lift_storage p) (evs, σ)
  = let '(r, σ') := run p σ in (r, (evs, σ')).
Proof.
  revert σ. induction p as [a|e|X op k IH]; intros σ; try done.
  unfold run_visibility, run in *. simpl.
  destruct (perform op σ) as [x σ']. apply IH.
Qed.

Lemma run_getVisibleNoteTypes (σ : State) :
  run getVisibleNoteTypes σ
  = (Returned
       (let saved := default DEFAULT_VISIBLE_TYPES (settings σ !! STORAGE_KEY) in
        if negb (truthy saved) || strict_eq (length_of saved) (Some (JNum 0))
        then DEFAULT_VISIBLE_TYPES else saved), σ).
Proof.
  unfold getVisibleNoteTypes. rewrite run_bind, run_getSetting. cbv zeta.
  by destruct (negb _ || _).
Qed.

Lemma run_getVisibleNoteTypes_stored (x : json) (xs : list json) (σ : State) :
  settings σ !! STORAGE_KEY = Some (JArr (x :: xs)) →
  run getVisibleNoteTypes σ = (Returned (JArr (x :: xs)), σ).
Proof. intros Hs. rewrite run_getVisibleNoteTypes, Hs. done. Qed.

Lemma run_setVisibleNoteTypes (types : list json) (evs : list (list json))
  (σ : State) :
  run_visibility (setVisibleNoteTypes types) (evs, σ)
  = match types with
    | [] => (Returned false, (evs, σ))
    | _ => (Returned true,
            (types :: evs,
             set_settings (<[STORAGE_KEY := JArr types]> (settings σ)) σ))
    end.
Proof.
  unfold setVisibleNoteTypes. destruct types as [|t types]; [done|].
  change (Z.of_nat (length (t :: types)) =? 0) with false. cbv iota.
  rewrite run_visibility_bind, run_visibility_lift, run_setSetting.
  done.
Qed.

Lemma is_type_spec (type : string) (t : json) :
  is_type type t = true ↔ t = JStr type.
Proof.
  unfold is_type. destruct t; simpl; try (split; [done|discriminate]).
  rewrite String.eqb_eq. split; [by intros ->|by intros [= ->]].
Qed.

Lemma existsb_is_type (type : string) (xs : list json) :
  existsb (is_type type) xs = true ↔ JStr type ∈ xs.
Proof.
  rewrite List.existsb_exists. split.
  - intros (t & Hin & Ht). apply is_type_spec in Ht. subst t.
    by apply list_elem_of_In.
  - intros Hin. exists (JStr type). split; [by apply list_elem_of_In|].
    by apply is_type_spec.
Qed.

Lemma filter_out_absent (type : string) (xs : list json) :
  existsb (is_type type) (List.filter (λ t, negb (is_type type t)) xs) = false.
Proof.
  apply not_true_iff_false. rewrite List.existsb_exists.
  intros (t & Hin & Ht). apply List.filter_In in Hin as [_ Hkeep].
  by rewrite Ht in Hkeep.
Qed.

(** Hiding a type that occurs once takes one element away. *)
Lemma filter_out_length (type : string) (xs : list json) :
  NoDup xs → JStr type ∈ xs →
  S (length (List.filter (λ t, negb (is_type type t)) xs)) = length xs.
Proof.
  induction 1 as [|x xs Hx Hnodup IH]; intros Hin.
  - by apply elem_of_nil in Hin.
  - simpl. destruct (is_type type x) eqn:Hhit; simpl.
    + apply is_type_spec in Hhit. subst x. f_equal.
      clear IH Hin. induction xs as [|y ys IH]; simpl; [done|].
      apply not_elem_of_cons in Hx as [Hne Hx].
      apply NoDup_cons in Hnodup as [_ Hnodup].
      destruct (is_type type y) eqn:Hy; simpl.
      * apply is_type_spec in Hy. by subst y.
      * f_equal. by apply IH.
    + f_equal. apply IH. apply elem_of_cons in Hin as [Heq|Hin]; [|done].
      apply not_true_iff_false in Hhit. exfalso. apply Hhit.
      by apply is_type_spec.
Qed.

Lemma getVisibleNoteTypes_nonempty (σ : State) :
  ∃ v : json, run getVisibleNoteTypes σ = (Returned v, σ) ∧ v ≠ JArr [].
Proof.
  eexists. split; [apply run_getVisibleNoteTypes|].
  destruct (settings σ !! STORAGE_KEY) as [s|]; simpl; [|done].
  destruct (negb (truthy s) || strict_eq (length_of s) (Some (JNum 0)))
    eqn:Hguard; [done|].
  apply orb_false_iff in Hguard as [_ Hlen]. by intros ->.
Qed.

(** X23: the list of visible note types is never empty.
    [getVisibleNoteTypes] changes nothing and yields a truthy value
    that is not the empty array: the six default types when the setting
    is absent, falsy or an empty array, and otherwise the stored value
    as it is.  A non-empty stored array is returned unchanged; so is a
    stored value that is no array at all, such as a number. *)
Theorem getVisibleNoteTypes_never_empty (σ : State) :
  ∃ v : json,
    run getVisibleNoteTypes σ = (Returned v, σ)
    ∧ truthy v = true
    ∧ v ≠ JArr []
    ∧ (settings σ !! STORAGE_KEY = None → v = DEFAULT_VISIBLE_TYPES)
    ∧ ∀ s, settings σ !! STORAGE_KEY = Some s →
           (truthy s = false ∨ s = JArr [] → v = DEFAULT_VISIBLE_TYPES)
           ∧ (∀ x xs, s = JArr (x :: xs) → v = s)
           ∧ (∀ n, s = JNum n → n ≠ 0 → v = s).
Proof.
  eexists. split; [apply run_getVisibleNoteTypes|].
  destruct (settings σ !! STORAGE_KEY) as [s|] eqn:Hs; simpl.
  - destruct (negb (truthy s) || strict_eq (length_of s) (Some (JNum 0)))
      eqn:Hguard.
    + split; [done|]. split; [done|]. split; [done|].
      intros s' [= <-]. split; [done|]. split.
      * intros x xs ->. done.
      * intros n -> Hn. simpl in Hguard.
        apply Z.eqb_neq in Hn. by rewrite Hn in Hguard.
    + apply orb_false_iff in Hguard as [Htruthy Hlen].
      apply negb_false_iff in Htruthy.
      split; [done|]. split; [by intros ->|]. split; [done|].
      intros s' [= <-]. split; [|by split].
      intros [Hfalsy| ->]; [congruence|done].
  - split; [done|]. split; [done|]. split; done.
Qed.

(** X24: storing the list of visible note types.  An empty list is
    refused: [setVisibleNoteTypes] returns false, stores nothing and
    dispatches no event.  Any other list is stored under
    ['visible_note_types'] and announced by one
    ['noteTypesVisibilityChanged'] event carrying it, the result is
    true, and [getVisibleNoteTypes] then yields this list.  The key is
    one the settings unit uploads. *)
Theorem setVisibleNoteTypes_round_trip (types : list json)
  (evs : list (list json)) (σ : State) :
  (types = [] →
   run_visibility (setVisibleNoteTypes types) (evs, σ)
   = (Returned false, (evs, σ)))
  ∧ (types ≠ [] →
     ∃ σ',
       run_visibility (setVisibleNoteTypes types) (evs, σ)
       = (Returned true, (types :: evs, σ'))
       ∧ σ' = set_settings (<[STORAGE_KEY := JArr types]> (settings σ)) σ
       ∧ run getVisibleNoteTypes σ' = (Returned (JArr types), σ')
       ∧ ∃ fs, syncableSettings (settings σ') = JObj fs
               ∧ (STORAGE_KEY, JArr types) ∈ fs).
Proof.
  rewrite run_setVisibleNoteTypes. split; [by intros ->|].
  intros Hne. destruct types as [|t types]; [done|].
  eexists. split; [done|]. split; [done|]. split.
  - apply run_getVisibleNoteTypes_stored. simpl. apply lookup_insert_eq.
  - eexists. split; [done|]. apply list_elem_of_In, List.filter_In.
    split; [|done]. apply list_elem_of_In, elem_of_map_to_list. simpl.
    apply lookup_insert_eq.
Qed.

Lemma run_visibility_exc {A : Type} (x : Exc A) (s : list (list json) * State) :
  run_visibility (exc x) s
  = match x with
    | inl e => (Threw e, s)
    | inr a => (Returned a, s)
    end.
Proof. by destruct x. Qed.

Lemma run_isNoteTypeVisible_stored (type : string) (x : json) (xs : list json)
  (σ : State) :
  settings σ !! STORAGE_KEY = Some (JArr (x :: xs)) →
  run (isNoteTypeVisible type) σ
  = (Returned (existsb (is_type type) (x :: xs)), σ).
Proof.
  intros Hs. unfold isNoteTypeVisible.
  by rewrite run_bind, (run_getVisibleNoteTypes_stored x xs σ Hs).
Qed.

(** X25: a toggle never hides the last visible type.  On a device
    whose visible types are a list without repetition,
    [toggleNoteTypeVisibility] of a type that is shown and is the only
    one is refused: the result carries [success: false] and the list as
    it is, nothing is stored and no event is dispatched.  Otherwise the
    result carries [success: true] and the new list: the old one without
    the type when it was shown, the old one with the type appended
    when it was not.  The new list is not empty, it is what is stored
    and what the one event carries, [getVisibleNoteTypes] yields it
    afterwards, and [isNoteTypeVisible] of the type has flipped. *)
Theorem toggleNoteTypeVisibility_keeps_one_visible (type : string)
  (cur : list json) (evs : list (list json)) (σ : State) :
  run getVisibleNoteTypes σ = (Returned (JArr cur), σ) →
  NoDup cur →
  let shown := existsb (is_type type) cur in
  ∃ (res : Toggled) (σ' : State) (evs' : list (list json)),
    run_visibility (toggleNoteTypeVisibility type) (evs, σ)
    = (Returned res, (evs', σ'))
    ∧ run getVisibleNoteTypes σ' = (Returned (visible res), σ')
    ∧ (∃ x xs, visible res = JArr (x :: xs))
    ∧ (if shown && (Z.of_nat (length cur) =? 1)
       then toggled res = false ∧ visible res = JArr cur
            ∧ σ' = σ ∧ evs' = evs
       else ∃ new,
           new = (if shown
                  then List.filter (λ t, negb (is_type type t)) cur
                  else cur ++ [JStr type])
           ∧ toggled res = true ∧ visible res = JArr new
           ∧ σ' = set_settings (<[STORAGE_KEY := JArr new]> (settings σ)) σ
           ∧ evs' = new :: evs
           ∧ run (isNoteTypeVisible type) σ' = (Returned (negb shown), σ')).
Proof.
  intros Hcur Hnodup shown.
  assert (∃ x xs, cur = x :: xs) as (x0 & xs0 & Hcons).
  { destruct (getVisibleNoteTypes_nonempty σ) as (v & Hv & Hne).
    rewrite Hcur in Hv. injection Hv as <-.
    destruct cur as [|x xs]; [done|]. by eexists _, _. }
  unfold toggleNoteTypeVisibility.
  rewrite run_visibility_bind, run_visibility_lift, Hcur.
  rewrite run_visibility_bind, run_visibility_exc. simpl includes. cbv iota.
  fold shown. destruct shown eqn:Hshown.
  - simpl length_of.
    destruct (Z.of_nat (length cur) =? 1) eqn:Hone; simpl andb; cbv iota.
    + change (strict_eq (Some (JNum (Z.of_nat (length cur)))) (Some (JNum 1)))
        with (Z.of_nat (length cur) =? 1).
      rewrite Hone. eexists _, _, _. split; [done|]. simpl.
      split; [done|]. split; [by subst cur; eexists _, _|]. done.
    + change (strict_eq (Some (JNum (Z.of_nat (length cur)))) (Some (JNum 1)))
        with (Z.of_nat (length cur) =? 1).
      rewrite Hone.
      rewrite run_visibility_bind, run_visibility_exc. simpl filter_out.
      cbv iota.
      rewrite run_visibility_bind, run_setVisibleNoteTypes.
      pose proof (filter_out_length type cur Hnodup
                    (proj1 (existsb_is_type type cur) Hshown)) as Hlen.
      destruct (List.filter (λ t, negb (is_type type t)) cur)
        as [|y ys] eqn:Hfilter.
      { simpl in Hlen. apply Z.eqb_neq in Hone. lia. }
      assert (settings
                (set_settings (<[STORAGE_KEY := JArr (y :: ys)]> (settings σ)) σ)
              !! STORAGE_KEY = Some (JArr (y :: ys))) as Hstored
        by apply lookup_insert_eq.
      eexists _, _, _. split; [done|]. simpl visible.
      split; [by apply run_getVisibleNoteTypes_stored|].
      split; [by eexists _, _|].
      exists (y :: ys). split_and!; try done.
      rewrite (run_isNoteTypeVisible_stored type y ys _ Hstored).
      rewrite <- Hfilter. by rewrite filter_out_absent.
  - simpl andb. cbv iota.
    rewrite run_visibility_bind, run_visibility_exc. simpl iterate. cbv iota.
    rewrite run_visibility_bind, run_setVisibleNoteTypes.
    destruct (cur ++ [JStr type]) as [|y ys] eqn:Happ.
    { by destruct cur. }
    assert (settings
              (set_settings (<[STORAGE_KEY := JArr (y :: ys)]> (settings σ)) σ)
            !! STORAGE_KEY = Some (JArr (y :: ys))) as Hstored
      by apply lookup_insert_eq.
    eexists _, _, _. split; [done|]. simpl visible.
    split; [by apply run_getVisibleNoteTypes_stored|].
    split; [by eexists _, _|].
    exists (y :: ys). split_and!; try done.
    rewrite (run_isNoteTypeVisible_stored type y ys _ Hstored).
    rewrite <- Happ. rewrite List.existsb_app. simpl.
    assert (is_type type (JStr type) = true) as -> by by apply is_type_spec.
    by rewrite orb_true_r.
Qed.

(** X26: a toggle that reports a list it did not store.  When the
    stored list consists of two or more copies of one type and nothing
    else, hiding that type leaves no type: [setVisibleNoteTypes]
    refuses the empty list, yet [toggleNoteTypeVisibility] does not
    look at its result and returns [success: true] with an empty
    [visible].  Nothing is stored, no event is dispatched and the type
    is still visible afterwards. *)
Theorem toggleNoteTypeVisibility_ignores_refusal (type : string)
  (cur : list json) (evs : list (list json)) (σ : State) :
  settings σ !! STORAGE_KEY = Some (JArr cur) →
  (2 ≤ length cur)%nat →
  Forall (λ t, t = JStr type) cur →
  run_visibility (toggleNoteTypeVisibility type) (evs, σ)
  = (Returned {| toggled := true; visible := JArr [] |}, (evs, σ))
  ∧ run (isNoteTypeVisible type) σ = (Returned true, σ).
Proof.
  intros Hs Hlen Hall.
  assert (is_type type (JStr type) = true) as Hself by by apply is_type_spec.
  assert (List.filter (λ t, negb (is_type type t)) cur = []) as Hfilter.
  { clear Hs Hlen. induction Hall as [|t l -> Hl IH]; simpl; [done|].
    by rewrite Hself. }
  destruct cur as [|x xs]; [simpl in Hlen; lia|].
  assert (existsb (is_type type) (x :: xs) = true) as Hshown.
  { apply Forall_cons in Hall as [-> _]. simpl. by rewrite Hself. }
  split.
  - unfold toggleNoteTypeVisibility.
    rewrite run_visibility_bind, run_visibility_lift.
    rewrite (run_getVisibleNoteTypes_stored x xs σ Hs).
    rewrite run_visibility_bind, run_visibility_exc.
    change (includes (JArr (x :: xs)) type)
      with (inr (existsb (is_type type) (x :: xs)) : Exc bool).
    rewrite Hshown. cbv iota.
    change (strict_eq (length_of (JArr (x :: xs))) (Some (JNum 1)))
      with (Z.of_nat (length (x :: xs)) =? 1).
    destruct (Z.of_nat (length (x :: xs)) =? 1) eqn:Hone;
      [apply Z.eqb_eq in Hone; lia|].
    rewrite run_visibility_bind, run_visibility_exc.
    change (filter_out (JArr (x :: xs)) type)
      with (inr (List.filter (λ t, negb (is_type type t)) (x :: xs))
            : Exc (list json)).
    rewrite Hfilter. cbv iota.
    by rewrite run_visibility_bind, run_setVisibleNoteTypes.
  - by rewrite (run_isNoteTypeVisible_stored type x xs σ Hs), Hshown.
Qed.

(** ** File types *)

Section FileOpenerFacts.
Variable toLowerCase : string → string.

Lemma own_Some (k : string) (table : list (string * string)) (v : string) :
  own k table = Some v → In (k, v) table.
Proof.
  induction table as [|[k' v'] rest IH]; simpl; [done|].
  destruct (String.eqb k k') eqn:Hk.
  - apply String.eqb_eq in Hk. intros [= ->]. left. by subst.
  - intros Hrest. right. by apply IH.
Qed.

Lemma own_None (k : string) (table : list (string * string)) :
  own k table = None → ¬ In k (fst <$> table).
Proof.
  induction table as [|[k' v'] rest IH]; simpl; [by intros _ []|].
  destruct (String.eqb k k') eqn:Hk; [done|].
  apply String.eqb_neq in Hk. intros Hrest [Heq|Hin]; [by subst|].
  by apply IH.
Qed.

Lemma split_dots_dotless (s : string) :
  dotless s = true → split_dots s = [s].
Proof.
  induction s as [|c rest IH]; simpl; [done|].
  destruct (Ascii.eqb c "."); simpl; [done|].
  intros Hrest. by rewrite IH.
Qed.

Lemma split_dots_nonempty (s : string) : split_dots s ≠ [].
Proof.
  induction s as [|c rest IH]; simpl; [done|].
  destruct (Ascii.eqb c "."); [done|]. by destruct (split_dots rest).
Qed.

Lemma split_dots_app (stem ext : string) :
  dotless ext = true →
  ∃ p ps, split_dots (stem +:+ "." +:+ ext) = p :: ps ∧ last ps = Some ext.
Proof.
  intros Hext. induction stem as [|c rest IH].
  - exists "", [ext]. split; [|done].
    change ("" +:+ "." +:+ ext) with (String "." ext). simpl.
    by rewrite split_dots_dotless.
  - destruct IH as (p & ps & Hs & Hlast).
    change (String c rest +:+ "." +:+ ext)
      with (String c (rest +:+ "." +:+ ext)).
    simpl. rewrite Hs. destruct (Ascii.eqb c ".").
    + exists "", (p :: ps). split; [done|]. rewrite last_cons. by rewrite Hlast.
    + by exists (String c p), ps.
Qed.

Lemma last_split_dots_app (stem ext : string) :
  dotless ext = true →
  last (split_dots (stem +:+ "." +:+ ext)) = Some ext.
Proof.
  intros Hext. destruct (split_dots_app stem ext Hext) as (p & ps & -> & Hlast).
  rewrite last_cons. by rewrite Hlast.
Qed.

Lemma listed_extensions (ext : string) :
  ext ∈ image_extensions ++ audio_extensions ++ video_extensions
        ++ document_extensions ++ archive_extensions →
  In ext (fst <$> mimeTypes).
Proof.
  intros Hin. apply list_elem_of_In in Hin. simpl in Hin.
  repeat (destruct Hin as [<-|Hin];
          [apply list_elem_of_In, (bool_decide_unpack _); by vm_compute|]).
  done.
Qed.

Lemma category_of_unlisted (ext : string) :
  own ext mimeTypes = None → category_of ext = other.
Proof.
  intros Hnone. apply own_None in Hnone.
  unfold category_of.
  repeat case_bool_decide; try done; exfalso; apply Hnone, listed_extensions;
    rewrite !elem_of_app; eauto 10.
Qed.

(** X27: the category of a file is a function of its extension.  With
    the extension the lower-cased text after the last dot of the name,
    [getFileCategory] yields ['image'], ['audio'], ['video'],
    ['document'] or ['archive'] exactly for the extensions of the five
    lists, and ['other'] for every other extension, among them ['rtf'],
    ['json'], ['apk'], ['exe'] and ['dmg'] of its own table; and
    [canPreviewInApp] is true exactly for the image and audio
    extensions.  The exception are the names of the members every
    object inherits, such as ['constructor']: there [getMimeType]
    yields that member instead of a string and both functions throw.
    A name without a dot is its own extension. *)
Theorem getFileCategory_by_extension (filename : string) :
  let ext := extension toLowerCase filename in
  getFileCategory toLowerCase filename
  = (if bool_decide (ext ∈ Object_prototype) then inl TypeError
     else inr (category_of ext))
  ∧ canPreviewInApp toLowerCase filename
    = (if bool_decide (ext ∈ Object_prototype) then inl TypeError
       else inr (bool_decide (ext ∈ image_extensions ++ audio_extensions)))
  ∧ (∀ stem e, dotless e = true →
               extension toLowerCase (stem +:+ "." +:+ e)
               = extension toLowerCase e)
  ∧ Forall (λ e, category_of e = other) ["rtf"; "json"; "apk"; "exe"; "dmg"].
Proof.
  intros ext.
  assert (getFileCategory toLowerCase filename
          = (if bool_decide (ext ∈ Object_prototype) then inl TypeError
             else inr (category_of ext))) as Hcat.
  { unfold getFileCategory, getMimeType. fold ext. clearbody ext.
    destruct (own ext mimeTypes) as [m|] eqn:Hown.
    - apply own_Some in Hown. simpl in Hown.
      repeat (destruct Hown as [[= <- <-]|Hown]; [by vm_compute|]).
      done.
    - rewrite category_of_unlisted by done. by case_bool_decide. }
  split_and!.
  - exact Hcat.
  - unfold canPreviewInApp. rewrite Hcat. case_bool_decide; [done|].
    cbv [bindE]. f_equal. unfold category_of.
    destruct (decide (ext ∈ image_extensions)) as [Himg|Himg].
    { rewrite !bool_decide_eq_true_2; [done| |done].
      apply elem_of_app. by left. }
    rewrite (bool_decide_eq_false_2 _ Himg).
    destruct (decide (ext ∈ audio_extensions)) as [Haud|Haud].
    { rewrite !bool_decide_eq_true_2; [done| |done].
      apply elem_of_app. by right. }
    rewrite (bool_decide_eq_false_2 _ Haud).
    rewrite (bool_decide_eq_false_2 (ext ∈ image_extensions ++ audio_extensions));
      [|by intros [?|?]%elem_of_app].
    by repeat case_bool_decide.
  - intros stem e He. unfold extension.
    by rewrite last_split_dots_app, split_dots_dotless.
  - repeat constructor.
Qed.

End FileOpenerFacts.
End Engine.

(** C1 at two envelopes written at instants 2 and 1. *)
Lemma resolveConflict_last_write_wins_witness :
  winner (resolveConflict no_Date_parse (envelope JNull 2) (envelope JNull 1))
  = local
  ∧ winner (resolveConflict no_Date_parse (envelope JNull 1) (envelope JNull 2))
    = remote.
Proof.
  pose proof (resolveConflict_last_write_wins no_Date_parse
                (envelope JNull 2) (envelope JNull 1)
                (envelope JNull 2) (envelope JNull 1) eq_refl)
    as (_ & _ & _ & _ & H1 & H2).
  by rewrite H1, H2.
Defined.

(** C2 at a device with a full sync in flight, and at a device on which
    [syncAll] is called twice with an instant sync in between. *)
Lemma syncAll_refused_while_busy_witness :
  advance (syncAll no_Date_parse no_toISOString no_JSON_stringify no_JSON_parse)
          busy_device
  = (Running (Ret busy_report), busy_device)
  ∧ ∃ P first,
      exec no_Date_parse no_toISOString no_JSON_stringify no_JSON_parse
           (CallSyncAll :: second_call) (idle_pool fresh_device) = Some P
      ∧ fulls P = [first; Running (Ret busy_report)]
      ∧ finished first = false
      ∧ syncInProgress (state P) = true.
Proof.
  split.
  - apply (syncAll_refused_while_busy no_Date_parse no_toISOString
             no_JSON_stringify no_JSON_parse busy_device [] []
             (idle_pool busy_device)).
    reflexivity.
  - destruct (exec no_Date_parse no_toISOString no_JSON_stringify
                no_JSON_parse (CallSyncAll :: second_call)
                (idle_pool fresh_device)) as [P|] eqn:HP;
      [|vm_compute in HP; discriminate].
    destruct (syncAll_refused_while_busy no_Date_parse no_toISOString
                no_JSON_stringify no_JSON_parse fresh_device [] second_call P)
      as [_ H].
    destruct (H eq_refl (Forall_nil_2 _) HP) as (first & rest & Hfulls & Hrun).
    assert (length rest = 1%nat ∧ finished first = false) as [Hlen Hf].
    { assert (length (fulls P) = 2%nat ∧ finished <$> fulls P !! 0%nat = Some false)
        as [H1 H2].
      { vm_compute in HP. injection HP as <-. vm_compute. done. }
      rewrite Hfulls in H1, H2. simpl in *. split; congruence. }
    destruct (Hrun Hf) as (_ & Hflag & Hrest & _).
    destruct rest as [|t [|? ?]]; try discriminate Hlen.
    apply Forall_cons_1 in Hrest as [-> _].
    exists P, first. done.
Defined.

(** The report when only the tasks unit fails (the units run in
    turn). *)
Example syncAll_tasks_offline_report :
  fst (run_job (syncAll no_Date_parse no_toISOString no_JSON_stringify
                  no_JSON_parse) tasks_offline)
  = Returned {| success := false; errors := ["Failed to sync tasks"] |}.
Proof. vm_compute. reflexivity. Qed.

(** The report on a signed-out device: every unit fails. *)
Example syncAll_signed_out_report :
  fst (run_job (syncAll no_Date_parse no_toISOString no_JSON_stringify
                  no_JSON_parse) signed_out)
  = Returned
      {| success := false;
         errors := ["Failed to sync notes"; "Failed to sync tasks";
                    "Failed to sync folders"; "Failed to sync sections";
                    "Failed to sync settings"; "Failed to sync activity";
                    "Failed to sync media"] |}.
Proof. vm_compute. reflexivity. Qed.

(** C3 as stated fails on a signed-out device: all seven units fail and
    the error list holds the seven messages ["Failed to sync <name>"],
    not the names of the domains. *)
Lemma syncAll_errors_are_messages :
  ¬ errors_name_failed_domains no_Date_parse no_toISOString no_JSON_stringify
      no_JSON_parse signed_out.
Proof.
  intros H.
  destruct (run_job (syncAll no_Date_parse no_toISOString no_JSON_stringify
                       no_JSON_parse) signed_out) as [[rep|e] σ'] eqn:Hrun;
    [|vm_compute in Hrun; discriminate].
  specialize (H rep σ' Hrun).
  vm_compute in Hrun. injection Hrun as <- _.
  vm_compute in H. discriminate H.
Qed.

(** C3 (amended) on a device whose fourth request, the token probe of
    the tasks unit when the units run in turn, finds the network down:
    the tasks unit returns false, the other six run to their ends and
    return true, and the report names the tasks domain alone. *)
Lemma syncAll_isolates_domains_witness :
  ∃ rep σ',
    run_job (syncAll no_Date_parse no_toISOString no_JSON_stringify
               no_JSON_parse) tasks_offline = (Returned rep, σ')
    ∧ fst (run_all (units no_Date_parse no_toISOString no_JSON_stringify
                      no_JSON_parse) (set_syncInProgress true tasks_offline))
      = [Fulfilled true; Fulfilled false; Fulfilled true; Fulfilled true;
         Fulfilled true; Fulfilled true; Fulfilled true]
    ∧ success rep = false
    ∧ errors rep = ["Failed to sync tasks"].
Proof.
  destruct (syncAll_isolates_domains no_Date_parse no_toISOString
              no_JSON_stringify no_JSON_parse tasks_offline eq_refl)
    as (rs & rep & σ' & _ & Hrs & _ & Hrun & Hsuccess & Herr).
  assert (fst (run_all (units no_Date_parse no_toISOString no_JSON_stringify
                          no_JSON_parse)
                 (set_syncInProgress true tasks_offline))
          = [Fulfilled true; Fulfilled false; Fulfilled true; Fulfilled true;
             Fulfilled true; Fulfilled true; Fulfilled true]) as Hall
      by (vm_compute; reflexivity).
  rewrite Hall in Hrs. subst rs.
  exists rep, σ'. split_and!; [exact Hrun|exact Hall| |exact Herr].
  destruct (success rep); [|reflexivity].
  destruct Hsuccess as [Hnone _]. specialize (Hnone eq_refl).
  apply Forall_cons_1 in Hnone as [_ Hnone].
  apply Forall_cons_1 in Hnone as [Htasks _]. discriminate Htasks.
Defined.

(** C10 on a device whose every request fails. *)
Lemma syncAll_stamps_last_full_sync_witness :
  ∃ rep σ',
    run_job (syncAll no_Date_parse no_toISOString no_JSON_stringify
               no_JSON_parse) (device [] [] ∅ JNull) = (Returned rep, σ')
    ∧ success rep = false
    ∧ run (getLastSyncTime no_Date_parse) σ'
      = (Returned (Some (JTime 1000)), σ').
Proof.
  destruct (syncAll_stamps_last_full_sync no_Date_parse no_toISOString
              no_JSON_stringify no_JSON_parse (device [] [] ∅ JNull) eq_refl)
    as [(rep & σ' & t & Hrun & _ & _ & Ht & Hget) _].
  exists rep, σ'. split; [exact Hrun|].
  assert (success rep = false ∧ clock σ' = 1000) as [Hs Hc].
  { vm_compute in Hrun. injection Hrun as <- <-. done. }
  split; [exact Hs|]. rewrite Hget, Ht, Hc. reflexivity.
Defined.

(** C4 fails on the code: with a full sync in flight, [instantSync]
    starts the notes unit a second time; both units find no notes blob
    and both are suspended on the upload of ["nota_notes.json"] at the
    same time; once both are served the folder holds two blobs of that
    name. *)
Lemma instantSync_interleaves_with_syncAll :
  (λ P, (syncInProgress (state P),
         concurrent_writes SYNC_FILES.notes P))
    <$> exec no_Date_parse no_toISOString no_JSON_stringify no_JSON_parse
          both_at_upload (idle_pool fresh_device)
  = Some (true, true)
  ∧ (λ P, files_named SYNC_FILES.notes (state P))
      <$> exec no_Date_parse no_toISOString no_JSON_stringify no_JSON_parse
            both_uploaded (idle_pool fresh_device)
    = Some [0%nat; 1%nat].
Proof. split; vm_compute; reflexivity. Qed.

(** C5 at local entries 1, 2 and remote entries 2, 3. *)
Lemma syncActivity_merges_on_remote_win_witness :
  ∃ σ',
    run (syncActivity no_Date_parse no_toISOString) activity_device
    = (Returned true, σ')
    ∧ settings σ' !! "userActivityLog"
      = Some (JArr [entry 2; entry 3; entry 1]).
Proof.
  destruct (syncActivity_merges_on_remote_win no_Date_parse no_toISOString
              "tok" activity_device 3 3 3 []
              {| fileId := 0%nat; fileName := SYNC_FILES.activity;
                 modifiedTime := 900 |}
              {| fileId := 0%nat; fileName := SYNC_FILES.activity;
                 modifiedTime := 900 |}
              (envelope (JArr [entry 2; entry 3]) 900)
              [entry 1; entry 2] [entry 2; entry 3])
    as (σ' & merged & Hrun & Hlog & _); try reflexivity.
  - discriminate.
  - apply list_elem_of_In. simpl. by left.
  - repeat constructor; by eexists.
  - exists σ'. split; [exact Hrun|].
    vm_compute in Hrun. injection Hrun as <-. vm_compute. reflexivity.
Defined.

(** C7 on a first sync with a healthy network. *)
Lemma syncNotes_first_sync_then_again_witness :
  let '(r1, σ1) := run (syncNotes no_Date_parse no_toISOString) fresh_device in
  let '(r2, σ2) := run (syncNotes no_Date_parse no_toISOString) σ1 in
  r1 = Returned true ∧ r2 = Returned true
  ∧ length (drive σ1) = 1%nat ∧ length (drive σ2) = 1%nat.
Proof.
  pose proof (syncNotes_first_sync_then_again no_Date_parse no_toISOString
                "tok" fresh_device 3 3 3 3 3 3 3 (replicate 33 (Up, 3%N))) as H.
  destruct (run (syncNotes no_Date_parse no_toISOString) fresh_device)
    as [r1 σ1].
  destruct (run (syncNotes no_Date_parse no_toISOString) σ1) as [r2 σ2].
  destruct H as (f & f2 & e & e2 & Hr1 & Hd1 & _ & _ & _ & _ & Hd2 & _ & _ & _
                 & _ & _ & Hpatch); try reflexivity.
  - discriminate.
  - apply list_elem_of_In. simpl. by left.
  - destruct (Hpatch eq_refl) as (Hr2 & _).
    rewrite Hd1, Hd2. done.
Defined.
(** ** The metadata projection *)

Lemma scan_length (html : string) (inTag : bool) (budget : nat) :
  (String.length (NotesContext.scan html inTag budget) ≤ budget)%nat.
Proof.
  revert inTag budget.
  induction html as [|c rest IH]; intros inTag budget; simpl; [lia|].
  destruct budget as [|b]; simpl; [lia|].
  destruct inTag; [apply IH|].
  destruct (Ascii.eqb c "<"); [apply IH|].
  simpl. specialize (IH false b). lia.
Qed.

Lemma scan_sublist (html : string) (inTag : bool) (budget : nat) :
  sublist (String.list_ascii_of_string (NotesContext.scan html inTag budget))
          (String.list_ascii_of_string html).
Proof.
  revert inTag budget.
  induction html as [|c rest IH]; intros inTag budget; simpl; [constructor|].
  destruct budget as [|b]; simpl; [apply sublist_nil_l|].
  destruct inTag; [apply sublist_cons, IH|].
  destruct (Ascii.eqb c "<"); [apply sublist_cons, IH|].
  simpl. apply sublist_skip, IH.
Qed.

(** C8: the projection [notes.map(extractNoteMeta)] lists the ids of
    the notes, in the same order; each of its elements carries the
    scalar and flag fields of the note at its position, and as
    [contentPreview] a preview of at most 200 characters taken, in
    order, from the note's content. *)
Theorem notesMeta_projection (notes : list NotesContext.Note.t) :
  NotesContext.NoteMeta.id <$> NotesContext.notesMeta notes
  = NotesContext.Note.id <$> notes
  ∧ ∀ (i : nat) (note : NotesContext.Note.t),
      notes !! i = Some note →
      ∃ meta : NotesContext.NoteMeta.t,
        NotesContext.notesMeta notes !! i = Some meta
        ∧ NotesContext.same_fields note meta
        ∧ NotesContext.NoteMeta.contentPreview meta
          = NotesContext.getTextPreviewFromHtml
              (NotesContext.Note.content note) 200
        ∧ (String.length (NotesContext.NoteMeta.contentPreview meta) ≤ 200)%nat
        ∧ sublist
            (String.list_ascii_of_string
               (NotesContext.NoteMeta.contentPreview meta))
            (String.list_ascii_of_string (NotesContext.Note.content note))
        ∧ NotesContext.NoteMeta.hasFullContent meta = true.
Proof.
  split.
  - unfold NotesContext.notesMeta. rewrite <- list_fmap_compose.
    by apply list_fmap_ext.
  - intros i note Hi. exists (NotesContext.extractNoteMeta note).
    split_and!.
    + unfold NotesContext.notesMeta. by rewrite list_lookup_fmap, Hi.
    + unfold NotesContext.same_fields. by split_and!.
    + done.
    + apply scan_length.
    + apply scan_sublist.
    + done.
Qed.

(** C8 at a collection of one note with markup content. *)
Lemma notesMeta_projection_witness :
  ∃ meta : NotesContext.NoteMeta.t,
    NotesContext.notesMeta [shopping] !! 0%nat = Some meta
    ∧ NotesContext.NoteMeta.id meta = "n1"
    ∧ NotesContext.NoteMeta.contentPreview meta = "milk, eggs".
Proof.
  destruct (notesMeta_projection [shopping]) as [_ H].
  destruct (H 0%nat shopping eq_refl) as (meta & Hm & Hf & Hp & _).
  exists meta. split; [exact Hm|].
  destruct Hf as (Hid & _). rewrite Hid, Hp. split; reflexivity.
Defined.

(** ** The updaters of the notes provider *)

Lemma findIndex_from_split {A : Type} (p : A → bool) (xs : list A) (i : Z) :
  (∃ l1 x l2,
      xs = l1 ++ x :: l2 ∧ p x = true ∧ Forall (λ y, p y = false) l1
      ∧ NotesProvider.findIndex_from p xs i = i + Z.of_nat (length l1))
  ∨ (Forall (λ y, p y = false) xs ∧ NotesProvider.findIndex_from p xs i = -1).
Proof.
  revert i. induction xs as [|x rest IH]; intros i; simpl.
  - right. by split.
  - destruct (p x) eqn:Hx.
    + left. exists [], x, rest. simpl. split_and!; try done. lia.
    + destruct (IH (i + 1)) as [(l1 & y & l2 & -> & Hy & Hl1 & Hidx)|[Hall Hidx]].
      * left. exists (x :: l1), y, l2. simpl. split_and!; try done.
        -- by constructor.
        -- rewrite Hidx. lia.
      * right. split; [by constructor|done].
Qed.

Lemma find_none_of_all_fail {A : Type} (p : A → bool) (xs : list A) :
  Forall (λ y, p y = false) xs → List.find p xs = None.
Proof.
  induction 1 as [|x rest Hx Hrest IH]; simpl; [done|]. by rewrite Hx.
Qed.

Lemma find_app_fail {A : Type} (p : A → bool) (l1 l2 : list A) :
  Forall (λ y, p y = false) l1 → List.find p (l1 ++ l2) = List.find p l2.
Proof.
  induction 1 as [|x rest Hx Hrest IH]; simpl; [done|]. by rewrite Hx.
Qed.

Lemma find_app_first {A : Type} (p : A → bool) (l1 l2 : list A) :
  List.find p (l1 ++ l2)
  = match List.find p l1 with
    | Some x => Some x
    | None => List.find p l2
    end.
Proof. induction l1 as [|x rest IH]; simpl; [done|]. by destruct (p x). Qed.

Lemma eqb_id_false (a b : string) : a ≠ b → String.eqb a b = false.
Proof. intros Hne. by apply String.eqb_neq. Qed.

Lemma fails_not_in (noteId : string) (l : list NotesContext.Note.t) :
  Forall (λ y, String.eqb (NotesContext.Note.id y) noteId = false) l
  ↔ noteId ∉ NotesProvider.ids l.
Proof.
  unfold NotesProvider.ids. induction l as [|x rest IH]; simpl.
  - split; [intros _; apply not_elem_of_nil|constructor].
  - rewrite Forall_cons, not_elem_of_cons, IH, String.eqb_neq.
    split; intros [Hx Hrest]; (split; [by apply not_eq_sym|done]).
Qed.

(** The two ways a save ends: the first note of that id is replaced
    where it stands, or the note is put in front. *)
Lemma saveNote_cases (note : NotesContext.Note.t)
  (prev : list NotesContext.Note.t) :
  (∃ l1 x l2,
      prev = l1 ++ x :: l2
      ∧ NotesContext.Note.id x = NotesContext.Note.id note
      ∧ (NotesContext.Note.id note ∉ NotesProvider.ids l1)
      ∧ NotesProvider.saveNote note prev = l1 ++ note :: l2)
  ∨ ((NotesContext.Note.id note ∉ NotesProvider.ids prev)
     ∧ NotesProvider.saveNote note prev = note :: prev).
Proof.
  unfold NotesProvider.saveNote, NotesProvider.findIndex.
  destruct (findIndex_from_split
              (λ n, String.eqb (NotesContext.Note.id n)
                               (NotesContext.Note.id note)) prev 0)
    as [(l1 & x & l2 & -> & Hx & Hl1 & ->)|[Hall ->]].
  - left. exists l1, x, l2. split_and!; try done.
    + by apply String.eqb_eq.
    + by apply fails_not_in.
    + rewrite Z.add_0_l, Nat2Z.id.
      destruct (0 <=? Z.of_nat (length l1)) eqn:Hle; [|apply Z.leb_gt in Hle; lia].
      rewrite insert_app_r_alt by done. by rewrite Nat.sub_diag.
  - right. split; [by apply fails_not_in|done].
Qed.

Lemma getNoteById_app (j : string) (l1 l2 : list NotesContext.Note.t) :
  j ∉ NotesProvider.ids l1 →
  NotesProvider.getNoteById j (l1 ++ l2) = NotesProvider.getNoteById j l2.
Proof. intros Hj. by apply find_app_fail, fails_not_in. Qed.

Lemma getNoteById_head (n : NotesContext.Note.t)
  (l : list NotesContext.Note.t) :
  NotesProvider.getNoteById (NotesContext.Note.id n) (n :: l) = Some n.
Proof. unfold NotesProvider.getNoteById. simpl. by rewrite String.eqb_refl. Qed.

Lemma getNoteById_skip (j : string) (n : NotesContext.Note.t)
  (l : list NotesContext.Note.t) :
  NotesContext.Note.id n ≠ j →
  NotesProvider.getNoteById j (n :: l) = NotesProvider.getNoteById j l.
Proof.
  intros Hne. unfold NotesProvider.getNoteById. simpl.
  by rewrite eqb_id_false.
Qed.

Lemma getNoteById_None (j : string) (l : list NotesContext.Note.t) :
  NotesProvider.getNoteById j l = None ↔ j ∉ NotesProvider.ids l.
Proof.
  rewrite <- fails_not_in. unfold NotesProvider.getNoteById.
  induction l as [|x rest IH]; simpl; [by split; [constructor|]|].
  rewrite Forall_cons.
  destruct (String.eqb (NotesContext.Note.id x) j).
  - split; [done|]. by intros [? _].
  - rewrite IH. split; [by intros Hrest|by intros [_ Hrest]].
Qed.

(** A list is cut at the first note of an id in one way only. *)
Lemma first_split_unique (j : string) (l1 : list NotesContext.Note.t)
  (x : NotesContext.Note.t) (l2 k1 : list NotesContext.Note.t)
  (y : NotesContext.Note.t) (k2 : list NotesContext.Note.t) :
  l1 ++ x :: l2 = k1 ++ y :: k2 →
  NotesContext.Note.id x = j →
  NotesContext.Note.id y = j →
  j ∉ NotesProvider.ids l1 →
  j ∉ NotesProvider.ids k1 →
  l1 = k1 ∧ x = y ∧ l2 = k2.
Proof.
  unfold NotesProvider.ids. revert k1.
  induction l1 as [|a l1 IH]; intros k1 Heq Hx Hy Hl1 Hk1.
  - destruct k1 as [|b k1]; simpl in Heq.
    + by injection Heq as -> ->.
    + injection Heq as <- _. exfalso. apply Hk1.
      rewrite fmap_cons, Hx. by left.
  - destruct k1 as [|b k1]; simpl in Heq.
    + injection Heq as -> _. exfalso. apply Hl1.
      rewrite fmap_cons, Hy. by left.
    + injection Heq as <- Heq.
      rewrite fmap_cons, not_elem_of_cons in Hl1, Hk1.
      by destruct (IH k1 Heq Hx Hy (proj2 Hl1) (proj2 Hk1)) as (-> & -> & ->).
Qed.

(** X20: [saveNote] is an upsert by id.  After it [getNoteById] yields
    the saved note for its id and what it yielded before for every
    other id.  If a note of that id was present the first one is
    replaced where it stands, so ids and order are unchanged; otherwise
    the note is put in front.  Ids that were pairwise distinct stay so,
    and saving the same note twice is saving it once. *)
Theorem saveNote_upserts (note : NotesContext.Note.t)
  (prev : list NotesContext.Note.t) :
  let saved := NotesProvider.saveNote note prev in
  NotesProvider.getNoteById (NotesContext.Note.id note) saved = Some note
  ∧ (∀ j, j ≠ NotesContext.Note.id note →
          NotesProvider.getNoteById j saved = NotesProvider.getNoteById j prev)
  ∧ NotesProvider.ids saved
    = (if bool_decide (NotesContext.Note.id note ∈ NotesProvider.ids prev)
       then NotesProvider.ids prev
       else NotesContext.Note.id note :: NotesProvider.ids prev)
  ∧ (NoDup (NotesProvider.ids prev) → NoDup (NotesProvider.ids saved))
  ∧ NotesProvider.saveNote note saved = saved.
Proof.
  intros saved. subst saved.
  assert (NotesProvider.ids (NotesProvider.saveNote note prev)
          = (if bool_decide (NotesContext.Note.id note ∈ NotesProvider.ids prev)
             then NotesProvider.ids prev
             else NotesContext.Note.id note :: NotesProvider.ids prev))
    as Hids.
  { destruct (saveNote_cases note prev)
      as [(l1 & x & l2 & -> & Hx & Hl1 & ->)|[Habsent ->]].
    - rewrite bool_decide_eq_true_2.
      + unfold NotesProvider.ids. rewrite !fmap_app, !fmap_cons. by rewrite Hx.
      + unfold NotesProvider.ids. rewrite fmap_app, fmap_cons, Hx.
        apply elem_of_app. right. by left.
    - by rewrite bool_decide_eq_false_2. }
  split_and!.
  - destruct (saveNote_cases note prev)
      as [(l1 & x & l2 & -> & Hx & Hl1 & ->)|[Habsent ->]].
    + rewrite getNoteById_app by done. apply getNoteById_head.
    + apply getNoteById_head.
  - intros j Hj.
    destruct (saveNote_cases note prev)
      as [(l1 & x & l2 & -> & Hx & Hl1 & ->)|[Habsent ->]].
    + unfold NotesProvider.getNoteById. rewrite !find_app_first. simpl.
      rewrite Hx. by rewrite (eqb_id_false _ _ (not_eq_sym Hj)).
    + by apply getNoteById_skip.
  - exact Hids.
  - intros Hnodup. rewrite Hids. case_bool_decide; [done|].
    by constructor.
  - destruct (saveNote_cases note prev)
      as [(l1 & x & l2 & -> & Hx & Hl1 & ->)|[Habsent ->]].
    + destruct (saveNote_cases note (l1 ++ note :: l2))
        as [(k1 & y & k2 & Heq & Hy & Hk1 & ->)|[Habsent _]].
      * by destruct (first_split_unique (NotesContext.Note.id note)
                       l1 note l2 k1 y k2 Heq eq_refl Hy Hl1 Hk1)
          as (-> & _ & ->).
      * exfalso. apply Habsent. unfold NotesProvider.ids.
        rewrite fmap_app, fmap_cons. apply elem_of_app. right. by left.
    + destruct (saveNote_cases note (note :: prev))
        as [(k1 & y & k2 & Heq & Hy & Hk1 & ->)|[Habsent' _]].
      * by destruct (first_split_unique (NotesContext.Note.id note)
                       [] note prev k1 y k2 Heq eq_refl Hy
                       (not_elem_of_nil _) Hk1)
          as (<- & _ & <-).
      * exfalso. apply Habsent'. unfold NotesProvider.ids.
        rewrite fmap_cons. by left.
Qed.

Lemma deleteNote_absent (noteId : string) (l : list NotesContext.Note.t) :
  noteId ∉ NotesProvider.ids l → NotesProvider.deleteNote noteId l = l.
Proof.
  rewrite <- fails_not_in. unfold NotesProvider.deleteNote.
  induction 1 as [|x rest Hx Hrest IH]; simpl; [done|].
  by rewrite Hx, IH.
Qed.

Lemma deleteNote_app (noteId : string) (l1 l2 : list NotesContext.Note.t) :
  NotesProvider.deleteNote noteId (l1 ++ l2)
  = NotesProvider.deleteNote noteId l1 ++ NotesProvider.deleteNote noteId l2.
Proof. apply List.filter_app. Qed.

Lemma deleteNote_hit (n : NotesContext.Note.t) (l : list NotesContext.Note.t) :
  NotesProvider.deleteNote (NotesContext.Note.id n) (n :: l)
  = NotesProvider.deleteNote (NotesContext.Note.id n) l.
Proof. unfold NotesProvider.deleteNote. simpl. by rewrite String.eqb_refl. Qed.

(** X21: [deleteNote] removes every note of the id, not only the
    first: afterwards the id is not in the list and [getNoteById]
    yields nothing for it, while it yields for every other id what it
    yielded before; the notes that remain keep their order.  Deleting
    an id that no note has changes nothing.  A delete undoes a save of
    that id, up to the notes of the id that were there before: deleting
    after saving is deleting. *)
Theorem deleteNote_removes_every_copy (noteId : string)
  (prev : list NotesContext.Note.t) :
  let kept := NotesProvider.deleteNote noteId prev in
  (noteId ∉ NotesProvider.ids kept)
  ∧ NotesProvider.getNoteById noteId kept = None
  ∧ (∀ j, j ≠ noteId →
          NotesProvider.getNoteById j kept = NotesProvider.getNoteById j prev)
  ∧ sublist kept prev
  ∧ (noteId ∉ NotesProvider.ids prev → kept = prev)
  ∧ ∀ note, NotesContext.Note.id note = noteId →
            NotesProvider.deleteNote noteId (NotesProvider.saveNote note prev)
            = kept.
Proof.
  intros kept. subst kept.
  assert (noteId ∉ NotesProvider.ids (NotesProvider.deleteNote noteId prev))
    as Hgone.
  { unfold NotesProvider.ids, NotesProvider.deleteNote.
    intros (n & Hid & Hin)%list_elem_of_fmap.
    apply list_elem_of_In, List.filter_In in Hin as [_ Hkeep].
    apply negb_true_iff, String.eqb_neq in Hkeep. by subst noteId. }
  split_and!.
  - exact Hgone.
  - by apply getNoteById_None.
  - intros j Hj. unfold NotesProvider.getNoteById, NotesProvider.deleteNote.
    induction prev as [|x rest IH]; simpl; [done|].
    destruct (String.eqb (NotesContext.Note.id x) noteId) eqn:Hx; simpl.
    + apply String.eqb_eq in Hx.
      rewrite (eqb_id_false (NotesContext.Note.id x) j) by congruence.
      apply IH. unfold NotesProvider.ids, NotesProvider.deleteNote in Hgone.
      simpl in Hgone. apply String.eqb_eq in Hx. by rewrite Hx in Hgone.
    + destruct (String.eqb (NotesContext.Note.id x) j); [done|].
      apply IH. unfold NotesProvider.ids, NotesProvider.deleteNote in Hgone.
      simpl in Hgone. rewrite Hx in Hgone. simpl in Hgone.
      by apply not_elem_of_cons in Hgone as [_ ?].
  - unfold NotesProvider.deleteNote. clear Hgone.
    induction prev as [|x rest IH]; simpl; [constructor|].
    destruct (negb _); by constructor.
  - apply deleteNote_absent.
  - intros note <-.
    destruct (saveNote_cases note prev)
      as [(l1 & x & l2 & -> & Hx & Hl1 & ->)|[Habsent ->]].
    + rewrite !deleteNote_app. f_equal.
      rewrite deleteNote_hit, <- Hx. by rewrite deleteNote_hit.
    + apply deleteNote_hit.
Qed.

Lemma update_from_length (hit : NotesContext.Note.t → bool)
  (updates : NotesProvider.Updates.t) (clock : nat → Z) (i : nat)
  (prev : list NotesContext.Note.t) :
  length (NotesProvider.update_from hit updates clock i prev) = length prev.
Proof.
  revert i. induction prev as [|n rest IH]; intros i; simpl; [done|].
  by rewrite IH.
Qed.

Lemma update_from_lookup (hit : NotesContext.Note.t → bool)
  (updates : NotesProvider.Updates.t) (clock : nat → Z) (i k : nat)
  (prev : list NotesContext.Note.t) :
  NotesProvider.update_from hit updates clock i prev !! k
  = (λ n, if hit n then NotesProvider.spread n updates (clock (i + k)%nat)
          else n) <$> prev !! k.
Proof.
  revert i k. induction prev as [|n rest IH]; intros i k; simpl; [done|].
  destruct k as [|k]; simpl.
  - by rewrite Nat.add_0_r.
  - rewrite IH. by rewrite Nat.add_succ_comm.
Qed.

Lemma update_from_ext (hit hit' : NotesContext.Note.t → bool)
  (updates : NotesProvider.Updates.t) (clock : nat → Z) (i : nat)
  (prev : list NotesContext.Note.t) :
  Forall (λ n, hit n = hit' n) prev →
  NotesProvider.update_from hit updates clock i prev
  = NotesProvider.update_from hit' updates clock i prev.
Proof.
  intros Hall. revert i.
  induction Hall as [|n rest Hn Hrest IH]; intros i; simpl; [done|].
  by rewrite Hn, IH.
Qed.

Lemma update_from_miss (hit : NotesContext.Note.t → bool)
  (updates : NotesProvider.Updates.t) (clock : nat → Z) (i : nat)
  (prev : list NotesContext.Note.t) :
  Forall (λ n, hit n = false) prev →
  NotesProvider.update_from hit updates clock i prev = prev.
Proof.
  intros Hall. revert i.
  induction Hall as [|n rest Hn Hrest IH]; intros i; simpl; [done|].
  by rewrite Hn, IH.
Qed.

Lemma update_from_ids (hit : NotesContext.Note.t → bool)
  (updates : NotesProvider.Updates.t) (clock : nat → Z) (i : nat)
  (prev : list NotesContext.Note.t) :
  NotesProvider.Updates.id updates = None →
  NotesProvider.ids (NotesProvider.update_from hit updates clock i prev)
  = NotesProvider.ids prev.
Proof.
  intros Hid. unfold NotesProvider.ids. revert i.
  induction prev as [|n rest IH]; intros i; simpl; [done|].
  f_equal; [|apply IH].
  destruct (hit n); [|done]. simpl. by rewrite Hid.
Qed.

(** X22: [updateNote] and [bulkUpdateNotes] rewrite the notes they hit
    where they stand and never add or remove one.  A note of another id
    is left exactly as it is, so an id that no note has (or an empty
    list of ids) changes nothing: unlike [saveNote] they create no
    note.  A note that is hit gets the clock reading as [updatedAt],
    also when the updates carry an [updatedAt] of their own, and keeps
    its content, title and creation time unless the updates name them.  Unless the updates name an
    [id] the ids are as before.  [bulkUpdateNotes] with one id is
    [updateNote]. *)
Theorem updateNote_stamps_and_keeps_others (noteId : string)
  (noteIds : list string) (updates : NotesProvider.Updates.t)
  (clock : nat → Z) (prev : list NotesContext.Note.t) :
  let updated := NotesProvider.updateNote noteId updates clock prev in
  let bulk := NotesProvider.bulkUpdateNotes noteIds updates clock prev in
  length updated = length prev
  ∧ length bulk = length prev
  ∧ (∀ i n, prev !! i = Some n →
            (NotesContext.Note.id n ≠ noteId → updated !! i = Some n)
            ∧ (NotesContext.Note.id n ∉ noteIds → bulk !! i = Some n)
            ∧ (NotesContext.Note.id n = noteId →
               ∃ n', updated !! i = Some n'
                     ∧ NotesContext.Note.updatedAt n' = clock i
                     ∧ (NotesProvider.Updates.content updates = None →
                        NotesContext.Note.content n'
                        = NotesContext.Note.content n)
                     ∧ (NotesProvider.Updates.title updates = None →
                        NotesContext.Note.title n'
                        = NotesContext.Note.title n)
                     ∧ (NotesProvider.Updates.createdAt updates = None →
                        NotesContext.Note.createdAt n'
                        = NotesContext.Note.createdAt n)))
  ∧ (noteId ∉ NotesProvider.ids prev → updated = prev)
  ∧ NotesProvider.bulkUpdateNotes [] updates clock prev = prev
  ∧ NotesProvider.bulkUpdateNotes [noteId] updates clock prev = updated
  ∧ (NotesProvider.Updates.id updates = None →
     NotesProvider.ids updated = NotesProvider.ids prev
     ∧ NotesProvider.ids bulk = NotesProvider.ids prev).
Proof.
  intros updated bulk. subst updated bulk.
  unfold NotesProvider.updateNote, NotesProvider.bulkUpdateNotes.
  split_and!.
  - apply update_from_length.
  - apply update_from_length.
  - intros i n Hn. rewrite !update_from_lookup, Hn. simpl. split_and!.
    + intros Hne. by rewrite eqb_id_false.
    + intros Hnotin.
      destruct (existsb (String.eqb (NotesContext.Note.id n)) noteIds)
        eqn:Hex; [|done].
      apply List.existsb_exists in Hex as (j & Hj & Heq).
      apply String.eqb_eq in Heq. subst j.
      by apply list_elem_of_In in Hj.
    + intros <-. rewrite String.eqb_refl. eexists. split; [done|].
      simpl. split_and!; try done; by intros ->.
  - intros Habsent. apply update_from_miss. by apply fails_not_in.
  - by apply update_from_miss, Forall_forall.
  - apply update_from_ext, Forall_forall. intros n _. simpl.
    by rewrite orb_false_r.
  - intros Hid. split; by apply update_from_ids.
Qed.

(** * Further properties at concrete inputs *)

(** X3 at a device whose token has expired and whose refresh function
    yields a token Drive accepts. *)
Lemma ensureValidToken_refreshes_on_401_witness :
  ∃ σ',
    run ensureValidToken expired_device = (Returned (Some "tok"), σ')
    ∧ accessToken σ' = Some "tok"
    ∧ requests σ' = [Sent "old" About].
Proof.
  destruct (ensureValidToken_refreshes_on_401 "old" expired_device Up 3
              (replicate 9 (Up, 3%N))) as (_ & Hrefresh & _);
    [reflexivity|discriminate|reflexivity|].
  eexists. split; [apply Hrefresh|done].
  right. split; [done|]. intros H.
  apply list_elem_of_singleton in H. discriminate H.
Defined.

(** X4 at the signed-out device. *)
Lemma signed_out_is_inert_witness :
  run (syncNotes no_Date_parse no_toISOString) signed_out
  = (Returned false, signed_out)
  ∧ run_job (instantSync no_Date_parse no_toISOString no_JSON_stringify
               no_JSON_parse tasks) signed_out
    = (Returned false, signed_out)
  ∧ run clearCloudData signed_out = (Returned false, signed_out).
Proof.
  destruct (signed_out_is_inert no_Date_parse no_toISOString
              no_JSON_stringify no_JSON_parse notes signed_out eq_refl)
    as (_ & Hnotes & _ & _ & Hclear & _).
  destruct (signed_out_is_inert no_Date_parse no_toISOString
              no_JSON_stringify no_JSON_parse tasks signed_out eq_refl)
    as (_ & _ & Htasks & _).
  split; [exact Hnotes|]. split; [exact Htasks|exact Hclear].
Defined.

(** X7 at the first sync of the tasks on a fresh device. *)
Lemma first_sync_uploads_local_payload_witness :
  ∃ σ',
    run (syncTasks no_Date_parse) fresh_device
    = (Returned true, σ')
    ∧ files_named SYNC_FILES.tasks σ' = [0%nat]
    ∧ settings σ' !! "sync_tasks_time" = Some (JTime 1009).
Proof.
  destruct (first_sync_uploads_local_payload no_Date_parse no_toISOString
              no_JSON_stringify no_JSON_parse tasks "tok" fresh_device
              3 3 3 (replicate 37 (Up, 3%N)))
    as (σ' & f & e & Hrun & _ & _ & Hid & Hnamed & _ & _ & _ & _ & Hclock
        & Htime & _); try reflexivity.
  - discriminate.
  - apply list_elem_of_In. simpl. by left.
  - exists σ'. split; [exact Hrun|]. split.
    + unfold files_named.
      change (List.filter _ _) with (named (file_of tasks) σ').
      rewrite Hnamed. simpl. by rewrite Hid.
    + change "sync_tasks_time" with (time_key tasks).
      rewrite Htime, Hclock. reflexivity.
Defined.

(** X8 at a device whose tasks were synced after the blob was
    written. *)
Lemma local_win_patches_blob_witness :
  ∃ σ' f e,
    run (syncTasks no_Date_parse) local_tasks_newer
    = (Returned true, σ')
    ∧ drive σ' = [(f, Envelope e)]
    ∧ fileId f = 0%nat
    ∧ data e = JArr [a_task].
Proof.
  destruct (local_win_patches_blob no_Date_parse no_toISOString
              no_JSON_stringify no_JSON_parse tasks "tok" local_tasks_newer
              3 3 3 3 [] (fst tasks_blob) (fst tasks_blob)
              (envelope (JArr []) 500))
    as (σ' & e & Hrun & Hdrive & Hdata & _); try reflexivity.
  - discriminate.
  - apply list_elem_of_In. simpl. by left.
  - eexists σ', _, e. split; [exact Hrun|]. split; [exact Hdrive|].
    split; [reflexivity|exact Hdata].
Defined.


(** X10 at a device whose look-up of the notes blob is answered with
    status 500: a second notes blob appears. *)
Lemma failed_lookup_is_taken_for_first_sync_witness :
  ∃ σ',
    run (syncNotes no_Date_parse no_toISOString) flaky_lookup
    = (Returned true, σ')
    ∧ files_named SYNC_FILES.notes σ' = [0%nat; 1%nat].
Proof.
  destruct (failed_lookup_is_taken_for_first_sync no_Date_parse no_toISOString
              no_JSON_stringify no_JSON_parse notes "tok" flaky_lookup
              (Refuses 500) 3 3 3 [])
    as (σ' & f & e & Hrun & _ & _ & Hid & _ & Hnamed & _); try reflexivity.
  - discriminate.
  - apply list_elem_of_In. simpl. by left.
  - discriminate.
  - exists σ'. split; [exact Hrun|].
    unfold files_named.
    change (List.filter _ _) with (named (file_of notes) σ').
    rewrite Hnamed, fmap_app. simpl. by rewrite Hid.
Defined.

(** X11 at a device that restores the settings another device
    uploaded: the theme and the device id are overwritten, the font is
    kept. *)
Lemma syncSettings_restore_overlays_witness :
  ∃ σ',
    run (syncSettings no_Date_parse no_toISOString) restoring_device
    = (Returned true, σ')
    ∧ settings σ' !! "theme" = Some (JStr "light")
    ∧ settings σ' !! "device_id" = Some (JStr "device_9_z")
    ∧ settings σ' !! "font" = Some (JStr "serif").
Proof.
  destruct (syncSettings_restore_overlays no_Date_parse no_toISOString
              "tok" restoring_device 3 3 3 [] (fst settings_blob)
              (fst settings_blob)
              (envelope (JObj [("theme", JStr "light");
                               ("device_id", JStr "device_9_z")]) 900)
              [("theme", JStr "light"); ("device_id", JStr "device_9_z")])
    as (σ' & Hrun & Hin & Hout & _); try reflexivity.
  - discriminate.
  - apply list_elem_of_In. simpl. by left.
  - apply (bool_decide_unpack _). by vm_compute.
  - exists σ'. split; [exact Hrun|]. split_and!.
    + apply Hin; [|discriminate]. apply elem_of_cons. by left.
    + apply Hin; [|discriminate]. apply elem_of_cons. right.
      apply elem_of_cons. by left.
    + rewrite Hout; [reflexivity| |discriminate|discriminate].
      apply (bool_decide_unpack _). by vm_compute.
Defined.

(** X12 at a device that restores an empty media index, with
    built-ins for which its text parses back. *)
Lemma syncMedia_index_round_trip_witness :
  ∃ σ',
    run (syncMedia no_Date_parse brackets_JSON_stringify brackets_JSON_parse)
        media_device
    = (Returned true, σ')
    ∧ settings σ' !! "media_index" = Some (JStr "[]")
    ∧ run (getLocalMediaIndex brackets_JSON_parse) σ'
      = (Returned (JArr []), σ').
Proof.
  destruct (syncMedia_index_round_trip no_Date_parse brackets_JSON_stringify
              brackets_JSON_parse "tok" media_device 3 3 3 []
              {| fileId := 0%nat; fileName := SYNC_FILES.media;
                 modifiedTime := 900 |}
              {| fileId := 0%nat; fileName := SYNC_FILES.media;
                 modifiedTime := 900 |}
              (envelope (JArr []) 900))
    as (σ' & Hrun & Hstored & Hback & _); try reflexivity.
  - discriminate.
  - apply list_elem_of_In. simpl. by left.
  - exists σ'. split; [exact Hrun|]. split; [exact Hstored|].
    apply Hback; [discriminate|reflexivity].
Defined.

(** X13 at a folder with two notes blobs, a tasks blob and a file of
    another name: the second notes blob and the other file remain. *)
Lemma clearCloudData_deletes_one_blob_per_name_witness :
  ∃ σ',
    run clearCloudData crowded_device = (Returned true, σ')
    ∧ files_named SYNC_FILES.notes σ' = [2%nat]
    ∧ files_named SYNC_FILES.tasks σ' = []
    ∧ files_named "other.json" σ' = [3%nat].
Proof.
  destruct (clearCloudData_deletes_one_blob_per_name "tok" crowded_device)
    as (σ' & Hrun & Hnamed & _); try reflexivity.
  - discriminate.
  - apply list_elem_of_In. simpl. by left.
  - repeat constructor.
  - apply (bool_decide_unpack _). by vm_compute.
  - exists σ'. split; [exact Hrun|].
    unfold files_named.
    change (List.filter (λ f, String.eqb (fileName f) ?n) (fst <$> drive σ'))
      with (named n σ').
    rewrite !Hnamed. split_and!; reflexivity.
Defined.

(** X14 at the same folder on a device that goes offline after the
    token probe. *)
Lemma clearCloudData_reports_the_token_check_witness :
  ∃ σ',
    run clearCloudData soon_offline = (Returned true, σ')
    ∧ drive σ' = crowded_folder.
Proof.
  destruct (clearCloudData_reports_the_token_check "tok" soon_offline 3 [])
    as (σ' & Hrun & Hdrive & _); try reflexivity.
  - discriminate.
  - apply list_elem_of_In. simpl. by left.
  - constructor.
  - exists σ'. split; [exact Hrun|exact Hdrive].
Defined.

(** X15 at a first full sync with a healthy network. *)
Lemma syncAll_releases_lock_and_notifies_witness :
  ∃ rep σ',
    run_job (syncAll no_Date_parse no_toISOString no_JSON_stringify
               no_JSON_parse) fresh_device = (Returned rep, σ')
    ∧ syncInProgress σ' = false
    ∧ events σ' = [rep].
Proof.
  destruct (syncAll_releases_lock_and_notifies no_Date_parse no_toISOString
              no_JSON_stringify no_JSON_parse fresh_device eq_refl)
    as [(rep & σ' & Hrun & Hflag & Hevents & _) _].
  exists rep, σ'. split; [exact Hrun|]. split; [exact Hflag|exact Hevents].
Defined.

(** X17 at a provider in the middle of a sync. *)
Lemma provider_skips_when_locked_or_signed_out_witness :
  run_provider
    (performSync no_Date_parse no_toISOString no_JSON_stringify no_JSON_parse
       true (Some "tok") None "manual")
    (locked_provider, fresh_device)
  = (Returned false, (locked_provider, fresh_device))
  ∧ run_provider
      (syncNow no_Date_parse no_toISOString no_JSON_stringify no_JSON_parse
         true (Some "tok") None (Domain notes))
      (locked_provider, fresh_device)
    = (Returned false, (locked_provider, fresh_device)).
Proof.
  apply (provider_skips_when_locked_or_signed_out no_Date_parse no_toISOString
           no_JSON_stringify no_JSON_parse true (Some "tok") None "manual"
           (Domain notes) locked_provider fresh_device).
  left. reflexivity.
Defined.

(** X18 at a manager whose own full sync is in flight: the provider
    ends with [hasError] set. *)
Lemma performSync_reports_the_full_sync_witness :
  run_provider
    (performSync no_Date_parse no_toISOString no_JSON_stringify no_JSON_parse
       true (Some "tok") None "manual")
    (idle_provider, busy_device)
  = (Returned false, (failed_provider, manager_primed "tok" None busy_device)).
Proof.
  destruct (performSync_reports_the_full_sync no_Date_parse no_toISOString
              no_JSON_stringify no_JSON_parse "tok" None "manual"
              idle_provider busy_device)
    as (rep & σ' & _ & Hrun & Hbusy); [discriminate|reflexivity|].
  destruct (Hbusy eq_refl) as (-> & _ & ->). exact Hrun.
Defined.

(** X19 at a provider that shows an error from an earlier sync: the
    error stays whatever the notes unit yields. *)
Lemma syncNow_leaves_hasError_witness :
  ∃ ok π' σ',
    run_provider
      (syncNow no_Date_parse no_toISOString no_JSON_stringify no_JSON_parse
         true (Some "tok") None (Domain notes))
      (failed_provider, fresh_device)
    = (Returned ok, (π', σ'))
    ∧ hasError π' = true ∧ syncLock π' = false.
Proof.
  destruct (syncNow_leaves_hasError no_Date_parse no_toISOString
              no_JSON_stringify no_JSON_parse "tok" None
              failed_provider fresh_device)
    as [Hone _]; [discriminate|reflexivity|].
  destruct (Hone notes) as (ok & σ' & _ & Hrun & _).
  eexists ok, _, σ'. split; [exact Hrun|]. split; reflexivity.
Defined.

(** X25 at a device that shows code notes only: hiding them is
    refused. *)
Lemma toggleNoteTypeVisibility_keeps_one_visible_witness :
  ∃ res,
    run_visibility (toggleNoteTypeVisibility no_toISOString "code")
                   ([], one_type_device)
    = (Returned res, ([], one_type_device))
    ∧ toggled res = false.
Proof.
  destruct (toggleNoteTypeVisibility_keeps_one_visible no_toISOString "code"
              [JStr "code"] [] one_type_device)
    as (res & σ' & evs' & Hrun & _ & _ & Hcase).
  - reflexivity.
  - apply NoDup_singleton.
  - destruct Hcase as (Hrefused & _ & -> & ->).
    exists res. split; [exact Hrun|exact Hrefused].
Defined.

(** X26 at a device whose list names code notes twice. *)
Lemma toggleNoteTypeVisibility_ignores_refusal_witness :
  run_visibility (toggleNoteTypeVisibility no_toISOString "code")
                 ([], twice_listed_device)
  = (Returned {| toggled := true; visible := JArr [] |},
     ([], twice_listed_device))
  ∧ run (isNoteTypeVisible no_toISOString "code") twice_listed_device
    = (Returned true, twice_listed_device).
Proof.
  apply (toggleNoteTypeVisibility_ignores_refusal no_toISOString "code"
           [JStr "code"; JStr "code"] [] twice_listed_device).
  - reflexivity.
  - simpl. lia.
  - by repeat constructor.
Defined.



(** C9, the claim as worded: sync timestamps and the device identity stay
    on the device.  It fails on the device that has just completed its
    first full sync: the next settings sync sends one upload, whose
    payload holds ['last_full_sync'], the time of that full sync, and
    whose metadata holds the id stored under ['device_id']. *)
Lemma syncSettings_uploads_internal_state :
  settings (after_full_sync no_Date_parse no_toISOString no_JSON_stringify
              no_JSON_parse) !! "device_id"
  = Some (JStr "device_1003_k3x9")
  ∧ settings (after_full_sync no_Date_parse no_toISOString no_JSON_stringify
                no_JSON_parse) !! "last_full_sync"
    = Some (JTime 1063)
  ∧ sent_by (syncSettings no_Date_parse no_toISOString)
      (after_full_sync no_Date_parse no_toISOString no_JSON_stringify
         no_JSON_parse)
    = [Sent "tok"
         (UpdateFile 4%nat SYNC_FILES.settings
            {| data := JObj [("last_full_sync", JTime 1063)];
               metadata := {| lastSyncTime := JTime 1072;
                              deviceId := JStr "device_1003_k3x9";
                              version := JNum 1 |} |});
       Sent "tok" (GetMedia 4%nat);
       Sent "tok" (ListFiles SYNC_FILES.settings);
       Sent "tok" About]
  ∧ ¬ internal_state_stays no_Date_parse no_toISOString
        (after_full_sync no_Date_parse no_toISOString no_JSON_stringify
           no_JSON_parse).
Proof.
  assert (sent_by (syncSettings no_Date_parse no_toISOString)
            (after_full_sync no_Date_parse no_toISOString no_JSON_stringify
               no_JSON_parse)
          = [Sent "tok"
               (UpdateFile 4%nat SYNC_FILES.settings
                  {| data := JObj [("last_full_sync", JTime 1063)];
                     metadata := {| lastSyncTime := JTime 1072;
                                    deviceId := JStr "device_1003_k3x9";
                                    version := JNum 1 |} |});
             Sent "tok" (GetMedia 4%nat);
             Sent "tok" (ListFiles SYNC_FILES.settings);
             Sent "tok" About]) as Hsent by (vm_compute; reflexivity).
  assert (settings (after_full_sync no_Date_parse no_toISOString
                      no_JSON_stringify no_JSON_parse) !! "device_id"
          = Some (JStr "device_1003_k3x9")) as Hid
      by (vm_compute; reflexivity).
  split_and!; [exact Hid|by vm_compute|exact Hsent|].
  intros Hstays.
  destruct (Hstays
              (Sent "tok"
                 (UpdateFile 4%nat SYNC_FILES.settings
                    {| data := JObj [("last_full_sync", JTime 1063)];
                       metadata := {| lastSyncTime := JTime 1072;
                                      deviceId := JStr "device_1003_k3x9";
                                      version := JNum 1 |} |}))
              SYNC_FILES.settings
              {| data := JObj [("last_full_sync", JTime 1063)];
                 metadata := {| lastSyncTime := JTime 1072;
                                deviceId := JStr "device_1003_k3x9";
                                version := JNum 1 |} |})
    as [Hkeys Hdevice].
  - rewrite Hsent. apply list_elem_of_here.
  - reflexivity.
  - apply (Hkeys "last_full_sync").
    + apply list_elem_of_here.
    + apply list_elem_of_here.
Qed.

Lemma syncSettings_uploads_all_but_prefixed_witness :
  (∃ new,
      requests (snd (run (syncSettings no_Date_parse no_toISOString)
                       (after_full_sync no_Date_parse no_toISOString
                          no_JSON_stringify no_JSON_parse)))
      = new ++ requests (after_full_sync no_Date_parse no_toISOString
                           no_JSON_stringify no_JSON_parse)
      ∧ Forall settings_upload new)
  ∧ ∃ fs,
      syncableSettings
        (settings (after_full_sync no_Date_parse no_toISOString
                     no_JSON_stringify no_JSON_parse))
      = JObj fs
      ∧ ("last_full_sync", JTime 1063) ∈ fs.
Proof.
  destruct (syncSettings_uploads_all_but_prefixed no_Date_parse
              no_toISOString
              (after_full_sync no_Date_parse no_toISOString
                 no_JSON_stringify no_JSON_parse))
    as (_ & Hnew & _ & Hkept & _).
  split; [exact Hnew|].
  apply Hkept; by vm_compute.
Defined.
